(** * Ember Metal events: listener registry and dispatcher

    A shallow embedding of [packages/ember-metal/lib/events.js].

    The JavaScript heap is modelled explicitly: every hash of the nested
    listener structure and every action record is a heap cell reached through
    a location, so that two references to one object stay aliases.  The
    functions of [events.js] are state transformers over that heap in a small
    state-and-exception monad; user code (listener methods, transforms, hooks,
    the callback of [suspendListener]) is an oracle [run] that may change the
    heap and may raise. *)

From Stdlib Require Import ZArith Lia.
From stdpp Require Import base list strings pretty.

Open Scope string_scope.
Open Scope list_scope.

(* ===================================================================== *)
(** ** Values, objects and the heap *)
(* ===================================================================== *)

(** JavaScript values.  [VObj l] is a reference to the heap cell [l];
    [VFun f] is a callable whose behaviour is given by the oracle at [f]
    (callables carry no properties of their own in this model). *)
Inductive value :=
| VUndefined
| VNull
| VBool (b : bool)
| VNum (n : Z)
| VStr (s : string)
| VObj (l : nat)
| VFun (f : nat).

#[global] Instance value_eq_dec : EqDecision value.
Proof. solve_decision. Defined.

(** What can be raised. *)
Inductive exn :=
| TypeError
| InvalidArgument (desc : string)
| Thrown (v : value).

(** ToBoolean. *)
Definition truthy (v : value) : bool :=
  match v with
  | VUndefined | VNull => false
  | VBool b => b
  | VNum n => negb (n =? 0)%Z
  | VStr s => negb (String.eqb s "")
  | VObj _ | VFun _ => true
  end.

(** ['function' === typeof v] and ['string' === typeof v]. *)
Definition is_function (v : value) : bool :=
  match v with VFun _ => true | _ => false end.

Definition is_string (v : value) : bool :=
  match v with VStr _ => true | _ => false end.

(** [a === b]. *)
Definition strict_eq (a b : value) : bool := bool_decide (a = b).

(** ToString of a value used as a property key. *)
Definition to_key (v : value) : string :=
  match v with
  | VUndefined => "undefined"
  | VNull => "null"
  | VBool true => "true"
  | VBool false => "false"
  | VNum n => pretty n
  | VStr s => s
  | VObj _ => "[object Object]"
  | VFun _ => "function"
  end.

(** Own properties of an object in insertion order, which is the order in
    which [for (k in o)] enumerates them. *)
Definition alist := list (string * value).

Fixpoint alookup (k : string) (ps : alist) : value :=
  match ps with
  | [] => VUndefined
  | (k', v) :: ps' => if String.eqb k k' then v else alookup k ps'
  end.

(** [o[k] = v]: overwrite in place when the key exists, append otherwise. *)
Fixpoint aset (k : string) (v : value) (ps : alist) : alist :=
  match ps with
  | [] => [(k, v)]
  | (k', v') :: ps' =>
      if String.eqb k k' then (k, v) :: ps' else (k', v') :: aset k v ps'
  end.

(** A heap cell: the own properties of the object, and its private metadata
    store (what [Ember.meta(obj)] gives access to). *)
Record object := Object { props : alist; meta : alist }.

Abbreviation Heap := (list object).

(** [v[k]] for a [v] that is known not to be null or undefined. *)
Definition prop (h : Heap) (v : value) (k : string) : value :=
  match v with
  | VObj l => match h !! l with
              | Some ob => alookup k (props ob)
              | None => VUndefined
              end
  | _ => VUndefined
  end.

(** The keys [for (k in v)] visits; they are fixed when the loop starts. *)
Definition keys (h : Heap) (v : value) : list string :=
  match v with
  | VObj l => match h !! l with
              | Some ob => map fst (props ob)
              | None => []
              end
  | _ => []
  end.

(** [v[k] = x]; an assignment to a property of a primitive is dropped. *)
Definition set_prop (h : Heap) (v : value) (k : string) (x : value) : Heap :=
  match v with
  | VObj l => match h !! l with
              | Some ob => <[l := Object (aset k x (props ob)) (meta ob)]> h
              | None => h
              end
  | _ => h
  end.

(* ===================================================================== *)
(** ** The machine: heap, observation trace, exceptions *)
(* ===================================================================== *)

(** The two ways user code is entered from this file.  A call with an
    argument list hands the callee values; a transform is handed [params],
    the arguments object of the fire, by reference. *)
Inductive call :=
| Apply (callee : nat) (this : value) (args : list value)
    (* callee.apply(this, args), callee.call(this), this.callee(args) *)
| CallXform (callee : nat) (target method params : value).
    (* xform(target, method, params) *)

Inductive outcome (A : Type) :=
| Return (a : A)
| Throw (e : exn).
Arguments Return {A} a.
Arguments Throw {A} e.

(** Who made a call: an object hook ([sendEvent], [didAddListener],
    [didRemoveListener]), the invocation of the action record at a location,
    or the callback of [suspendListener]. *)
Inductive origin :=
| Hook
| Action (a : value)
| Body.

#[global] Instance origin_eq_dec : EqDecision origin.
Proof. solve_decision. Defined.

Record event := Event {
  ev_origin : origin;
  ev_call : call;
  ev_heap : Heap;          (* the heap the call was made on *)
  ev_result : outcome value
}.

(** The trace is an observation device: one entry per call into user code,
    in order, each with the heap at the time of the call.  User code cannot
    see it. *)
Record machine := Machine { heap : Heap; trace : list event }.

Definition M (A : Type) := machine -> outcome A * machine.

Definition ret {A} (a : A) : M A := fun m => (Return a, m).
Definition throw {A} (e : exn) : M A := fun m => (Throw e, m).
Definition bind {A B} (c : M A) (k : A -> M B) : M B :=
  fun m => match c m with
           | (Return a, m') => k a m'
           | (Throw e, m') => (Throw e, m')
           end.

Notation "'let!' x ':=' c 'in' k" := (bind c (fun x => k))
  (at level 10, x name, c at level 100, k at level 200).
Notation "'do!' c 'in' k" := (bind c (fun _ => k))
  (at level 10, c at level 100, k at level 200).

(** [try { c } finally { f }] where [f] cannot raise. *)
Definition try_finally {A} (c : M A) (f : machine -> machine) : M A :=
  fun m => let '(r, m') := c m in (r, f m').

Definition read {A} (f : Heap -> A) : M A := fun m => (Return (f (heap m)), m).
Definition write (f : Heap -> Heap) : M unit :=
  fun m => (Return tt, Machine (f (heap m)) (trace m)).

(** [new]: the fresh cell goes to the end of the heap. *)
Definition alloc (ob : object) : M value :=
  fun m => (Return (VObj (List.length (heap m))),
            Machine (heap m ++ [ob]) (trace m)).

(** [v.k] where [v] may be null or undefined. *)
Definition get_prop (v : value) (k : string) : M value :=
  match v with
  | VUndefined | VNull => throw TypeError
  | _ => read (fun h => prop h v k)
  end.

(* ===================================================================== *)
(** ** External collaborators *)
(* ===================================================================== *)

Definition SOURCE_KEY : string := "__ember_source__".

(** Modelled from the spec: [Ember.guidFor] of ember-metal/utils, the
    identity-assignment service (section 6): a stable token per value,
    distinct values get distinct tokens, and no value gets the reserved
    token.  Interning is modelled by printing the value. *)
Definition guidFor (v : value) : string :=
  match v with
  | VUndefined => "(undefined)"
  | VNull => "(null)"
  | VBool true => "(true)"
  | VBool false => "(false)"
  | VNum n => "nu" +:+ pretty n
  | VStr s => "st" +:+ s
  | VObj l => "ember" +:+ pretty l
  | VFun f => "ember_" +:+ pretty f
  end.

(** Modelled from the spec: the namespace object [Ember] of ember-metal/core
    (the dispatcher's "own namespace/global anchor" of section 4.1); it
    lives at location 0 of every heap. *)
Definition Ember : value := VObj 0.

(** Modelled from the spec: [Ember.assert] of ember-metal/core; section 4.1
    has [register] fail with [InvalidArgument] when the test is false. *)
Definition Ember_assert (desc : string) (test : bool) : M unit :=
  if test then ret tt else throw (InvalidArgument desc).

(** A hash created by the metadata store records its owner under the
    reserved key. *)
Definition new_hash (owner : value) : object :=
  Object [(SOURCE_KEY, owner)] [].

(** Where a step of a metadata path reads and writes: the metadata store of
    an object, or the properties of a hash below it. *)
Inductive container :=
| MetaOf (o : nat)
| PropsOf (l : nat).

Definition read_in (h : Heap) (c : container) (k : string) : value :=
  match c with
  | MetaOf o => match h !! o with
                | Some ob => alookup k (meta ob)
                | None => VUndefined
                end
  | PropsOf l => prop h (VObj l) k
  end.

Definition write_in (h : Heap) (c : container) (k : string) (x : value) : Heap :=
  match c with
  | MetaOf o => match h !! o with
                | Some ob => <[o := Object (props ob) (aset k x (meta ob))]> h
                | None => h
                end
  | PropsOf l => set_prop h (VObj l) k x
  end.

(** Modelled from the spec: the walk of [Ember.metaPath] of ember-metal/utils
    (section 6: "get-or-create nested path, optionally writable", with
    copy-on-write when the hash found belongs to another object).  A missing
    entry is created when [writable] and ends the walk with [undefined]
    otherwise; a hash owned by [obj] is entered; a hash owned by someone else
    is replaced, when [writable], by a copy that [obj] owns. *)
Fixpoint metaPath_from (obj : value) (writable : bool) (c : container)
    (path : list string) (last : value) : M value :=
  match path with
  | [] => ret last
  | keyName :: rest =>
      let! v := read (fun h => read_in h c keyName) in
      if negb (truthy v) then
        if negb writable then ret VUndefined
        else
          let! fresh := alloc (new_hash obj) in
          do! write (fun h => write_in h c keyName fresh) in
          match fresh with
          | VObj l => metaPath_from obj writable (PropsOf l) rest fresh
          | _ => ret VUndefined
          end
      else
        let! owner := read (fun h => prop h v SOURCE_KEY) in
        match v with
        | VObj l =>
            if strict_eq owner obj then
              metaPath_from obj writable (PropsOf l) rest v
            else if negb writable then ret VUndefined
            else
              let! inherited := read (fun h => match h !! l with
                                          | Some ob => props ob
                                          | None => []
                                          end) in
              let! fresh := alloc (Object (aset SOURCE_KEY obj inherited) []) in
              do! write (fun h => write_in h c keyName fresh) in
              match fresh with
              | VObj l' => metaPath_from obj writable (PropsOf l') rest fresh
              | _ => ret VUndefined
              end
        | _ => if negb writable then ret VUndefined else throw TypeError
        end
  end.

(** Modelled from the spec: [Ember.metaPath(obj, path, writable)].  Only heap
    objects own a metadata store: reading the store of [null] or [undefined]
    raises, other values have an empty store that cannot be written. *)
Definition metaPath (obj : value) (path : list string) (writable : bool)
    : M value :=
  match obj with
  | VUndefined | VNull => throw TypeError
  | VObj o =>
      let! present := read (fun h => match h !! o with Some _ => true | None => false end) in
      if (present : bool) then metaPath_from obj writable (MetaOf o) path VUndefined
      else if writable then throw TypeError else ret VUndefined
  | _ => if writable then throw TypeError else ret VUndefined
  end.

(** Modelled from the spec: [Ember.meta(obj, false)[k]], a read of the
    metadata store that creates nothing. *)
Definition meta_get (obj : value) (k : string) : M value :=
  match obj with
  | VUndefined | VNull => throw TypeError
  | VObj o => read (fun h => read_in h (MetaOf o) k)
  | _ => ret VUndefined
  end.

(* ===================================================================== *)
(** ** Arguments objects *)
(* ===================================================================== *)

(** [events.js] hands the [arguments] of [sendEvent] and of [deferEvent] on
    as they are: one object, passed by reference to [invokeAction] and from
    there to every transform, which may write to it.  An arguments object is
    a heap cell.  It is array-like, not a hash: its elements and its
    [length] are kept in the second component of the cell, apart from the
    named properties, so that what is read through any other reference does
    not depend on whether the cell is there.  The code of [events.js] never
    enumerates an arguments object; it reads [params[0]], and [apply] and
    [slice] read [length] and the elements below it. *)
Fixpoint elements (i : nat) (vs : list value) : alist :=
  match vs with
  | [] => []
  | v :: vs' => (pretty i, v) :: elements (S i) vs'
  end.

Definition arguments_object (vs : list value) : object :=
  Object [] (("length", VNum (Z.of_nat (List.length vs))) :: elements 0 vs).

(** [params[i]] *)
Definition element (h : Heap) (params : value) (i : nat) : value :=
  match params with
  | VObj p => read_in h (MetaOf p) (pretty i)
  | _ => VUndefined
  end.

(** The list that [Function.prototype.apply] and [Array.prototype.slice]
    make of an array-like: its elements below [length], as they are at that
    moment.  A negative [length] gives no elements, and so does one that has
    been replaced by something that is not a number. *)
Definition arg_list (h : Heap) (params : value) : list value :=
  match params with
  | VObj p => match read_in h (MetaOf p) "length" with
              | VNum n => map (element h params) (seq 0 (Z.to_nat n))
              | _ => []
              end
  | _ => []
  end.

(* ===================================================================== *)
(** ** events.js *)
(* ===================================================================== *)

Section Events.

(** The behaviour of user code: given a call and the heap it runs on, the
    value returned or the exception raised, and the heap it leaves. *)
Variable run : call -> Heap -> outcome value * Heap.

(** Enter user code and record the call with its result. *)
Definition invoke (org : origin) (c : call) : M value :=
  fun m => let '(r, h') := run c (heap m) in
           (r, Machine h' (trace m ++ [Event org c (heap m) r])).

(** A call of the value [callee] with the receiver [this]; calling what is
    not callable raises. *)
Definition apply_fn (org : origin) (callee this : value) (args : list value)
    : M value :=
  match callee with
  | VFun f => invoke org (Apply f this args)
  | _ => throw TypeError
  end.

(** [method.apply(this, params)].  [apply] is a property of [method]: a
    function finds the built-in one, which calls the function with the
    elements of [params] (functions are atoms here, they hold no properties
    of their own); an object is asked for an [apply] of its own, which is
    called as a method of that object with [this] and [params]; any other
    value has no such property, and the call raises. *)
Definition method_apply (org : origin) (method this params : value) : M value :=
  match method with
  | VFun f => let! args := read (fun h => arg_list h params) in
              invoke org (Apply f this args)
  | VObj _ => let! apply := read (fun h => prop h method "apply") in
              apply_fn org apply method [this; params]
  | _ => throw TypeError
  end.

(** [callback.call(this)], with [call] looked up in the same way. *)
Definition method_call (org : origin) (callback this : value) : M value :=
  match callback with
  | VFun f => invoke org (Apply f this [])
  | VObj _ => let! call := read (fun h => prop h callback "call") in
              apply_fn org call callback [this]
  | _ => throw TypeError
  end.

(** [v[k] = x] where [v] may be null or undefined. *)
Definition put_prop (v : value) (k : string) (x : value) : M unit :=
  match v with
  | VUndefined | VNull => throw TypeError
  | _ => write (fun h => set_prop h v k x)
  end.

(** [function actionSetFor(obj, eventName, target, writable)] *)
Definition actionSetFor (obj eventName target : value) (writable : bool)
    : M value :=
  metaPath obj ["listeners"; to_key eventName; guidFor target] writable.

(** [function targetSetFor(obj, eventName)] *)
Definition targetSetFor (obj eventName : value) : M value :=
  let! listenerSet := meta_get obj "listeners" in
  if negb (truthy listenerSet) then ret (VBool false)
  else
    let! targetSet := read (fun h => prop h listenerSet (to_key eventName)) in
    ret (if truthy targetSet then targetSet else VBool false).

(** The names under which every plain object finds something inherited from
    [Object.prototype]: its methods, and the accessors that engines add.
    All of them hold a function or an object, which is truthy. *)
Definition Object_prototype : list string :=
  ["constructor"; "toString"; "toLocaleString"; "valueOf"; "hasOwnProperty";
   "isPrototypeOf"; "propertyIsEnumerable"; "__defineGetter__";
   "__defineSetter__"; "__lookupGetter__"; "__lookupSetter__"; "__proto__"].

(** [var SKIP_PROPERTIES = { __ember_source__: true }], read as
    [SKIP_PROPERTIES[k]].  The table is a plain object: besides its own key
    the lookup finds what the table inherits from [Object.prototype], so
    these names are skipped as well. *)
Definition SKIP_PROPERTIES (k : string) : bool :=
  String.eqb k SOURCE_KEY || existsb (String.eqb k) Object_prototype.

(** The inner loop of [iterateSet] over the keys of one action set.  [S] is
    the state the callback closes over; the result [true] is the early
    exit. *)
Fixpoint iterate_actions {S : Type} (callback : value -> S -> M (value * S))
    (actionSet : value) (methodGuids : list string) (s : S) : M (bool * S) :=
  match methodGuids with
  | [] => ret (false, s)
  | methodGuid :: rest =>
      if SKIP_PROPERTIES methodGuid then iterate_actions callback actionSet rest s
      else
        let! action := read (fun h => prop h actionSet methodGuid) in
        if truthy action then
          let! rs := callback action s in
          if strict_eq (fst rs) (VBool true) then ret (true, snd rs)
          else iterate_actions callback actionSet rest (snd rs)
        else iterate_actions callback actionSet rest s
  end.

(** The outer loop of [iterateSet] over the keys of the target set. *)
Fixpoint iterate_targets {S : Type} (callback : value -> S -> M (value * S))
    (targetSet : value) (targetGuids : list string) (s : S) : M (bool * S) :=
  match targetGuids with
  | [] => ret (false, s)
  | targetGuid :: rest =>
      if SKIP_PROPERTIES targetGuid then iterate_targets callback targetSet rest s
      else
        let! actionSet := read (fun h => prop h targetSet targetGuid) in
        if truthy actionSet then
          let! methodGuids := read (fun h => keys h actionSet) in
          let! bs := iterate_actions callback actionSet methodGuids s in
          if fst bs then ret (true, snd bs)
          else iterate_targets callback targetSet rest (snd bs)
        else iterate_targets callback targetSet rest s
  end.

(** [function iterateSet(targetSet, callback, params)] *)
Definition iterateSet {S : Type} (targetSet : value)
    (callback : value -> S -> M (value * S)) (s : S) : M (bool * S) :=
  if negb (truthy targetSet) then ret (false, s)
  else
    let! targetGuids := read (fun h => keys h targetSet) in
    iterate_targets callback targetSet targetGuids s.

(** [function invokeAction(action, params)]; [params] is a reference to an
    arguments object. *)
Definition invokeAction (action params : value) : M value :=
  let! method := read (fun h => prop h action "method") in
  let! target := read (fun h => prop h action "target") in
  let! xform := read (fun h => prop h action "xform") in
  let! target := read (fun h => if negb (truthy target) then element h params 0
                                else target) in
  let! method := (if is_string method then get_prop target (to_key method)
                  else ret method) in
  if truthy xform then
    match xform with
    | VFun g => do! invoke (Action action) (CallXform g target method params) in
                ret VUndefined
    | _ => throw TypeError
    end
  else
    do! method_apply (Action action) method target params in
    ret VUndefined.

(** The shuffle at the head of [addListener], [removeListener] and
    [suspendListener]: a callable in the target position is the method. *)
Definition normalize (target method : value) : value * value :=
  if negb (truthy method) && is_function target then (VNull, target)
  else (target, method).

(** [obj.hook(args)] when [obj.hook] is a function. *)
Definition call_hook (obj : value) (name : string) (args : list value) : M unit :=
  let! hook := get_prop obj name in
  if is_function hook then do! apply_fn Hook hook obj args in ret tt
  else ret tt.

(** [function addListener(obj, eventName, target, method, xform)] *)
Definition addListener (obj eventName target method xform : value) : M unit :=
  do! Ember_assert
        "You must pass at least an object and event name to Ember.addListener"
        (truthy obj && truthy eventName) in
  let tm := normalize target method in
  let target := fst tm in
  let method := snd tm in
  let! actionSet := actionSetFor obj eventName target true in
  let methodGuid := guidFor method in
  let! existing := get_prop actionSet methodGuid in
  do! (if negb (truthy existing) then
         let! action := alloc (Object [("target", target); ("method", method);
                                       ("xform", xform)] []) in
         put_prop actionSet methodGuid action
       else put_prop existing "xform" xform) in
  call_hook obj "didAddListener" [eventName; target; method].

(** [function removeListener(obj, eventName, target, method)] *)
Definition removeListener (obj eventName target method : value) : M unit :=
  let tm := normalize target method in
  let target := fst tm in
  let method := snd tm in
  let! actionSet := actionSetFor obj eventName target true in
  let methodGuid := guidFor method in
  do! (if truthy actionSet then
         let! existing := get_prop actionSet methodGuid in
         if truthy existing then put_prop actionSet methodGuid VNull else ret tt
       else ret tt) in
  if truthy obj then call_hook obj "didRemoveListener" [eventName; target; method]
  else ret tt.

(** [function suspendListener(obj, eventName, target, method, callback)] *)
Definition suspendListener (obj eventName target method callback : value)
    : M value :=
  let tm := normalize target method in
  let target := fst tm in
  let method := snd tm in
  let! actionSet := actionSetFor obj eventName target true in
  let methodGuid := guidFor method in
  let! action := (if truthy actionSet then get_prop actionSet methodGuid
                  else ret actionSet) in
  do! put_prop actionSet methodGuid VNull in
  try_finally (method_call Body callback target)
    (fun m => Machine (set_prop (heap m) actionSet methodGuid action) (trace m)).

(** The first statement of [sendEvent] and of the closure of [deferEvent]:
    give the object a chance to handle the event itself. *)
Definition custom_send (obj : value) (rest : list value) : M unit :=
  if negb (strict_eq obj Ember) then call_hook obj "sendEvent" rest
  else ret tt.

(** [function sendEvent(obj, eventName)]; [args] are the further
    arguments, so that [arguments] holds [obj :: eventName :: args].  The
    hook is given a slice, a list of its own, taken before anything could
    have written to [arguments]; the arguments object becomes a cell of the
    heap where it is first handed out by reference. *)
Definition sendEvent (obj eventName : value) (args : list value) : M bool :=
  do! custom_send obj (eventName :: args) in
  let! targetSet := targetSetFor obj eventName in
  let! arguments := alloc (arguments_object (obj :: eventName :: args)) in
  do! iterateSet targetSet
        (fun action (_ : unit) =>
           let! r := invokeAction action arguments in ret (r, tt)) tt in
  ret true.

(** What the closure returned by [deferEvent] holds on to: a reference to
    the arguments object of the call of [deferEvent], and the array of action
    records.  [events.js] is not strict code, so inside [deferEvent] the
    variable [obj] and [arguments[0]] are one variable: the closure finds in
    [obj] what [params[0]] holds when it runs. *)
Record deferred := Deferred {
  d_params : value;
  d_actions : list value
}.

(** [function deferEvent(obj, eventName)]: the part that runs at once. *)
Definition deferEvent (obj eventName : value) (args : list value) : M deferred :=
  let! targetSet := targetSetFor obj eventName in
  let! params := alloc (arguments_object (obj :: eventName :: args)) in
  let! r := iterateSet targetSet
              (fun action (actions : list value) =>
                 ret (VUndefined, actions ++ [action])) [] in
  ret (Deferred params (snd r)).

(** The [for] loop of the closure. *)
Fixpoint replay (actions : list value) (params : value) : M unit :=
  match actions with
  | [] => ret tt
  | action :: rest => do! invokeAction action params in replay rest params
  end.

(** The closure returned by [deferEvent], called: [obj] and the slice for
    the hook are read from [params] as it is then. *)
Definition run_deferred (d : deferred) : M value :=
  let! obj := read (fun h => element h (d_params d) 0) in
  let! rest := read (fun h => tl (arg_list h (d_params d))) in
  do! custom_send obj rest in
  do! replay (d_actions d) (d_params d) in
  ret VUndefined.

(** [function hasListeners(obj, eventName)] *)
Definition hasListeners (obj eventName : value) : M bool :=
  let! targetSet := targetSetFor obj eventName in
  let! found := iterateSet targetSet
                  (fun _ (_ : unit) => ret (VBool true, tt)) tt in
  if fst found then ret true
  else
    let! set := metaPath obj ["listeners"] true in
    do! put_prop set (to_key eventName) VNull in
    ret false.

(** [function listenersFor(obj, eventName)]; a pair is [(target, method)]. *)
Definition listenersFor (obj eventName : value) : M (list (value * value)) :=
  let! targetSet := targetSetFor obj eventName in
  let! r := iterateSet targetSet
              (fun action (acc : list (value * value)) =>
                 let! t := read (fun h => prop h action "target") in
                 let! f := read (fun h => prop h action "method") in
                 ret (VUndefined, acc ++ [(t, f)])) [] in
  ret (snd r).

End Events.

(* ===================================================================== *)
(** ** What a computation adds to the trace *)
(* ===================================================================== *)

Definition returned (e : event) : Prop :=
  exists v, ev_result e = Return v.

(** The discipline of a dispatcher without error isolation: every call but
    the last returned, and when the last one raised, the computation ends
    with that very exception.  The exceptions [own] are those the
    computation may raise by itself, all calls having returned. *)
Definition fail_fast {A} (own : exn -> Prop) (r : outcome A)
    (evs : list event) : Prop :=
  match r with
  | Return _ => Forall returned evs
  | Throw x =>
      (Forall returned evs /\ own x) \/
      exists pre e, evs = pre ++ [e] /\ Forall returned pre /\ ev_result e = Throw x
  end.

(** A computation that keeps that discipline and whose calls all satisfy
    [P]. *)
Definition disciplined {A} (P : event -> Prop) (own : exn -> Prop)
    (c : M A) : Prop :=
  forall m r m', c m = (r, m') ->
    exists evs, trace m' = trace m ++ evs /\ fail_fast own r evs /\ Forall P evs.

(** What the code of [events.js] without its assertion raises by itself. *)
Definition type_error (x : exn) : Prop := x = TypeError.


(* ===================================================================== *)
(** ** events.js: the watched events *)
(* ===================================================================== *)

(** The [for (eventName in listeners)] loop of [watchedEvents]; [ret_] is
    the array the loop pushes to. *)
Fixpoint watched_loop (listeners : value) (eventNames : list string)
    (ret_ : list string) : M (list string) :=
  match eventNames with
  | [] => ret ret_
  | eventName :: rest =>
      if negb (SKIP_PROPERTIES eventName) then
        let! targetSet := read (fun h => prop h listeners eventName) in
        if truthy targetSet then watched_loop listeners rest (ret_ ++ [eventName])
        else watched_loop listeners rest ret_
      else watched_loop listeners rest ret_
  end.

(** [function watchedEvents(obj)] *)
Definition watchedEvents (obj : value) : M (list string) :=
  let! listeners := meta_get obj "listeners" in
  if truthy listeners then
    let! eventNames := read (fun h => keys h listeners) in
    watched_loop listeners eventNames []
  else ret [].

(* ===================================================================== *)
(** ** Reading the registry *)
(* ===================================================================== *)

(** [meta(obj, false).listeners] as a function of the heap. *)
Definition listener_set (h : Heap) (obj : value) : value :=
  match obj with
  | VObj o => read_in h (MetaOf o) "listeners"
  | _ => VUndefined
  end.

(** The target set of [(obj, eventName)], [false] when there is none. *)
Definition target_set (h : Heap) (obj eventName : value) : value :=
  let listenerSet := listener_set h obj in
  if truthy listenerSet then
    let targetSet := prop h listenerSet (to_key eventName) in
    if truthy targetSet then targetSet else VBool false
  else VBool false.

(** The truthy values that [v] holds under those of the keys [ks] that are
    not reserved, in the order of the keys. *)
Definition entries_over (h : Heap) (v : value) (ks : list string) : list value :=
  List.filter truthy
    (map (prop h v) (List.filter (fun k => negb (SKIP_PROPERTIES k)) ks)).

Definition entries (h : Heap) (v : value) : list value :=
  entries_over h v (keys h v).

(** The action sets of a target set, and the live actions below it: neither
    tombstones nor what sits under the reserved key. *)
Definition action_sets (h : Heap) (targetSet : value) : list value :=
  entries h targetSet.

Definition live_actions (h : Heap) (targetSet : value) : list value :=
  flat_map (entries h) (action_sets h targetSet).

(** The action records invoked by a stretch of the trace, in order. *)
Definition invoked (evs : list event) : list value :=
  flat_map (fun e => match ev_origin e with
                     | Action a => [a]
                     | _ => []
                     end) evs.

(** Heap locations among values. *)
Definition locs (vs : list value) : list nat :=
  flat_map (fun v => match v with VObj l => [l] | _ => [] end) vs.

(** The cells a fire of [(obj, eventName)] reads to find its actions: the
    object, its listener set, the target set and the action sets. *)
Definition footprint (h : Heap) (obj eventName : value) : list nat :=
  locs (obj :: listener_set h obj :: target_set h obj eventName
          :: action_sets h (target_set h obj eventName)).

(** The cells of the registry of [(obj, eventName)]: the listener set, the
    target set and the action sets, without the cell of the object. *)
Definition registry (h : Heap) (obj eventName : value) : list nat :=
  locs (listener_set h obj :: target_set h obj eventName
          :: action_sets h (target_set h obj eventName)).

(** [h'] has the cells of [h] at the locations [F]. *)
Definition agree (F : list nat) (h h' : Heap) : Prop :=
  forall l, In l F -> h' !! l = h !! l.

(** User code that leaves the cells at [F] alone, whatever it is called
    with. *)
Definition preserves (run : call -> Heap -> outcome value * Heap)
    (F : list nat) : Prop :=
  forall c h, agree F h (snd (run c h)).

(** User code that leaves [obj] with the listener set it has. *)
Definition keeps_listener_set (run : call -> Heap -> outcome value * Heap)
    (obj : value) : Prop :=
  forall c h, listener_set (snd (run c h)) obj = listener_set h obj.

(** The receiver of an invocation: the target of the record, or the first
    element of the arguments object when the record has none. *)
Definition receiver (h : Heap) (a params : value) : value :=
  if negb (truthy (prop h a "target")) then element h params 0
  else prop h a "target".

(** The method of an invocation: a name is looked up on the receiver. *)
Definition resolved_method (h : Heap) (a params : value) : value :=
  if is_string (prop h a "method")
  then prop h (receiver h a params) (to_key (prop h a "method"))
  else prop h a "method".

(** [null] and [undefined], which have no properties. *)
Definition nullish (v : value) : bool :=
  match v with VUndefined | VNull => true | _ => false end.

(** The call into user code that invoking the record [a] with the arguments
    object [params] comes to on the heap [h], if it comes to one.  A
    transform is handed receiver, method and [params] itself.  Without a
    transform, a method that is a function is applied to the receiver with
    the elements that [params] holds at that moment, and a method that is an
    object has its own [apply] called.  There is no call when the name of
    the method cannot be looked up, when the transform is not callable, or
    when the method cannot be applied. *)
Definition planned (h : Heap) (a params : value) : option call :=
  let target := receiver h a params in
  let method := resolved_method h a params in
  if is_string (prop h a "method") && nullish target then None
  else if truthy (prop h a "xform") then
    match prop h a "xform" with
    | VFun g => Some (CallXform g target method params)
    | _ => None
    end
  else
    match method with
    | VFun f => Some (Apply f target (arg_list h params))
    | VObj _ => match prop h method "apply" with
                | VFun g => Some (Apply g method [target; params])
                | _ => None
                end
    | _ => None
    end.

(** An invocation of an action that was made as planned with [params]. *)
Definition well_called (params : value) (e : event) : Prop :=
  forall a, ev_origin e = Action a -> planned (ev_heap e) a params = Some (ev_call e).

(** An invocation of an action that was made with the arguments object
    [params] while it held the list [full]: a transform was handed receiver,
    method and [params]; a method that is a function, of an action without
    transform, was applied to the receiver with [full]. *)
Definition called_with (params : value) (full : list value) (e : event) : Prop :=
  forall a, ev_origin e = Action a ->
    let h := ev_heap e in
    arg_list h params = full /\
    (truthy (prop h a "xform") = true ->
     exists g, prop h a "xform" = VFun g /\
               ev_call e = CallXform g (receiver h a params)
                             (resolved_method h a params) params) /\
    (truthy (prop h a "xform") = false ->
     forall f, resolved_method h a params = VFun f ->
               ev_call e = Apply f (receiver h a params) full).

(** A heap object. *)
Definition is_object (v : value) : bool :=
  match v with VObj _ => true | _ => false end.

(** Whether [v.name(...)], for [name] one of [apply] and [call], finds
    something to call on the heap [h]: a function has the built-in method,
    an object has what it holds under [name], any other value has nothing. *)
Definition callable (h : Heap) (name : string) (v : value) : bool :=
  match v with
  | VFun _ => true
  | VObj _ => is_function (prop h v name)
  | _ => false
  end.

(** How far an enumeration got: [visited] is a prefix of [expected], and all
    of it when the computation returned. *)
Definition progress {A} (r : outcome A) (expected visited : list value) : Prop :=
  exists rest, expected = visited ++ rest /\ (forall a, r = Return a -> rest = []).

(** The hash [v] carries [obj] as its owner. *)
Definition owned (h : Heap) (obj v : value) : Prop :=
  prop h v SOURCE_KEY = obj.

(** The action set of [(obj, eventName, target)] and the entry of
    [(obj, eventName, target, method)] in it, as the registry has them
    ([undefined] when there is none). *)
Definition action_set (h : Heap) (obj eventName target : value) : value :=
  prop h (target_set h obj eventName) (guidFor target).

Definition registered (h : Heap) (obj eventName target method : value) : value :=
  prop h (action_set h obj eventName target) (guidFor method).

(** Along [path] from [c], every entry that is present is a hash owned by
    [obj]: the part of the registry that the path touches is the object's
    own, nothing on it is inherited. *)
Fixpoint own_path (obj : value) (h : Heap) (c : container) (path : list string)
    : bool :=
  match path with
  | [] => true
  | k :: rest =>
      let v := read_in h c k in
      if truthy v then
        match v with
        | VObj l => strict_eq (prop h v SOURCE_KEY) obj
                    && own_path obj h (PropsOf l) rest
        | _ => false
        end
      else true
  end.

(** The path of the action set of [(obj, eventName, target)]. *)
Definition listener_path (eventName target : value) : list string :=
  ["listeners"; to_key eventName; guidFor target].

(** The cell a container lives in, and a container of a cell of the heap. *)
Definition cloc (c : container) : nat :=
  match c with MetaOf o => o | PropsOf l => l end.

Definition cvalid (h : Heap) (c : container) : Prop := cloc c < length h.

(** The heap after the hashes of [path] have been created below [c], one
    inside the other. *)
Fixpoint grow (obj : value) (h : Heap) (c : container) (path : list string)
    : Heap :=
  match path with
  | [] => h
  | k :: rest =>
      grow obj (write_in (h ++ [new_hash obj]) c k (VObj (length h)))
        (PropsOf (length h)) rest
  end.

(** User code that changes nothing and does not raise. *)
Definition quiet (run : call -> Heap -> outcome value * Heap) : Prop :=
  forall c h, exists v, run c h = (Return v, h).

(** The hashes created for [path] sit at [n], [n + 1], ...: each is owned by
    [obj] and holds nothing but the next one, under the next key of the
    path. *)
Fixpoint fresh_chain (obj : value) (h : Heap) (n : nat) (path : list string)
    : Prop :=
  prop h (VObj n) SOURCE_KEY = obj /\
  match path with
  | [] => keys h (VObj n) = [SOURCE_KEY]
  | k :: rest =>
      keys h (VObj n) = [SOURCE_KEY; k] /\
      prop h (VObj n) k = VObj (S n) /\
      fresh_chain obj h (S n) rest
  end.

(** An invocation of an action that was made on a heap with the cells of
    [h0] at [F]. *)
Definition called_on (F : list nat) (h0 : Heap) (e : event) : Prop :=
  forall a, ev_origin e = Action a -> agree F h0 (ev_heap e).

(** User code that does not raise. *)
Definition total (run : call -> Heap -> outcome value * Heap) : Prop :=
  forall c h, exists v, fst (run c h) = Return v.

(** The registry of [(obj, eventName, target)] after [actionSetFor] has made
    sure, on the heap [h], that the action set exists: on [h1] the listener
    set [L1], the target set [T1] and the action set [A1] are there, three
    hashes of [obj]; the action set holds what it held on [h], the target set
    holds what it held and [A1], and what was created holds nothing else. *)
Definition ensured (h h1 : Heap) (o : nat) (eventName target : value)
    (L1 T1 A1 : nat) : Prop :=
  let obj := VObj o in
  (listener_set h1 obj = VObj L1 /\ owned h1 obj (VObj L1)) /\
  (prop h1 (VObj L1) (to_key eventName) = VObj T1 /\ owned h1 obj (VObj T1)) /\
  (prop h1 (VObj T1) (guidFor target) = VObj A1 /\ owned h1 obj (VObj A1)) /\
  (L1 ≠ T1 /\ L1 ≠ A1 /\ T1 ≠ A1) /\
  (forall mg, mg ≠ SOURCE_KEY ->
     prop h1 (VObj A1) mg = prop h (action_set h obj eventName target) mg) /\
  (forall v, In v (entries h1 (VObj T1)) ->
     v = VObj A1 \/ In v (action_sets h (target_set h obj eventName))) /\
  (truthy (target_set h obj eventName) = false ->
     keys h1 (VObj T1) = [SOURCE_KEY; guidFor target]) /\
  (truthy (action_set h obj eventName target) = false ->
     keys h1 (VObj A1) = [SOURCE_KEY]) /\
  length h <= length h1.

(** The action of [(obj, eventName, target, method)] is the record at [a],
    filed in a registry that [obj] owns, and [a] is none of the hashes of
    that registry. *)
Definition settled (h : Heap) (obj eventName target method : value) (a : nat)
    : Prop :=
  owned h obj (listener_set h obj) /\
  owned h obj (target_set h obj eventName) /\
  owned h obj (action_set h obj eventName target) /\
  registered h obj eventName target method = VObj a /\
  is_Some (h !! a) /\
  ~ In (VObj a)
       (listener_set h obj :: target_set h obj eventName
          :: action_sets h (target_set h obj eventName)).

(** The registry of [(obj, eventName)] has one target set [T], with one
    action set [A] under [tg], with one entry [x] under [mg]. *)
Definition lone (h : Heap) (obj eventName : value) (T A : nat)
    (tg mg : string) (x : value) : Prop :=
  target_set h obj eventName = VObj T /\
  keys h (VObj T) = [SOURCE_KEY; tg] /\
  prop h (VObj T) tg = VObj A /\
  keys h (VObj A) = [SOURCE_KEY; mg] /\
  prop h (VObj A) mg = x.

(** The record [addListener] creates. *)
Definition action_record (target method xform : value) : object :=
  Object [("target", target); ("method", method); ("xform", xform)] [].

(** The part of the registry that a registration of
    [(eventName, target, method)] on the object at [o] goes through is a tree
    of hashes owned by the object, and the action registered there, if any,
    is a record apart from those hashes. *)
Definition tidy (h : Heap) (o : nat) (eventName target method : value) : Prop :=
  let obj := VObj o in
  is_Some (h !! o) /\
  to_key eventName ≠ SOURCE_KEY /\
  own_path obj h (MetaOf o) (listener_path eventName target) = true /\
  NoDup (locs [listener_set h obj; target_set h obj eventName;
               action_set h obj eventName target]) /\
  Forall (owned h obj) (action_sets h (target_set h obj eventName)) /\
  (truthy (registered h obj eventName target method) = true ->
   exists a, settled h obj eventName target method a).

(** The registry of the object at [o] has a listener set of its own in
    which [eventName] is cleared. *)
Definition blank (h : Heap) (o : nat) (eventName : value) : Prop :=
  is_Some (h !! o) /\
  exists L, listener_set h (VObj o) = VObj L /\
            owned h (VObj o) (VObj L) /\
            prop h (VObj L) (to_key eventName) = VNull.

(** Whether a list has an element. *)
Definition inhabited {A} (l : list A) : bool :=
  match l with [] => false | _ => true end.

(* ===================================================================== *)
(** ** Reading the registry: folds, pairs and watched events *)
(* ===================================================================== *)

(** A left fold over actions that stops at the first one for which the step
    answers [true], as [iterateSet] does with a callback. *)
Fixpoint scan {S : Type} (f : value -> S -> value * S) (actions : list value)
    (s : S) : bool * S :=
  match actions with
  | [] => (false, s)
  | a :: rest =>
      let rs := f a s in
      if strict_eq (fst rs) (VBool true) then (true, snd rs)
      else scan f rest (snd rs)
  end.

(** The pair that [listenersFor] reports for an action record. *)
Definition pair_of (h : Heap) (action : value) : value * value :=
  (prop h action "target", prop h action "method").

(** The keys of the listener set of [obj] that are not reserved and hold
    something truthy, in the order of the keys. *)
Definition watched (h : Heap) (obj : value) : list string :=
  let listenerSet := listener_set h obj in
  List.filter (fun k => negb (SKIP_PROPERTIES k) && truthy (prop h listenerSet k))
    (keys h listenerSet).

(** The strings in which the letter l does not occur; the decimal numerals
    are among them, and ["length"] is not. *)
Fixpoint without_l (s : string) : bool :=
  match s with
  | EmptyString => true
  | String c s' => negb (Ascii.eqb c (Ascii.ascii_of_nat 108)) && without_l s'
  end.

(* ===================================================================== *)
(** ** Concrete registries *)
(* ===================================================================== *)

(** The machine reached from [m] by running [c]. *)
Definition after {A} (c : M A) (m : machine) : machine := snd (c m).

(** A heap with the namespace object and one plain object [the_obj]. *)
Definition heap0 : Heap := [Object [] []; Object [] []].
Definition the_obj : value := VObj 1.
Definition start : machine := Machine heap0 [].

(** User code that does nothing. *)
Definition quiet_run (c : call) (h : Heap) : outcome value * Heap :=
  (Return VUndefined, h).

(** User code in which function 1 raises and everything else does nothing. *)
Definition raising_run (c : call) (h : Heap) : outcome value * Heap :=
  match c with
  | Apply 1 _ _ => (Throw (Thrown (VStr "boom")), h)
  | _ => (Return VUndefined, h)
  end.

(** [addListener(the_obj, "e", f1)] *)
Definition one_listener : machine :=
  after (addListener quiet_run the_obj (VStr "e") (VFun 1) VUndefined VUndefined)
    start.

(** ... then [addListener(the_obj, "e", f2)] *)
Definition two_listeners : machine :=
  after (addListener quiet_run the_obj (VStr "e") (VFun 2) VUndefined VUndefined)
    one_listener.

(** [addListener(the_obj, "e", f1)] and
    [addListener(the_obj, "e", the_obj, f2, f3)]: one plain listener, one with
    a transform. *)
Definition with_transform : machine :=
  after (addListener quiet_run the_obj (VStr "e") the_obj (VFun 2) (VFun 3))
    one_listener.

(** The scenario of section 8: with [f1] listening, [deferEvent(the_obj,
    "e", 1, 2)] is called.  [captured_e] is what the returned closure holds
    and [after_capture_e] the machine the call leaves; then [f2] is
    registered too, which gives [later_two_listeners], where the closure is
    run. *)
Definition captured_e : deferred :=
  match fst (deferEvent the_obj (VStr "e") [VNum 1; VNum 2] one_listener) with
  | Return d => d
  | Throw _ => Deferred VUndefined []
  end.

Definition after_capture_e : machine :=
  after (deferEvent the_obj (VStr "e") [VNum 1; VNum 2]) one_listener.








(** [addListener(the_obj, "e", the_obj, f2, f3)] and then
    [addListener(the_obj, "e", f1)]: the listener with the transform comes
    first. *)
Definition transform_first : machine :=
  after (addListener quiet_run the_obj (VStr "e") (VFun 1) VUndefined VUndefined)
    (after (addListener quiet_run the_obj (VStr "e") the_obj (VFun 2) (VFun 3))
       start).

(** User code in which the transform [f3] writes [params[2] = 99] and
    everything else does nothing. *)
Definition scribbling_run (c : call) (h : Heap) : outcome value * Heap :=
  match c with
  | CallXform 3 _ _ (VObj p) =>
      (Return VUndefined, write_in h (MetaOf p) "2" (VNum 99))
  | _ => (Return VUndefined, h)
  end.



(** User code in which function 9 asks [hasListeners(the_obj, "e")] and
    everything else does nothing. *)
Definition probing_run (c : call) (h : Heap) : outcome value * Heap :=
  match c with
  | Apply 9 _ _ =>
      let '(_, m) := hasListeners the_obj (VStr "e") (Machine h []) in
      (Return VUndefined, heap m)
  | _ => (Return VUndefined, h)
  end.

(** On [one_listener], [suspendListener(the_obj, "e", f1, undefined, f9)]. *)
Definition suspended : machine :=
  after (suspendListener probing_run the_obj (VStr "e") (VFun 1) VUndefined
           (VFun 9))
    one_listener.

(** [two_listeners] where the object has a [sendEvent] method of its own,
    the function [f7]. *)
Definition hooked : machine :=
  Machine (set_prop (heap two_listeners) the_obj "sendEvent" (VFun 7)) [].

(** An object without listeners that has a [didAddListener] method, the
    function [f8]. *)
Definition notified : machine :=
  Machine (set_prop heap0 the_obj "didAddListener" (VFun 8)) [].

(** User code in which function 8 raises and everything else does nothing. *)
Definition hook_raising_run (c : call) (h : Heap) : outcome value * Heap :=
  match c with
  | Apply 8 _ _ => (Throw (Thrown (VStr "no")), h)
  | _ => (Return VUndefined, h)
  end.
(* ===================================================================== *)
(** ** Association lists *)
(* ===================================================================== *)

Lemma alookup_aset_eq k v ps : alookup k (aset k v ps) = v.
Proof.
  induction ps as [|[k' v'] ps IH]; simpl.
  - by rewrite String.eqb_refl.
  - destruct (String.eqb k k') eqn:E; simpl.
    + by rewrite String.eqb_refl.
    + by rewrite E.
Qed.

Lemma alookup_aset_ne k k' v ps :
  k ≠ k' -> alookup k' (aset k v ps) = alookup k' ps.
Proof.
  intros Hne. induction ps as [|[k0 v0] ps IH]; simpl.
  - destruct (String.eqb k' k) eqn:E; [|done].
    apply String.eqb_eq in E. congruence.
  - destruct (String.eqb k k0) eqn:E; simpl.
    + apply String.eqb_eq in E. subst k0.
      destruct (String.eqb k' k) eqn:E'; [|done].
      apply String.eqb_eq in E'. congruence.
    + by rewrite IH.
Qed.

Lemma alookup_in_keys k ps : alookup k ps ≠ VUndefined -> In k (map fst ps).
Proof.
  induction ps as [|[k' v'] ps IH]; simpl; [done|].
  destruct (String.eqb k k') eqn:E.
  - apply String.eqb_eq in E. auto.
  - auto.
Qed.

Lemma keys_aset_present k v ps :
  In k (map fst ps) -> map fst (aset k v ps) = map fst ps.
Proof.
  induction ps as [|[k' v'] ps IH]; simpl; [done|].
  intros [->|Hin].
  - by rewrite String.eqb_refl.
  - destruct (String.eqb k k') eqn:E; simpl.
    + apply String.eqb_eq in E. by subst.
    + by rewrite IH.
Qed.

Lemma keys_aset_absent k v ps :
  ~ In k (map fst ps) -> map fst (aset k v ps) = map fst ps ++ [k].
Proof.
  induction ps as [|[k' v'] ps IH]; simpl; [done|].
  intros Hnin. destruct (String.eqb k k') eqn:E; simpl.
  - apply String.eqb_eq in E. subst k'. exfalso. apply Hnin. by left.
  - rewrite IH; [done|]. intros Hin. apply Hnin. by right.
Qed.

(* ===================================================================== *)
(** ** The trace discipline of the dispatcher *)
(* ===================================================================== *)

Section Discipline.

Variable P : event -> Prop.
Variable own : exn -> Prop.
Hypothesis own_type_error : own TypeError.

Lemma silent_disciplined {A} (c : M A) :
  (forall m, trace (snd (c m)) = trace m /\
             forall x, fst (c m) = Throw x -> own x) ->
  disciplined P own c.
Proof.
  intros Hc m r m' Hrun. exists []. rewrite app_nil_r.
  destruct (Hc m) as [Ht Hx]. rewrite Hrun in Ht, Hx. simpl in *.
  split; [done|]. split; [|constructor].
  destruct r; simpl; [constructor|left; split; [constructor|by apply Hx]].
Qed.

Lemma disciplined_ret {A} (a : A) : disciplined P own (ret a).
Proof. by apply silent_disciplined. Qed.


Lemma disciplined_throw {A} e : own e -> disciplined P own (@throw A e).
Proof.
  intros He. apply silent_disciplined. intros m. split; [done|].
  by intros x [= <-].
Qed.

Lemma disciplined_type_error {A} : disciplined P own (@throw A TypeError).
Proof. by apply disciplined_throw. Qed.

Lemma disciplined_read {A} (f : Heap -> A) : disciplined P own (read f).
Proof. by apply silent_disciplined. Qed.

Lemma disciplined_write f : disciplined P own (write f).
Proof. by apply silent_disciplined. Qed.

Lemma disciplined_alloc ob : disciplined P own (alloc ob).
Proof. by apply silent_disciplined. Qed.

Lemma disciplined_bind {A B} (c : M A) (k : A -> M B) :
  disciplined P own c -> (forall a, disciplined P own (k a)) -> disciplined P own (bind c k).
Proof.
  intros Hc Hk m r m' Hrun. unfold bind in Hrun.
  destruct (c m) as [[a|e] m1] eqn:Ec.
  - destruct (Hc _ _ _ Ec) as (evs1 & Ht1 & Hf1 & HP1).
    destruct (Hk a _ _ _ Hrun) as (evs2 & Ht2 & Hf2 & HP2).
    exists (evs1 ++ evs2). split; [by rewrite Ht2, Ht1, app_assoc|].
    split; [|by apply Forall_app].
    simpl in Hf1. destruct r as [b|x]; simpl in *.
    + by apply Forall_app.
    + destruct Hf2 as [Hall|(pre & e & -> & Hpre & He)].
      * left. destruct Hall. split; [by apply Forall_app|done].
      * right. exists (evs1 ++ pre), e. rewrite app_assoc.
        split; [done|]. split; [by apply Forall_app|done].
  - injection Hrun as <- <-.
    destruct (Hc _ _ _ Ec) as (evs1 & Ht1 & Hf1 & HP1). by exists evs1.
Qed.

Lemma disciplined_get_prop v k : disciplined P own (get_prop v k).
Proof.
  destruct v; simpl; auto using disciplined_type_error, disciplined_read.
Qed.

Lemma disciplined_put_prop v k x : disciplined P own (put_prop v k x).
Proof.
  destruct v; simpl; auto using disciplined_type_error, disciplined_write.
Qed.

Lemma disciplined_invoke run org c :
  (forall h r, P (Event org c h r)) -> disciplined P own (invoke run org c).
Proof.
  intros HP m r m' Hrun. unfold invoke in Hrun.
  destruct (run c (heap m)) as [r0 h'] eqn:E. injection Hrun as <- <-.
  exists [Event org c (heap m) r0]. split; [done|].
  split; [|by constructor].
  destruct r0 as [v|x]; simpl.
  - constructor; [by exists v|constructor].
  - right. exists [], (Event org c (heap m) (Throw x)). by repeat split.
Qed.

Hypothesis hooks_ok : forall c h r, P (Event Hook c h r).

Lemma disciplined_call_hook run obj name args :
  disciplined P own (call_hook run obj name args).
Proof.
  unfold call_hook. apply disciplined_bind; [apply disciplined_get_prop|].
  intros hook. destruct (is_function hook); [|apply disciplined_ret].
  apply disciplined_bind; [|intros _; apply disciplined_ret].
  unfold apply_fn. destruct hook; try apply disciplined_type_error.
  by apply disciplined_invoke.
Qed.

Lemma disciplined_custom_send run obj rest :
  disciplined P own (custom_send run obj rest).
Proof.
  unfold custom_send.
  destruct (negb _); [apply disciplined_call_hook|apply disciplined_ret].
Qed.

Lemma disciplined_meta_get obj k : disciplined P own (meta_get obj k).
Proof.
  destruct obj; simpl;
    auto using disciplined_type_error, disciplined_read, disciplined_ret.
Qed.

Lemma disciplined_targetSetFor obj eventName :
  disciplined P own (targetSetFor obj eventName).
Proof.
  unfold targetSetFor. apply disciplined_bind; [apply disciplined_meta_get|].
  intros ls. destruct (negb _); [apply disciplined_ret|].
  apply disciplined_bind; [apply disciplined_read|]. intros ts.
  apply disciplined_ret.
Qed.

Lemma disciplined_iterate_actions {S} (callback : value -> S -> M (value * S))
    actionSet methodGuids s :
  (forall a s', disciplined P own (callback a s')) ->
  disciplined P own (iterate_actions callback actionSet methodGuids s).
Proof.
  intros Hcb. revert s.
  induction methodGuids as [|k ks IH]; intros s; simpl; [apply disciplined_ret|].
  destruct (SKIP_PROPERTIES k); [apply IH|].
  apply disciplined_bind; [apply disciplined_read|]. intros action.
  destruct (truthy action); [|apply IH].
  apply disciplined_bind; [apply Hcb|]. intros rs.
  destruct (strict_eq _ _); [apply disciplined_ret|apply IH].
Qed.

Lemma disciplined_iterate_targets {S} (callback : value -> S -> M (value * S))
    targetSet targetGuids s :
  (forall a s', disciplined P own (callback a s')) ->
  disciplined P own (iterate_targets callback targetSet targetGuids s).
Proof.
  intros Hcb. revert s.
  induction targetGuids as [|k ks IH]; intros s; simpl; [apply disciplined_ret|].
  destruct (SKIP_PROPERTIES k); [apply IH|].
  apply disciplined_bind; [apply disciplined_read|]. intros actionSet.
  destruct (truthy actionSet); [|apply IH].
  apply disciplined_bind; [apply disciplined_read|]. intros ks'.
  apply disciplined_bind; [by apply disciplined_iterate_actions|]. intros bs.
  destruct (fst bs); [apply disciplined_ret|apply IH].
Qed.

Lemma disciplined_iterateSet {S} targetSet
    (callback : value -> S -> M (value * S)) s :
  (forall a s', disciplined P own (callback a s')) ->
  disciplined P own (iterateSet targetSet callback s).
Proof.
  intros Hcb. unfold iterateSet. destruct (negb _); [apply disciplined_ret|].
  apply disciplined_bind; [apply disciplined_read|]. intros ks.
  by apply disciplined_iterate_targets.
Qed.

Lemma disciplined_metaPath_from obj writable c path last :
  disciplined P own (metaPath_from obj writable c path last).
Proof.
  revert c last. induction path as [|k rest IH]; intros c last; simpl.
  { apply disciplined_ret. }
  apply disciplined_bind; [apply disciplined_read|]. intros v.
  destruct (negb (truthy v)).
  - destruct (negb writable); [apply disciplined_ret|].
    apply disciplined_bind; [apply disciplined_alloc|]. intros fresh.
    apply disciplined_bind; [apply disciplined_write|]. intros _.
    destruct fresh; auto using disciplined_ret.
  - apply disciplined_bind; [apply disciplined_read|]. intros owner.
    destruct v;
      try (destruct (negb writable);
           [apply disciplined_ret|apply disciplined_type_error]).
    destruct (strict_eq owner obj); [apply IH|].
    destruct (negb writable); [apply disciplined_ret|].
    apply disciplined_bind; [apply disciplined_read|]. intros inherited.
    apply disciplined_bind; [apply disciplined_alloc|]. intros fresh.
    apply disciplined_bind; [apply disciplined_write|]. intros _.
    destruct fresh; auto using disciplined_ret.
Qed.

Lemma disciplined_metaPath obj path writable :
  disciplined P own (metaPath obj path writable).
Proof.
  unfold metaPath.
  destruct obj; try apply disciplined_type_error;
    try (destruct writable; [apply disciplined_type_error|apply disciplined_ret]).
  apply disciplined_bind; [apply disciplined_read|]. intros present.
  destruct present; [apply disciplined_metaPath_from|].
  destruct writable; [apply disciplined_type_error|apply disciplined_ret].
Qed.

Lemma disciplined_removeListener run obj eventName target method :
  disciplined P own (removeListener run obj eventName target method).
Proof.
  unfold removeListener, actionSetFor.
  apply disciplined_bind; [apply disciplined_metaPath|]. intros actionSet.
  apply disciplined_bind.
  - destruct (truthy actionSet); [|apply disciplined_ret].
    apply disciplined_bind; [apply disciplined_get_prop|]. intros existing.
    destruct (truthy existing); [apply disciplined_put_prop|apply disciplined_ret].
  - intros _. destruct (truthy obj); [apply disciplined_call_hook|apply disciplined_ret].
Qed.

End Discipline.

Lemma fail_fast_split {A} own (r : outcome A) evs pre e post x :
  fail_fast own r evs -> evs = pre ++ e :: post -> ev_result e = Throw x ->
  post = [] /\ r = Throw x.
Proof.
  intros Hf -> He.
  assert (Hnot : ~ returned e) by (intros [v Hv]; congruence).
  assert (Hall : ~ Forall returned (pre ++ e :: post)).
  { intros Hall. apply Forall_app in Hall as [_ Hall].
    apply Forall_cons in Hall as [? _]. done. }
  destruct r as [a|y]; simpl in Hf; [done|].
  destruct Hf as [[? _]|(pre' & e' & Heq & Hpre & He')]; [done|].
  destruct post as [|p post] using rev_ind.
  - apply app_inj_tail in Heq as [_ <-]. split; [done|]. congruence.
  - clear IHpost. exfalso.
    rewrite app_comm_cons, app_assoc in Heq.
    apply app_inj_tail in Heq as [<- _].
    apply Forall_app in Hpre as [_ Hpre].
    apply Forall_cons in Hpre as [? _]. done.
Qed.

(* ===================================================================== *)
(** ** Reading through an unchanged footprint *)
(* ===================================================================== *)

Lemma agree_refl F h : agree F h h.
Proof. by intros l _. Qed.

Lemma agree_run run F h0 h c :
  preserves run F -> agree F h0 h -> agree F h0 (snd (run c h)).
Proof. intros Hp Ha l Hl. rewrite (Hp c h l Hl). by apply Ha. Qed.

Lemma agree_incl F G h h' : incl G F -> agree F h h' -> agree G h h'.
Proof. intros Hi Ha l Hl. apply Ha. by apply Hi. Qed.

Lemma prop_agree F h h' v k :
  agree F h h' -> incl (locs [v]) F -> prop h' v k = prop h v k.
Proof.
  intros Ha Hi. destruct v; simpl; try done.
  rewrite Ha; [done|]. apply Hi. simpl. by left.
Qed.

Lemma keys_agree F h h' v :
  agree F h h' -> incl (locs [v]) F -> keys h' v = keys h v.
Proof.
  intros Ha Hi. destruct v; simpl; try done.
  rewrite Ha; [done|]. apply Hi. simpl. by left.
Qed.

Lemma locs_app vs ws : locs (vs ++ ws) = locs vs ++ locs ws.
Proof. unfold locs. by rewrite flat_map_app. Qed.

Lemma locs_cons v vs : locs (v :: vs) = locs [v] ++ locs vs.
Proof. apply (locs_app [v] vs). Qed.

Lemma locs_incl vs ws : incl vs ws -> incl (locs vs) (locs ws).
Proof.
  intros Hi l Hl. unfold locs in *. apply in_flat_map in Hl as (v & Hv & Hl).
  apply in_flat_map. exists v. auto.
Qed.

Lemma locs_incl_in v vs : In v vs -> incl (locs [v]) (locs vs).
Proof.
  intros Hin l Hl. unfold locs in *. apply in_flat_map. exists v.
  split; [done|]. simpl in Hl. by rewrite app_nil_r in Hl.
Qed.

Lemma entries_over_cons h v k ks :
  entries_over h v (k :: ks) =
  if SKIP_PROPERTIES k then entries_over h v ks
  else if truthy (prop h v k) then prop h v k :: entries_over h v ks
       else entries_over h v ks.
Proof.
  unfold entries_over. simpl. destruct (SKIP_PROPERTIES k); simpl; [done|].
  by destruct (truthy (prop h v k)).
Qed.

Lemma invoked_app evs1 evs2 : invoked (evs1 ++ evs2) = invoked evs1 ++ invoked evs2.
Proof. unfold invoked. by rewrite flat_map_app. Qed.

(* ===================================================================== *)
(** ** One invocation *)
(* ===================================================================== *)

Lemma get_prop_inv v k m r m' :
  get_prop v k m = (r, m') ->
  m' = m /\ (r = Return (prop (heap m) v k) \/ r = Throw TypeError).
Proof.
  destruct v; simpl; unfold throw, read; intros [= <- <-]; auto.
Qed.

(** What [invoke] does, spelled out. *)
Lemma invoke_inv run org c m r m' :
  invoke run org c m = (r, m') ->
  r = fst (run c (heap m)) /\
  m' = Machine (snd (run c (heap m))) (trace m ++ [Event org c (heap m) r]).
Proof.
  unfold invoke. destruct (run c (heap m)) as [r0 h']. by intros [= <- <-].
Qed.

(** An invocation either enters user code exactly once, with the call
    planned for the heap it starts on, or fails on the spot with a
    [TypeError] because there is nothing to call. *)
Lemma invokeAction_planned run a params m :
  invokeAction run a params m
  = match planned (heap m) a params with
    | Some c =>
        (match fst (run c (heap m)) with
         | Return _ => Return VUndefined
         | Throw x => Throw x
         end,
         Machine (snd (run c (heap m)))
           (trace m ++ [Event (Action a) c (heap m) (fst (run c (heap m)))]))
    | None => (Throw TypeError, m)
    end.
Proof.
  destruct m as [h tr].
  unfold invokeAction, planned, resolved_method, receiver.
  unfold bind at 1 2 3 4, read. cbn beta iota. cbn [heap trace].
  set (method := prop h a "method").
  set (target0 := prop h a "target").
  set (xform := prop h a "xform").
  set (target := if negb (truthy target0) then element h params 0 else target0).
  unfold bind at 1.
  destruct (is_string method) eqn:Es; cbn [andb].
  - unfold get_prop.
    destruct (nullish target) eqn:En.
    { by destruct target. }
    assert (Eg : match target with
                 | VUndefined | VNull => throw TypeError
                 | _ => read (fun h0 => prop h0 target (to_key method))
                 end (Machine h tr)
                 = (Return (prop h target (to_key method)), Machine h tr))
      by (by destruct target).
    rewrite Eg. clear Eg. cbn beta iota.
    destruct (truthy xform) eqn:Ex.
    + destruct xform; try done.
      unfold bind, invoke, ret. cbn [heap trace].
      by destruct (run _ h) as [[v|x] h'].
    + unfold method_apply.
      destruct (prop h target (to_key method)) eqn:Em; try done.
      * unfold bind at 1 2, read, apply_fn. cbn beta iota. cbn [heap].
        destruct (prop h (VObj l) "apply"); try done.
        unfold bind, invoke, ret. cbn [heap trace].
        by destruct (run _ h) as [[v|x] h'].
      * unfold bind, read, invoke, ret. cbn [heap trace].
        by destruct (run _ h) as [[v|x] h'].
  - unfold ret at 1. cbn beta iota.
    destruct (truthy xform) eqn:Ex.
    + destruct xform; try done.
      unfold bind, invoke, ret. cbn [heap trace].
      by destruct (run _ h) as [[v|x] h'].
    + unfold method_apply.
      destruct method eqn:Em; try done.
      * unfold bind at 1 2, read, apply_fn. cbn beta iota. cbn [heap].
        destruct (prop h (VObj l) "apply"); try done.
        unfold bind, invoke, ret. cbn [heap trace].
        by destruct (run _ h) as [[v|x] h'].
      * unfold bind, read, invoke, ret. cbn [heap trace].
        by destruct (run _ h) as [[v|x] h'].
Qed.

Lemma invokeAction_inv run a params m r m' :
  invokeAction run a params m = (r, m') ->
  (exists c res,
      res = fst (run c (heap m)) /\
      m' = Machine (snd (run c (heap m)))
             (trace m ++ [Event (Action a) c (heap m) res]) /\
      planned (heap m) a params = Some c /\
      r = match res with Return _ => Return VUndefined | Throw x => Throw x end)
  \/ (m' = m /\ r = Throw TypeError /\ planned (heap m) a params = None).
Proof.
  rewrite invokeAction_planned.
  destruct (planned (heap m) a params) as [c|]; intros [= <- <-].
  - left. by eexists _, _.
  - by right.
Qed.

Lemma disciplined_invokeAction run a params :
  disciplined (well_called params) type_error (invokeAction run a params).
Proof.
  intros m r m' H.
  apply invokeAction_inv in H as [(c & res & Hres & -> & Hpl & ->)|(-> & -> & _)].
  - eexists [_]. split; [done|]. split.
    + destruct res as [v|x]; simpl.
      * constructor; [by exists v|constructor].
      * right. eexists [], _. by repeat split.
    + constructor; [|constructor]. by intros a' [= <-].
  - exists []. rewrite app_nil_r. split; [done|]. split; [|constructor].
    left. split; [constructor|done].
Qed.

Lemma disciplined_weaken {A} (P Q : event -> Prop) own (c : M A) :
  (forall e, P e -> Q e) -> disciplined P own c -> disciplined Q own c.
Proof.
  intros HPQ Hc m r m' H. destruct (Hc m r m' H) as (evs & Ht & Hf & HP).
  exists evs. split; [done|]. split; [done|].
  eapply Forall_impl; [exact HP|]. done.
Qed.

Lemma disciplined_sendEvent run obj eventName args :
  disciplined (fun _ => True) type_error (sendEvent run obj eventName args).
Proof.
  unfold sendEvent.
  apply disciplined_bind; [by apply disciplined_custom_send|]. intros _.
  apply disciplined_bind; [by apply disciplined_targetSetFor|]. intros ts.
  apply disciplined_bind; [apply disciplined_alloc|]. intros p.
  apply disciplined_bind; [|intros _; apply disciplined_ret].
  apply disciplined_iterateSet. intros a s'.
  apply disciplined_bind; [|intros r; apply disciplined_ret].
  apply (disciplined_weaken (well_called p)); [done|].
  apply disciplined_invokeAction.
Qed.

(* ===================================================================== *)
(** ** The loops of [iterateSet] when the callback is [invokeAction] *)
(* ===================================================================== *)

Section SendLoops.

Variable run : call -> Heap -> outcome value * Heap.
Variable F : list nat.
Variable h0 : Heap.
Variable params : value.
Hypothesis Hrun : preserves run F.

Let send_callback : value -> unit -> M (value * unit) :=
  fun action _ => let! r := invokeAction run action params in ret (r, tt).

Lemma send_callback_inv a m r m' :
  send_callback a tt m = (r, m') ->
  agree F h0 (heap m) ->
  agree F h0 (heap m') /\
  ((exists e, trace m' = trace m ++ [e] /\ ev_origin e = Action a /\
              (well_called params e /\ called_on F h0 e) /\
              (r = Return (VUndefined, tt) \/ exists x, r = Throw x)) \/
   (m' = m /\ r = Throw TypeError)).
Proof.
  unfold send_callback, bind. intros H Ha.
  destruct (invokeAction run a params m) as [[v|x] m1] eqn:Ei;
    injection H as <- <-;
    apply invokeAction_inv in Ei as [(c & res & Hres & -> & Hp & Hr)|(-> & ? & _)];
    try done.
  - destruct res as [w|y]; [|done]. injection Hr as ->.
    split; [by apply agree_run|]. left. eexists. split; [done|].
    split; [done|]. split; [|by left].
    split; [by intros a' [= <-]|by intros a' _].
  - split; [by apply agree_run|]. left. eexists. split; [done|].
    split; [done|]. split; [|right; by eexists].
    split; [by intros a' [= <-]|by intros a' _].
  - split; [done|]. right. split; [done|congruence].
Qed.

Lemma progress_nil {A} (r : outcome A) rest :
  (forall a, r <> Return a) -> progress r rest [].
Proof. intros Hr. exists rest. split; [done|]. intros a Ha. by destruct (Hr a). Qed.

Lemma progress_done {A} (r : outcome A) done : progress r done done.
Proof. exists []. by rewrite app_nil_r. Qed.

Lemma progress_change {A B} (r : outcome A) (r' : outcome B) expected done :
  progress r expected done ->
  (forall b, r' = Return b -> exists a, r = Return a) ->
  progress r' expected done.
Proof.
  intros (rest & -> & Hnil) Hr. exists rest. split; [done|].
  intros b Hb. destruct (Hr b Hb) as [a Ha]. by apply (Hnil a).
Qed.

Lemma progress_cons {A} (r : outcome A) a expected done :
  progress r expected done -> progress r (a :: expected) (a :: done).
Proof. intros (rest & -> & Hr). by exists rest. Qed.

Lemma progress_app {A} (r : outcome A) pre expected done :
  progress r expected done -> progress r (pre ++ expected) (pre ++ done).
Proof. intros (rest & -> & Hr). exists rest. by rewrite app_assoc. Qed.

Lemma progress_more {A B} (r : outcome A) (r' : outcome B) expected done more :
  progress r expected done -> (forall a, r' <> Return a) ->
  progress r' (expected ++ more) done.
Proof.
  intros (rest & -> & _) Hr. exists (rest ++ more).
  split; [by rewrite app_assoc|]. intros a Ha. by destruct (Hr a).
Qed.

Lemma iterate_actions_send A ks : forall m r m',
  incl (locs [A]) F ->
  agree F h0 (heap m) ->
  iterate_actions send_callback A ks tt m = (r, m') ->
  agree F h0 (heap m') /\ (forall bs, r = Return bs -> bs = (false, tt)) /\
  exists evs, trace m' = trace m ++ evs /\
              progress r (entries_over h0 A ks) (invoked evs) /\
              Forall (fun e => well_called params e /\ called_on F h0 e) evs.
Proof.
  induction ks as [|k ks IH]; intros m r m' HA Ha H; simpl in H.
  - injection H as <- <-. split; [done|]. split; [by intros bs [= <-]|].
    exists []. rewrite app_nil_r. split; [done|]. split; [|done].
    apply progress_done.
  - rewrite entries_over_cons.
    destruct (SKIP_PROPERTIES k) eqn:Ek; [by eapply IH|].
    unfold bind at 1, read in H. simpl in H.
    rewrite (prop_agree F h0 (heap m)) in H by done.
    destruct (truthy (prop h0 A k)) eqn:Et; [|by eapply IH].
    unfold bind at 1 in H.
    destruct (send_callback (prop h0 A k) tt m) as [rs m1] eqn:Ecb.
    destruct (send_callback_inv _ _ _ _ Ecb Ha)
      as (Ha1 & [(e & Ht & Ho & Hp & [->|[x ->]])|[-> ->]]).
    + simpl in H.
      destruct (IH _ _ _ HA Ha1 H) as (Ha' & Hbs & evs & Ht' & Hi & Hps).
      split; [done|]. split; [done|].
      exists (e :: evs). split; [by rewrite Ht', Ht, <- app_assoc|].
      split; [|by constructor].
      unfold invoked. simpl. rewrite Ho. simpl. by apply progress_cons.
    + injection H as <- <-. split; [done|]. split; [done|].
      exists [e]. split; [done|]. split; [|by constructor].
      unfold invoked. simpl. rewrite Ho. simpl.
      apply progress_cons, progress_nil. done.
    + injection H as <- <-. split; [done|]. split; [done|].
      exists []. rewrite app_nil_r. split; [done|]. split; [|done].
      by apply progress_nil.
Qed.

Lemma iterate_targets_send ts ks : forall m r m',
  incl (locs (ts :: entries_over h0 ts ks)) F ->
  agree F h0 (heap m) ->
  iterate_targets send_callback ts ks tt m = (r, m') ->
  agree F h0 (heap m') /\
  exists evs, trace m' = trace m ++ evs /\
              progress r (flat_map (entries h0) (entries_over h0 ts ks))
                (invoked evs) /\
              Forall (fun e => well_called params e /\ called_on F h0 e) evs.
Proof.
  induction ks as [|k ks IH]; intros m r m' HF Ha H; simpl in H.
  - injection H as <- <-. split; [done|]. exists []. rewrite app_nil_r.
    split; [done|]. split; [|done]. apply progress_done.
  - assert (Hts : incl (locs [ts]) F).
    { intros l Hl. apply HF. rewrite locs_cons. apply in_or_app. by left. }
    rewrite entries_over_cons in *.
    destruct (SKIP_PROPERTIES k) eqn:Ek; [by eapply IH|].
    unfold bind at 1, read in H. simpl in H.
    rewrite (prop_agree F h0 (heap m)) in H by done.
    destruct (truthy (prop h0 ts k)) eqn:Et; [|by eapply IH].
    set (A := prop h0 ts k) in *.
    assert (HA : incl (locs [A]) F).
    { intros l Hl. apply HF. rewrite locs_cons, (locs_cons A).
      apply in_or_app. right. apply in_or_app. by left. }
    unfold bind at 1, read in H. simpl in H.
    rewrite (keys_agree F h0 (heap m)) in H by done.
    unfold bind at 1 in H.
    destruct (iterate_actions send_callback A (keys h0 A) tt m)
      as [r1 m1] eqn:Ei.
    apply iterate_actions_send in Ei as (Ha1 & Hbs & evs1 & Ht1 & Hi1 & Hp1);
      [|done..].
    destruct r1 as [bs1|x].
    + rewrite (Hbs bs1) in H by done. simpl in H.
      assert (HF' : incl (locs (ts :: entries_over h0 ts ks)) F).
      { intros l Hl. apply HF. rewrite locs_cons, (locs_cons A).
        rewrite locs_cons in Hl. apply in_app_or in Hl as [?|?];
          apply in_or_app; [by left|]. right. apply in_or_app. by right. }
      destruct (IH _ _ _ HF' Ha1 H) as (Ha' & evs & Ht' & Hi & Hps).
      split; [done|].
      exists (evs1 ++ evs). split; [by rewrite Ht', Ht1, <- app_assoc|].
      split; [|by apply Forall_app].
      simpl. rewrite invoked_app.
      destruct Hi1 as (rest1 & Hrest1 & Hnil). rewrite (Hnil bs1) in Hrest1 by done.
      rewrite app_nil_r in Hrest1. unfold entries at 1. rewrite Hrest1.
      by apply progress_app.
    + injection H as <- <-. split; [done|].
      exists evs1. split; [done|]. split; [|done].
      simpl. eapply progress_more; [apply Hi1|done].
Qed.

Lemma iterate_actions_calls A ks : forall m r m',
  agree F h0 (heap m) ->
  iterate_actions send_callback A ks tt m = (r, m') ->
  agree F h0 (heap m') /\
  exists evs, trace m' = trace m ++ evs /\
              Forall (fun e => well_called params e /\ called_on F h0 e) evs.
Proof.
  induction ks as [|k ks IH]; intros m r m' Ha H; simpl in H.
  - injection H as <- <-. split; [done|]. exists []. by rewrite app_nil_r.
  - destruct (SKIP_PROPERTIES k); [by eapply IH|].
    unfold bind at 1, read in H. simpl in H.
    destruct (truthy (prop (heap m) A k)); [|by eapply IH].
    unfold bind at 1 in H.
    destruct (send_callback (prop (heap m) A k) tt m) as [rs m1] eqn:Ecb.
    destruct (send_callback_inv _ _ _ _ Ecb Ha)
      as (Ha1 & [(e & Ht & Ho & Hp & [->|[x ->]])|[-> ->]]).
    + simpl in H. destruct (IH _ _ _ Ha1 H) as (Ha' & evs & Ht' & Hps).
      split; [done|]. exists (e :: evs).
      split; [by rewrite Ht', Ht, <- app_assoc|by constructor].
    + injection H as <- <-. split; [done|]. exists [e].
      split; [done|by constructor].
    + injection H as <- <-. split; [done|]. exists []. by rewrite app_nil_r.
Qed.

Lemma iterate_targets_calls ts ks : forall m r m',
  agree F h0 (heap m) ->
  iterate_targets send_callback ts ks tt m = (r, m') ->
  agree F h0 (heap m') /\
  exists evs, trace m' = trace m ++ evs /\
              Forall (fun e => well_called params e /\ called_on F h0 e) evs.
Proof.
  induction ks as [|k ks IH]; intros m r m' Ha H; simpl in H.
  - injection H as <- <-. split; [done|]. exists []. by rewrite app_nil_r.
  - destruct (SKIP_PROPERTIES k); [by eapply IH|].
    unfold bind at 1, read in H. simpl in H.
    destruct (truthy (prop (heap m) ts k)); [|by eapply IH].
    unfold bind at 1, read in H. simpl in H. unfold bind at 1 in H.
    destruct (iterate_actions send_callback _ _ tt m) as [r1 m1] eqn:Ei.
    apply iterate_actions_calls in Ei as (Ha1 & evs1 & Ht1 & Hp1); [|done].
    destruct r1 as [[b []]|x].
    + destruct b; simpl in H.
      * injection H as <- <-. split; [done|]. by exists evs1.
      * destruct (IH _ _ _ Ha1 H) as (Ha' & evs & Ht' & Hps).
        split; [done|]. exists (evs1 ++ evs).
        split; [by rewrite Ht', Ht1, <- app_assoc|by apply Forall_app].
    + injection H as <- <-. split; [done|]. by exists evs1.
Qed.

End SendLoops.

(* ===================================================================== *)
(** ** [sendEvent] on an unchanged registry *)
(* ===================================================================== *)

Lemma listener_set_agree F h h' obj :
  agree F h h' -> incl (locs [obj]) F -> listener_set h' obj = listener_set h obj.
Proof.
  intros Ha Hi. destruct obj; simpl; try done.
  rewrite Ha; [done|]. apply Hi. simpl. by left.
Qed.

Lemma target_set_agree F h h' obj ev :
  agree F h h' -> incl (locs [obj; listener_set h obj]) F ->
  target_set h' obj ev = target_set h obj ev.
Proof.
  intros Ha Hi. unfold target_set.
  rewrite (listener_set_agree F h h') by
    (try done; intros l Hl; apply Hi; rewrite locs_cons; apply in_or_app; by left).
  rewrite (prop_agree F h h'); [done..|].
  intros l Hl. apply Hi. rewrite locs_cons. apply in_or_app. by right.
Qed.

Lemma meta_get_inv obj k m r m' :
  meta_get obj k m = (r, m') ->
  m' = m /\
  (r = Throw TypeError \/
   r = Return (match obj with
               | VObj o => read_in (heap m) (MetaOf o) k
               | _ => VUndefined
               end)).
Proof.
  destruct obj; simpl; unfold throw, read, ret; intros [= <- <-]; auto.
Qed.

Lemma targetSetFor_inv obj ev m r m' :
  targetSetFor obj ev m = (r, m') ->
  m' = m /\ (r = Throw TypeError \/ r = Return (target_set (heap m) obj ev)).
Proof.
  unfold targetSetFor, bind at 1. intros H.
  destruct (meta_get obj "listeners" m) as [[ls|x] m1] eqn:Em.
  - apply meta_get_inv in Em as [-> [?|Hls]]; [done|].
    assert (ls = listener_set (heap m) obj) as ->
      by (injection Hls as ->; by destruct obj).
    unfold target_set.
    destruct (truthy (listener_set (heap m) obj)); simpl in H.
    + unfold bind, read, ret in H. injection H as <- <-. auto.
    + unfold ret in H. injection H as <- <-. auto.
  - apply meta_get_inv in Em as [-> [?|?]]; [|done].
    injection H as <- <-. split; [done|]. left. congruence.
Qed.

Lemma call_hook_inv run F h0 obj name args m r m' :
  preserves run F -> agree F h0 (heap m) ->
  call_hook run obj name args m = (r, m') ->
  agree F h0 (heap m') /\
  exists evs, trace m' = trace m ++ evs /\ Forall (fun e => ev_origin e = Hook) evs.
Proof.
  intros Hrun Ha. unfold call_hook, bind at 1. intros H.
  destruct (get_prop obj name m) as [[hook|x] m1] eqn:Eg;
    apply get_prop_inv in Eg as [-> _]; cycle 1.
  { injection H as <- <-. split; [done|]. exists []. by rewrite app_nil_r. }
  destruct (is_function hook); cycle 1.
  { injection H as <- <-. split; [done|]. exists []. by rewrite app_nil_r. }
  unfold bind, apply_fn in H. destruct hook;
    try (injection H as <- <-; split; [done|]; exists []; by rewrite app_nil_r).
  destruct (invoke run Hook _ m) as [[v|x] m1] eqn:Ei;
    apply invoke_inv in Ei as [_ ->]; injection H as <- <-; simpl;
    (split; [by apply agree_run|]; eexists [_]; split; [done|by constructor]).
Qed.

Lemma custom_send_inv run F h0 obj rest m r m' :
  preserves run F -> agree F h0 (heap m) ->
  custom_send run obj rest m = (r, m') ->
  agree F h0 (heap m') /\
  exists evs, trace m' = trace m ++ evs /\ Forall (fun e => ev_origin e = Hook) evs.
Proof.
  intros Hrun Ha. unfold custom_send. destruct (negb _).
  - by apply call_hook_inv.
  - intros [= <- <-]. split; [done|]. exists []. by rewrite app_nil_r.
Qed.

Lemma preserves_nothing run : preserves run [].
Proof. by intros c h l []. Qed.

Lemma call_hook_hooks run obj name args m r m' :
  call_hook run obj name args m = (r, m') ->
  exists evs, trace m' = trace m ++ evs /\
              Forall (fun e => ev_origin e = Hook) evs.
Proof.
  intros H.
  by apply (call_hook_inv run [] (heap m)) in H as [_ ?];
    [|apply preserves_nothing|apply agree_refl].
Qed.

Lemma custom_send_hooks run obj rest m r m' :
  custom_send run obj rest m = (r, m') ->
  exists evs, trace m' = trace m ++ evs /\
              Forall (fun e => ev_origin e = Hook) evs.
Proof.
  intros H.
  by apply (custom_send_inv run [] (heap m)) in H as [_ ?];
    [|apply preserves_nothing|apply agree_refl].
Qed.

Lemma invoked_hooks evs :
  Forall (fun e => ev_origin e = Hook) evs -> invoked evs = [].
Proof.
  induction 1 as [|e evs He _ IH]; [done|].
  unfold invoked in *. simpl. by rewrite He, IH.
Qed.

Lemma entries_not_object h v : keys h v = [] -> entries h v = [].
Proof. unfold entries. by intros ->. Qed.

(** An arguments object is out of the way of every named property. *)
Lemma lookup_blank_cell {A} (f : alist -> A) (h : Heap) me l :
  match (h ++ [Object [] me]) !! l with
  | Some ob => f (props ob)
  | None => f []
  end = match h !! l with Some ob => f (props ob) | None => f [] end.
Proof.
  destruct (decide (l < length h)) as [Hl|Hl].
  - by rewrite lookup_app_l.
  - rewrite (lookup_ge_None_2 h l) by lia.
    destruct (decide (l = length h)) as [->|Hne].
    + by rewrite list_lookup_middle.
    + rewrite lookup_ge_None_2; [done|]. rewrite length_app. simpl. lia.
Qed.

Lemma prop_blank_cell h me v k : prop (h ++ [Object [] me]) v k = prop h v k.
Proof.
  destruct v as [| | | | |l|]; try done.
  apply (lookup_blank_cell (alookup k)).
Qed.

Lemma keys_blank_cell h me v : keys (h ++ [Object [] me]) v = keys h v.
Proof.
  destruct v as [| | | | |l|]; try done.
  apply (lookup_blank_cell (map fst)).
Qed.

Lemma entries_over_blank_cell h me v ks :
  entries_over (h ++ [Object [] me]) v ks = entries_over h v ks.
Proof.
  unfold entries_over. f_equal. apply map_ext. intros k. apply prop_blank_cell.
Qed.

Lemma entries_blank_cell h me v : entries (h ++ [Object [] me]) v = entries h v.
Proof. unfold entries. by rewrite keys_blank_cell, entries_over_blank_cell. Qed.

Lemma live_actions_blank_cell h me ts :
  live_actions (h ++ [Object [] me]) ts = live_actions h ts.
Proof.
  unfold live_actions, action_sets. rewrite entries_blank_cell.
  apply flat_map_ext. intros A. apply entries_blank_cell.
Qed.

Lemma entries_over_agree F h h' v ks :
  agree F h h' -> incl (locs [v]) F -> entries_over h' v ks = entries_over h v ks.
Proof.
  intros Ha Hv. unfold entries_over. f_equal. apply map_ext. intros k.
  by apply (prop_agree F).
Qed.

Lemma entries_read_agree F h h' v :
  agree F h h' -> incl (locs [v]) F -> entries h' v = entries h v.
Proof.
  intros Ha Hv. unfold entries.
  by rewrite (keys_agree F h h'), (entries_over_agree F h h').
Qed.

Lemma live_actions_agree F h h' ts :
  agree F h h' -> incl (locs (ts :: action_sets h ts)) F ->
  live_actions h' ts = live_actions h ts.
Proof.
  intros Ha HF. unfold live_actions, action_sets in *.
  assert (Hts : incl (locs [ts]) F).
  { intros l Hl. apply HF. rewrite locs_cons. apply in_or_app. by left. }
  rewrite (entries_read_agree F h h') by done.
  induction (entries h ts) as [|A As IH] in HF |- *; [done|]. simpl.
  rewrite (entries_read_agree F h h' A); cycle 1; [done| |].
  { intros l Hl. apply HF.
    rewrite locs_cons, (locs_cons A). apply in_or_app. right.
    apply in_or_app. by left. }
  f_equal. apply IH. intros l Hl. apply HF.
  rewrite locs_cons, (locs_cons A). rewrite locs_cons in Hl.
  apply in_app_or in Hl as [?|?]; apply in_or_app; [by left|].
  right. apply in_or_app. by right.
Qed.

Lemma call_hook_keeps run obj' obj name args m r m' :
  keeps_listener_set run obj' ->
  call_hook run obj name args m = (r, m') ->
  listener_set (heap m') obj' = listener_set (heap m) obj'.
Proof.
  intros Hk. unfold call_hook, bind at 1. intros H.
  destruct (get_prop obj name m) as [[hook|x] m1] eqn:Eg;
    apply get_prop_inv in Eg as [-> _]; [|by injection H as <- <-].
  destruct (is_function hook); [|by injection H as <- <-].
  unfold bind, apply_fn in H. destruct hook; try by injection H as <- <-.
  destruct (invoke run Hook _ m) as [[v|x] m1] eqn:Ei;
    apply invoke_inv in Ei as [_ ->]; injection H as <- <-; simpl; apply Hk.
Qed.

Lemma custom_send_keeps run obj' obj rest m r m' :
  keeps_listener_set run obj' ->
  custom_send run obj rest m = (r, m') ->
  listener_set (heap m') obj' = listener_set (heap m) obj'.
Proof.
  intros Hk. unfold custom_send. destruct (negb _).
  - by apply call_hook_keeps.
  - by intros [= <- <-].
Qed.

(** A fire invokes the live actions of the registry it started from, in
    enumeration order, up to the first call that raises; user code has to
    leave the cells of the registry and the listener set of the object as
    they are, and may do to the object what it likes otherwise. *)
Lemma sendEvent_registry run obj ev args m r m' :
  preserves run (registry (heap m) obj ev) ->
  keeps_listener_set run obj ->
  sendEvent run obj ev args m = (r, m') ->
  exists evs,
    trace m' = trace m ++ evs /\
    progress r (live_actions (heap m) (target_set (heap m) obj ev))
      (invoked evs).
Proof.
  intros Hrun Hk. unfold sendEvent, bind at 1. intros H.
  set (F := registry (heap m) obj ev) in *.
  set (h0 := heap m) in *.
  destruct (custom_send run obj (ev :: args) m) as [[u|x] m1] eqn:Ec;
    pose proof (custom_send_keeps _ _ _ _ _ _ _ Hk Ec) as Hls;
    apply (custom_send_inv run F h0) in Ec as (Ha1 & evs1 & Ht1 & Hh1);
    try done; try apply agree_refl; cycle 1.
  { injection H as <- <-.
    exists evs1. split; [done|]. rewrite invoked_hooks by done.
    by apply progress_nil. }
  unfold bind at 1 in H.
  destruct (targetSetFor obj ev m1) as [[ts|x] m2] eqn:Et;
    apply targetSetFor_inv in Et as [-> [Hts|Hts]]; try done; cycle 1.
  { injection H as <- <-. exists evs1. split; [done|].
    rewrite invoked_hooks by done. by apply progress_nil. }
  injection Hts as ->.
  assert (Hts : target_set (heap m1) obj ev = target_set h0 obj ev).
  { unfold target_set. rewrite Hls. fold h0.
    rewrite (prop_agree F h0 (heap m1)); [done..|].
    apply locs_incl. intros v [<-|[]]. simpl. auto. }
  rewrite Hts in H.
  set (ts := target_set h0 obj ev) in *.
  assert (HFts : incl (locs (ts :: action_sets h0 ts)) F).
  { apply locs_incl. intros v [<-|Hv]; simpl; auto. }
  unfold bind at 1, alloc in H. cbn [fst snd heap trace] in H.
  set (cell := arguments_object (obj :: ev :: args)) in *.
  set (ha := heap m1 ++ [cell]) in *.
  assert (Hlive : live_actions ha ts = live_actions h0 ts).
  { unfold ha, cell, arguments_object. rewrite live_actions_blank_cell.
    by apply (live_actions_agree F). }
  assert (Hsets : action_sets ha ts = action_sets h0 ts).
  { unfold ha, cell, arguments_object, action_sets.
    rewrite entries_blank_cell. apply (entries_read_agree F); [done|].
    intros l Hl. apply HFts. rewrite locs_cons. apply in_or_app. by left. }
  unfold bind at 1, iterateSet in H.
  destruct (truthy ts) eqn:Etr; simpl in H.
  - unfold bind at 1, read in H. cbn [fst snd heap trace] in H.
    fold ha in H.
    destruct (iterate_targets _ ts (keys ha ts) tt _) as [r1 m2] eqn:Ei.
    apply (iterate_targets_send run F ha) in Ei
      as (_ & evs & Ht & Hi & Hp); [|done| |apply agree_refl]; cycle 1.
    { fold (entries ha ts). fold (action_sets ha ts). by rewrite Hsets. }
    exists (evs1 ++ evs). rewrite invoked_app, (invoked_hooks evs1) by done.
    simpl. change (progress r1 (live_actions ha ts) (invoked evs)) in Hi.
    rewrite Hlive in Hi. simpl in Ht.
    destruct r1 as [bs|x]; injection H as <- <-;
      (split; [by rewrite Ht, Ht1, <- app_assoc|]);
      (eapply progress_change; [apply Hi|]); [by eexists|done].
  - injection H as <- <-. exists evs1. split; [done|].
    rewrite invoked_hooks by done. unfold live_actions, action_sets.
    rewrite entries_not_object; [|by destruct ts]. apply progress_done.
Qed.

Lemma preserves_incl run F G : incl G F -> preserves run F -> preserves run G.
Proof. intros Hi Hp c h. eapply agree_incl; [done|apply Hp]. Qed.

Lemma preserves_listener_set run F obj :
  preserves run F -> incl (locs [obj]) F -> keeps_listener_set run obj.
Proof. intros Hp Hi c h. by apply (listener_set_agree F). Qed.

Lemma sendEvent_inv run obj ev args m r m' :
  preserves run (footprint (heap m) obj ev) ->
  sendEvent run obj ev args m = (r, m') ->
  exists evs,
    trace m' = trace m ++ evs /\
    progress r (live_actions (heap m) (target_set (heap m) obj ev))
      (invoked evs).
Proof.
  intros Hrun. apply sendEvent_registry.
  - eapply preserves_incl; [|done]. intros l Hl. unfold footprint.
    rewrite locs_cons. apply in_or_app. by right.
  - eapply preserves_listener_set; [done|]. intros l Hl. unfold footprint.
    rewrite locs_cons. apply in_or_app. by left.
Qed.

(* ===================================================================== *)
(** ** Reading an arguments object *)
(* ===================================================================== *)

Lemma pretty_N_go_without_l x s :
  without_l s = true -> without_l (pretty_N_go x s) = true.
Proof.
  revert s. induction (N.lt_wf_0 x) as [x _ IH]; intros s Hs.
  assert (x = 0 \/ 0 < x)%N as [->|?] by lia.
  - by rewrite pretty_N_go_0.
  - rewrite pretty_N_go_step by done. apply IH.
    { by apply N.div_lt. }
    unfold pretty_N_char. by repeat case_match.
Qed.

Lemma index_not_length (i : nat) : String.eqb (pretty i) "length" = false.
Proof.
  apply String.eqb_neq. intros E.
  assert (H : without_l (pretty i) = true).
  { unfold pretty, pretty_nat, pretty, pretty_N.
    destruct (decide _); [done|]. by apply pretty_N_go_without_l. }
  by rewrite E in H.
Qed.

Lemma alookup_elements vs : forall j,
  map (fun i => alookup (pretty i) (elements j vs)) (seq j (length vs)) = vs.
Proof.
  induction vs as [|v vs IH]; intros j; [done|].
  cbn [length seq map elements alookup]. rewrite String.eqb_refl. f_equal.
  rewrite <- (IH (S j)) at 2. apply map_ext_in. intros i Hi.
  apply in_seq in Hi.
  replace (String.eqb (pretty i) (pretty j)) with false; [done|].
  symmetry. apply String.eqb_neq. intros E. apply (inj pretty) in E. lia.
Qed.

(** A new arguments object holds the argument list. *)
Lemma arg_list_fresh h vs :
  arg_list (h ++ [arguments_object vs]) (VObj (length h)) = vs.
Proof.
  unfold arg_list, element, read_in. rewrite list_lookup_middle by done.
  cbn [meta arguments_object alookup]. rewrite String.eqb_refl.
  rewrite Nat2Z.id. rewrite <- (alookup_elements vs 0) at 2.
  apply map_ext. intros i. by rewrite index_not_length.
Qed.

Lemma element_fresh h v vs :
  element (h ++ [arguments_object (v :: vs)]) (VObj (length h)) 0 = v.
Proof.
  unfold element, read_in. rewrite list_lookup_middle by done.
  cbn [meta arguments_object alookup elements].
  by rewrite index_not_length, String.eqb_refl.
Qed.

(** What is read from an arguments object depends on its cell alone. *)
Lemma element_agree F h h' p i :
  agree F h h' -> In p F -> element h' (VObj p) i = element h (VObj p) i.
Proof. intros Ha Hp. unfold element, read_in. by rewrite (Ha p). Qed.

Lemma arg_list_agree F h h' p :
  agree F h h' -> In p F -> arg_list h' (VObj p) = arg_list h (VObj p).
Proof.
  intros Ha Hp. unfold arg_list, element, read_in. by rewrite (Ha p).
Qed.

(** The calls of a fire are made with one arguments object, the cell that
    [sendEvent] adds to the heap after the hook; as long as user code leaves
    that cell alone, it holds the full argument list at every call. *)
Lemma sendEvent_calls run obj ev args m r m' :
  sendEvent run obj ev args m = (r, m') ->
  exists p evs,
    trace m' = trace m ++ evs /\
    Forall (well_called (VObj p)) evs /\
    (preserves run [p] ->
     Forall (fun e => forall a, ev_origin e = Action a ->
                        arg_list (ev_heap e) (VObj p) = obj :: ev :: args) evs).
Proof.
  unfold sendEvent, bind at 1. intros H.
  assert (Hhooks : forall p evs1,
            Forall (fun e => ev_origin e = Hook) evs1 ->
            Forall (well_called (VObj p)) evs1 /\
            Forall (fun e => forall a, ev_origin e = Action a ->
                       arg_list (ev_heap e) (VObj p) = obj :: ev :: args) evs1).
  { intros p evs1 Hh. split; (eapply Forall_impl; [apply Hh|]);
      simpl; intros e He a; by rewrite He. }
  destruct (custom_send run obj (ev :: args) m) as [[u|x] m1] eqn:Ec;
    apply custom_send_hooks in Ec as (evs1 & Ht1 & Hh1); cycle 1.
  { injection H as <- <-. exists 0, evs1. split; [done|].
    destruct (Hhooks 0 evs1 Hh1). by split. }
  unfold bind at 1 in H.
  destruct (targetSetFor obj ev m1) as [[ts|x] m2] eqn:Et;
    apply targetSetFor_inv in Et as [-> _]; cycle 1.
  { injection H as <- <-. exists 0, evs1. split; [done|].
    destruct (Hhooks 0 evs1 Hh1). by split. }
  unfold bind at 1, alloc in H. cbn [fst snd heap trace] in H.
  set (p := length (heap m1)) in *.
  set (ha := heap m1 ++ [arguments_object (obj :: ev :: args)]) in *.
  destruct (Hhooks p evs1 Hh1) as [Hw1 Hc1].
  unfold bind at 1, iterateSet in H.
  destruct (truthy ts) eqn:Etr; simpl in H; cycle 1.
  { injection H as <- <-. exists p, evs1. by repeat split. }
  unfold bind at 1, read in H. cbn [fst snd heap trace] in H.
  destruct (iterate_targets _ ts (keys ha ts) tt _) as [r1 m2] eqn:Ei.
  assert (Hres : trace m' = trace m2).
  { by destruct r1; injection H as <- <-. }
  pose proof Ei as Ei'.
  apply (iterate_targets_calls run [] ha (VObj p)) in Ei
    as (_ & evs & Ht & Hp); [|apply preserves_nothing|apply agree_refl].
  simpl in Ht. exists p, (evs1 ++ evs).
  split; [by rewrite Hres, Ht, Ht1, <- app_assoc|]. split.
  { apply Forall_app. split; [done|]. eapply Forall_impl; [apply Hp|].
    by intros e [? _]. }
  intros Hrun.
  apply (iterate_targets_calls run [p] ha (VObj p)) in Ei'
    as (_ & evs' & Ht' & Hp'); [|done|apply agree_refl].
  simpl in Ht'. rewrite Ht in Ht'. apply app_inv_head in Ht' as <-.
  apply Forall_app. split; [done|]. eapply Forall_impl; [apply Hp'|].
  intros e [_ Hon] a Ha. cbv beta.
  rewrite (arg_list_agree [p] ha (ev_heap e)).
  - apply arg_list_fresh.
  - by apply (Hon a).
  - by left.
Qed.

(* ===================================================================== *)
(** ** The snapshot of [deferEvent] and its replay *)
(* ===================================================================== *)

Lemma iterate_actions_collect A ks : forall acc m,
  iterate_actions (fun action (actions : list value) =>
                     ret (VUndefined, actions ++ [action])) A ks acc m
  = (Return (false, acc ++ entries_over (heap m) A ks), m).
Proof.
  induction ks as [|k ks IH]; intros acc m; simpl.
  - by rewrite app_nil_r.
  - rewrite entries_over_cons.
    destruct (SKIP_PROPERTIES k); [apply IH|].
    unfold bind at 1, read. simpl.
    destruct (truthy (prop (heap m) A k)); [|apply IH].
    unfold bind, ret. simpl. by rewrite IH, <- app_assoc.
Qed.

Lemma iterate_targets_collect ts ks : forall acc m,
  iterate_targets (fun action (actions : list value) =>
                     ret (VUndefined, actions ++ [action])) ts ks acc m
  = (Return (false,
             acc ++ flat_map (entries (heap m)) (entries_over (heap m) ts ks)),
     m).
Proof.
  induction ks as [|k ks IH]; intros acc m; simpl.
  - by rewrite app_nil_r.
  - rewrite entries_over_cons.
    destruct (SKIP_PROPERTIES k); [apply IH|].
    unfold bind at 1, read. simpl.
    destruct (truthy (prop (heap m) ts k)); [|apply IH].
    unfold bind at 1. simpl. unfold bind. rewrite iterate_actions_collect.
    simpl. by rewrite IH, <- app_assoc.
Qed.

Lemma iterateSet_collect ts m :
  iterateSet ts (fun action (actions : list value) =>
                   ret (VUndefined, actions ++ [action])) [] m
  = (Return (false, live_actions (heap m) ts), m).
Proof.
  unfold iterateSet. destruct (truthy ts) eqn:Et; simpl.
  - unfold bind, read. simpl. by rewrite iterate_targets_collect.
  - unfold ret, live_actions, action_sets.
    rewrite entries_not_object; [done|]. by destruct ts.
Qed.

(** [deferEvent] adds the arguments object of its call to the heap, changes
    nothing else, and captures the live actions. *)
Lemma deferEvent_inv obj ev args m r m' :
  deferEvent obj ev args m = (r, m') ->
  (r = Throw TypeError /\ m' = m) \/
  (r = Return (Deferred (VObj (length (heap m)))
                 (live_actions (heap m) (target_set (heap m) obj ev))) /\
   m' = Machine (heap m ++ [arguments_object (obj :: ev :: args)]) (trace m)).
Proof.
  unfold deferEvent, bind at 1. intros H.
  destruct (targetSetFor obj ev m) as [[ts|x] m1] eqn:Et;
    apply targetSetFor_inv in Et as [-> [Hr|Hr]]; try done.
  - injection Hr as ->. unfold bind at 1, alloc in H.
    cbn [fst snd] in H. unfold bind in H. rewrite iterateSet_collect in H.
    injection H as <- <-. right. cbn [heap snd].
    unfold arguments_object. by rewrite live_actions_blank_cell.
  - injection Hr as ->. injection H as <- <-. auto.
Qed.

(** The replay invokes the captured actions in order, stopping at the first
    that raises. *)
Lemma replay_inv run F h0 params actions : forall m r m',
  preserves run F -> agree F h0 (heap m) ->
  replay run actions params m = (r, m') ->
  exists evs,
    trace m' = trace m ++ evs /\
    Forall (well_called params) evs /\
    Forall (called_on F h0) evs /\
    progress r actions (invoked evs).
Proof.
  intros m r m' Hrun. revert m r m'.
  induction actions as [|a actions IH]; intros m r m' Hag H; simpl in H.
  - injection H as <- <-. exists []. rewrite app_nil_r.
    split; [done|]. split; [constructor|]. split; [constructor|].
    apply progress_done.
  - unfold bind at 1 in H.
    destruct (invokeAction run a params m) as [[v|x] m1] eqn:Ei.
    + apply invokeAction_inv in Ei
        as [(c & res & Hres & -> & Hpl & Hr)|(_ & ? & _)]; [|done].
      apply IH in H as (evs & Ht & Hw & Hc & Hprog); [|by apply agree_run].
      simpl in Ht. eexists (_ :: evs).
      split; [by rewrite Ht, <- app_assoc|].
      split; [constructor; [by intros a' [= <-]|done]|].
      split; [constructor; [by intros a' _|done]|].
      unfold invoked in *. simpl. by apply progress_cons.
    + injection H as <- <-.
      apply invokeAction_inv in Ei
        as [(c & res & Hres & -> & Hpl & Hr)|(-> & _ & _)].
      * eexists [_]. split; [done|].
        split; [constructor; [by intros a' [= <-]|constructor]|].
        split; [constructor; [by intros a' _|constructor]|].
        unfold invoked. simpl. by apply progress_cons, progress_nil.
      * exists []. rewrite app_nil_r. split; [done|].
        split; [constructor|]. split; [constructor|]. by apply progress_nil.
Qed.

Lemma run_deferred_inv run F h0 d m r m' :
  preserves run F -> agree F h0 (heap m) ->
  run_deferred run d m = (r, m') ->
  exists evs,
    trace m' = trace m ++ evs /\
    Forall (well_called (d_params d)) evs /\
    Forall (called_on F h0) evs /\
    progress r (d_actions d) (invoked evs).
Proof.
  intros Hrun Hag. unfold run_deferred, bind at 1 2, read. cbn [fst snd].
  unfold bind at 1. intros H.
  destruct (custom_send run _ _ m) as [[u|x] m1] eqn:Ec;
    apply (custom_send_inv run F h0) in Ec as (Hag1 & evs1 & Ht1 & Hh1);
    try done.
  - unfold bind in H.
    destruct (replay run (d_actions d) (d_params d) m1) as [r2 m2] eqn:Er.
    apply (replay_inv run F h0) in Er as (evs & Ht & Hw & Hc & Hprog);
      try done.
    exists (evs1 ++ evs).
    split; [destruct r2; injection H as <- <-; by rewrite Ht, Ht1, <- app_assoc|].
    split.
    { apply Forall_app. split; [|done]. eapply Forall_impl; [apply Hh1|].
      simpl. intros e He a. by rewrite He. }
    split.
    { apply Forall_app. split; [|done]. eapply Forall_impl; [apply Hh1|].
      simpl. intros e He a. by rewrite He. }
    rewrite invoked_app, (invoked_hooks evs1) by done. simpl.
    eapply progress_change; [apply Hprog|].
    intros b Hb. destruct r2; [by eexists|]. by injection H as <- <-.
  - injection H as <- <-. exists evs1. split; [done|].
    split; [eapply Forall_impl; [apply Hh1|];
            simpl; intros e He a; by rewrite He|].
    split; [eapply Forall_impl; [apply Hh1|];
            simpl; intros e He a; by rewrite He|].
    rewrite invoked_hooks by done. by apply progress_nil.
Qed.

(* ===================================================================== *)
(** ** Writing to the heap *)
(* ===================================================================== *)

Lemma lookup_set_prop_ne h l k x l' :
  l' ≠ l -> set_prop h (VObj l) k x !! l' = h !! l'.
Proof.
  intros Hne. unfold set_prop. destruct (h !! l); [|done].
  by rewrite list_lookup_insert_ne.
Qed.

Lemma lookup_set_prop_eq h l k x ob :
  h !! l = Some ob ->
  set_prop h (VObj l) k x !! l = Some (Object (aset k x (props ob)) (meta ob)).
Proof.
  intros Hl. unfold set_prop. rewrite Hl.
  apply list_lookup_insert_eq. by eapply lookup_lt_Some.
Qed.

Lemma length_set_prop h v k x : length (set_prop h v k x) = length h.
Proof.
  destruct v; simpl; try done. destruct (h !! l); [|done].
  by rewrite length_insert.
Qed.

Lemma prop_set_prop_same h l k x :
  is_Some (h !! l) -> prop (set_prop h (VObj l) k x) (VObj l) k = x.
Proof.
  intros [ob Hl]. simpl. fold (set_prop h (VObj l) k x).
  rewrite (lookup_set_prop_eq _ _ _ _ ob) by done. simpl.
  apply alookup_aset_eq.
Qed.

Lemma prop_set_prop_other_key h v k x v' k' :
  k' ≠ k -> prop (set_prop h v k x) v' k' = prop h v' k'.
Proof.
  intros Hne. destruct v'; try done. simpl.
  destruct v; try done. destruct (decide (l = l0)) as [->|Hl].
  - unfold set_prop. destruct (h !! l0) as [ob|] eqn:E; [|by rewrite E].
    rewrite list_lookup_insert_eq by (by eapply lookup_lt_Some). simpl.
    by apply alookup_aset_ne.
  - by rewrite lookup_set_prop_ne.
Qed.

Lemma prop_set_prop_other h v k x v' k' :
  v' ≠ v -> prop (set_prop h v k x) v' k' = prop h v' k'.
Proof.
  intros Hne. destruct v'; try done. simpl.
  destruct v; try done. rewrite lookup_set_prop_ne; [done|congruence].
Qed.

Lemma keys_set_prop_other h v k x v' :
  v' ≠ v -> keys (set_prop h v k x) v' = keys h v'.
Proof.
  intros Hne. destruct v'; try done. simpl.
  destruct v; try done. rewrite lookup_set_prop_ne; [done|congruence].
Qed.

Lemma keys_set_prop_present h v k x v' :
  In k (keys h v) -> keys (set_prop h v k x) v' = keys h v'.
Proof.
  intros Hin. destruct (decide (v' = v)) as [->|Hne];
    [|by apply keys_set_prop_other].
  destruct v; try done. simpl in *.
  destruct (h !! l) as [ob|] eqn:E; [|done].
  rewrite list_lookup_insert_eq by (by eapply lookup_lt_Some). simpl.
  by apply keys_aset_present.
Qed.

Lemma meta_set_prop h v k x o k' :
  read_in (set_prop h v k x) (MetaOf o) k' = read_in h (MetaOf o) k'.
Proof.
  simpl. destruct v; try done. destruct (decide (o = l)) as [->|Hne].
  - unfold set_prop. destruct (h !! l) as [ob|] eqn:E; [|by rewrite E].
    by rewrite list_lookup_insert_eq by (by eapply lookup_lt_Some).
  - by rewrite lookup_set_prop_ne.
Qed.

Lemma listener_set_set_prop h v k x obj :
  listener_set (set_prop h v k x) obj = listener_set h obj.
Proof. destruct obj; try done. apply meta_set_prop. Qed.

Lemma prop_in_keys h v k : prop h v k ≠ VUndefined -> In k (keys h v).
Proof.
  destruct v; simpl; try done. destruct (h !! l); [|done].
  apply alookup_in_keys.
Qed.

Lemma prop_is_object h v k x : prop h v k = x -> x ≠ VUndefined -> exists l, v = VObj l /\ is_Some (h !! l).
Proof.
  intros <- Hx. destruct v; simpl in *; try done.
  exists l. split; [done|]. destruct (h !! l); [by eexists|done].
Qed.

Lemma guidFor_not_reserved v : SKIP_PROPERTIES (guidFor v) = false.
Proof. destruct v as [| |[]| | | |]; reflexivity. Qed.

Lemma guidFor_not_source v : guidFor v ≠ SOURCE_KEY.
Proof.
  intros H. pose proof (guidFor_not_reserved v) as Hs.
  unfold SKIP_PROPERTIES in Hs. rewrite H in Hs. by rewrite String.eqb_refl in Hs.
Qed.

Lemma in_entries h v k :
  In k (keys h v) -> SKIP_PROPERTIES k = false -> truthy (prop h v k) = true ->
  In (prop h v k) (entries h v).
Proof.
  intros Hin Hs Ht. unfold entries, entries_over.
  apply filter_In. split; [|done]. apply in_map. apply filter_In.
  split; [done|]. by rewrite Hs.
Qed.

Lemma entries_inv h v x :
  In x (entries h v) ->
  exists k, In k (keys h v) /\ SKIP_PROPERTIES k = false /\ prop h v k = x /\
            truthy x = true.
Proof.
  unfold entries, entries_over. intros Hin.
  apply filter_In in Hin as [Hin Ht]. apply in_map_iff in Hin as (k & <- & Hk).
  apply filter_In in Hk as [Hk Hs]. exists k. repeat split; try done.
  by destruct (SKIP_PROPERTIES k).
Qed.

#[local] Arguments prop : simpl never.
#[local] Arguments keys : simpl never.
#[local] Arguments set_prop : simpl never.
#[local] Arguments read_in : simpl never.

(* ===================================================================== *)
(** ** Lists without duplicates *)
(* ===================================================================== *)

Lemma flat_map_ext_on {A B} (f g : A -> list B) l :
  (forall x, In x l -> f x = g x) -> flat_map f l = flat_map g l.
Proof.
  induction l as [|z l IH]; simpl; [done|].
  intros H. rewrite H by auto. by rewrite IH by auto.
Qed.

Lemma NoDup_flat_map_part {A B} (f : A -> list B) l x :
  NoDup (flat_map f l) -> In x l -> NoDup (f x).
Proof.
  induction l as [|z l IH]; simpl; [done|].
  intros Hnd [->|Hin]; apply NoDup_app in Hnd as (? & ? & ?); auto.
Qed.

Lemma NoDup_flat_map_disjoint {A B} (f : A -> list B) l x y a :
  NoDup (flat_map f l) -> In x l -> In y l -> x ≠ y ->
  In a (f x) -> In a (f y) -> False.
Proof.
  induction l as [|z l IH]; simpl; [done|].
  intros Hnd Hx Hy Hne Hax Hay.
  apply NoDup_app in Hnd as (Hz & Hdis & Hl).
  destruct Hx as [->|Hx], Hy as [->|Hy]; try done.
  - apply (Hdis a); [by apply list_elem_of_In|].
    apply list_elem_of_In, in_flat_map. eauto.
  - apply (Hdis a); [by apply list_elem_of_In|].
    apply list_elem_of_In, in_flat_map. eauto.
  - eauto.
Qed.

Lemma NoDup_filter_map_inj {A B} (P : B -> bool) (f : A -> B) l x y :
  NoDup (List.filter P (map f l)) -> In x l -> In y l ->
  f x = f y -> P (f x) = true -> x = y.
Proof.
  induction l as [|z l IH]; simpl; [done|].
  intros Hnd Hx Hy Hxy HP.
  assert (Hin : forall w, In w l -> f w = f x -> In (f x) (List.filter P (map f l))).
  { intros w Hw Hfw. apply filter_In. split; [|done].
    rewrite <- Hfw. by apply in_map. }
  destruct Hx as [->|Hx], Hy as [->|Hy]; try done.
  - rewrite HP in Hnd. apply NoDup_cons in Hnd as [Hnin _].
    destruct Hnin. apply list_elem_of_In. by apply (Hin y).
  - rewrite <- Hxy, HP in Hnd. apply NoDup_cons in Hnd as [Hnin _].
    destruct Hnin. apply list_elem_of_In. by apply (Hin x).
  - apply IH; try done. destruct (P (f z)); [|done].
    by apply NoDup_cons in Hnd as [_ ?].
Qed.

(* ===================================================================== *)
(** ** The registry after a tombstone is written *)
(* ===================================================================== *)

Lemma entries_set_prop_other h v k x v' :
  v' ≠ v -> entries (set_prop h v k x) v' = entries h v'.
Proof.
  intros Hne. unfold entries, entries_over.
  rewrite keys_set_prop_other by done. f_equal. apply map_ext.
  intros k'. by apply prop_set_prop_other.
Qed.

Lemma entries_agree F h h' v :
  agree F h h' -> incl (locs [v]) F -> entries h' v = entries h v.
Proof.
  intros Ha Hi. unfold entries, entries_over.
  rewrite (keys_agree F h h') by done. f_equal. apply map_ext.
  intros k. by apply (prop_agree F).
Qed.

(** The registry of [(obj, eventName)] is a function of the cells in its
    footprint. *)
Lemma registry_agree h h' obj ev :
  agree (footprint h obj ev) h h' ->
  target_set h' obj ev = target_set h obj ev /\
  footprint h' obj ev = footprint h obj ev /\
  live_actions h' (target_set h' obj ev) = live_actions h (target_set h obj ev).
Proof.
  intros Ha. set (F := footprint h obj ev) in *.
  assert (Hts : target_set h' obj ev = target_set h obj ev).
  { apply (target_set_agree F); [done|].
    apply locs_incl. intros v [<-|[<-|[]]]; simpl; auto. }
  assert (Has : action_sets h' (target_set h obj ev)
                = action_sets h (target_set h obj ev)).
  { apply (entries_agree F); [done|].
    apply locs_incl. intros v [<-|[]]; simpl; auto. }
  split; [done|]. split.
  - unfold F, footprint. rewrite Hts, Has.
    rewrite (listener_set_agree F h h'); [done..|].
    apply locs_incl. intros v [<-|[]]; simpl; auto.
  - unfold live_actions. rewrite Hts, Has.
    apply flat_map_ext_on. intros A HA. apply (entries_agree F); [done|].
    apply locs_incl. intros v [<-|[]]; simpl; auto.
Qed.

(** Once the entry [mg] of the action set [A] is a tombstone, the action it
    held is not live any more, provided it was registered in one place. *)
Lemma tombstoned_not_live h ts A mg a :
  NoDup (live_actions h ts) ->
  In (VObj A) (action_sets h ts) ->
  prop h (VObj A) mg = a -> truthy a = true -> SKIP_PROPERTIES mg = false ->
  ~ In a (flat_map (entries (set_prop h (VObj A) mg VNull)) (action_sets h ts)).
Proof.
  intros Hnd HA Ha Ht Hs Hin.
  assert (Hk : In mg (keys h (VObj A))).
  { apply prop_in_keys. rewrite Ha. by destruct a. }
  assert (HaA : In a (entries h (VObj A))).
  { rewrite <- Ha. apply in_entries; try done. by rewrite Ha. }
  apply in_flat_map in Hin as (A' & HA' & Hin).
  destruct (decide (A' = VObj A)) as [->|Hne].
  - apply entries_inv in Hin as (k & Hk' & Hs' & Hp & _).
    rewrite keys_set_prop_present in Hk' by done.
    destruct (decide (k = mg)) as [->|Hkne].
    + rewrite prop_set_prop_same in Hp.
      * by rewrite <- Hp in Ht.
      * apply prop_is_object in Ha as (l & [= <-] & ?); [done|by destruct a].
    + rewrite prop_set_prop_other_key in Hp by done.
      apply Hkne.
      apply (NoDup_filter_map_inj truthy (prop h (VObj A))
               (List.filter (fun k => negb (SKIP_PROPERTIES k)) (keys h (VObj A))));
        try (apply filter_In; split; [done|]; by rewrite ?Hs, ?Hs');
        try congruence.
      by apply (NoDup_flat_map_part (entries h) (action_sets h ts)).
  - rewrite entries_set_prop_other in Hin by done.
    by apply (NoDup_flat_map_disjoint (entries h) (action_sets h ts) A' (VObj A) a).
Qed.

(* ===================================================================== *)
(** ** The metadata path of an owned registry *)
(* ===================================================================== *)

Lemma owned_object h o v : owned h (VObj o) v -> exists l, v = VObj l.
Proof.
  unfold owned, prop. destruct v; try done. by exists l.
Qed.

Lemma metaPath_from_enter obj w c k rest last m l :
  read_in (heap m) c k = VObj l -> owned (heap m) obj (VObj l) ->
  metaPath_from obj w c (k :: rest) last m
  = metaPath_from obj w (PropsOf l) rest (VObj l) m.
Proof.
  intros Hr Ho. simpl. unfold bind at 1, read. simpl. rewrite Hr. simpl.
  unfold bind at 1, read. simpl. rewrite Ho. unfold strict_eq.
  by rewrite bool_decide_true.
Qed.

#[local] Arguments metaPath_from : simpl never.
#[local] Arguments metaPath : simpl never.
#[local] Arguments actionSetFor : simpl never.
#[local] Arguments targetSetFor : simpl never.
#[local] Arguments call_hook : simpl never.
#[local] Arguments custom_send : simpl never.
#[local] Arguments iterateSet : simpl never.
#[local] Arguments invokeAction : simpl never.

Lemma target_set_object h obj ev T :
  target_set h obj ev = VObj T ->
  prop h (listener_set h obj) (to_key ev) = VObj T.
Proof.
  unfold target_set. destruct (truthy (listener_set h obj)); [|done].
  by destruct (truthy (prop h (listener_set h obj) (to_key ev))).
Qed.

(** When the three hashes on the way exist and belong to the object, the
    lookup of the action set changes nothing. *)
Lemma actionSetFor_present o ev t w m :
  owned (heap m) (VObj o) (listener_set (heap m) (VObj o)) ->
  owned (heap m) (VObj o) (target_set (heap m) (VObj o) ev) ->
  owned (heap m) (VObj o) (action_set (heap m) (VObj o) ev t) ->
  actionSetFor (VObj o) ev t w m
  = (Return (action_set (heap m) (VObj o) ev t), m).
Proof.
  intros HL HT HA.
  destruct (owned_object _ _ _ HL) as [L EL].
  destruct (owned_object _ _ _ HT) as [T ET].
  destruct (owned_object _ _ _ HA) as [A EA].
  pose proof (target_set_object _ _ _ _ ET) as EpT. rewrite EL in EpT.
  unfold action_set in HA, EA |- *. rewrite ET in HA, EA |- *.
  rewrite EL in HL. rewrite ET in HT. rewrite EA in HA |- *.
  unfold actionSetFor, metaPath, bind at 1, read. cbn beta iota.
  assert (is_Some (heap m !! o)) as [ob Eo].
  { unfold listener_set, read_in in EL. destruct (heap m !! o); [by eexists|done]. }
  rewrite Eo.
  rewrite (metaPath_from_enter _ _ _ _ _ _ _ L) by done.
  rewrite (metaPath_from_enter _ _ _ _ _ _ _ T) by done.
  by rewrite (metaPath_from_enter _ _ _ _ _ _ _ A) by done.
Qed.

Lemma removeListener_registered run o ev target method m t me A :
  normalize target method = (t, me) ->
  actionSetFor (VObj o) ev t true m = (Return (VObj A), m) ->
  truthy (prop (heap m) (VObj A) (guidFor me)) = true ->
  removeListener run (VObj o) ev target method m
  = call_hook run (VObj o) "didRemoveListener" [ev; t; me]
      (Machine (set_prop (heap m) (VObj A) (guidFor me) VNull) (trace m)).
Proof.
  intros Hn Ha Ht. unfold removeListener. rewrite Hn. simpl.
  unfold bind at 1. rewrite Ha. simpl.
  unfold bind at 1 2, read. simpl. rewrite Ht. by simpl.
Qed.

(* ===================================================================== *)
(** ** [removeListener] followed by [sendEvent] *)
(* ===================================================================== *)

Lemma target_set_set_prop h v k x obj ev :
  listener_set h obj ≠ v ->
  target_set (set_prop h v k x) obj ev = target_set h obj ev.
Proof.
  intros Hne. unfold target_set. rewrite listener_set_set_prop.
  by rewrite prop_set_prop_other.
Qed.

Lemma removed_is_never_invoked run o ev target method t me args m r m1 r2 m2 :
  let obj := VObj o in
  let h := heap m in
  normalize target method = (t, me) ->
  owned h obj (listener_set h obj) ->
  owned h obj (target_set h obj ev) ->
  owned h obj (action_set h obj ev t) ->
  truthy (registered h obj ev t me) = true ->
  action_set h obj ev t ≠ listener_set h obj ->
  action_set h obj ev t ≠ target_set h obj ev ->
  NoDup (live_actions h (target_set h obj ev)) ->
  preserves run (footprint h obj ev) ->
  removeListener run obj ev target method m = (r, m1) ->
  sendEvent run obj ev args m1 = (r2, m2) ->
  exists evs,
    trace m2 = trace m1 ++ evs /\
    ~ In (registered h obj ev t me) (invoked evs).
Proof.
  intros obj h. subst obj.
  intros Hn HL HT HA Hreg HneL HneT Hnd Hrun Hrem Hsend.
  destruct (owned_object _ _ _ HA) as [A EA].
  set (ts := target_set h (VObj o) ev) in *.
  set (mg := guidFor me).
  set (h1 := set_prop h (VObj A) mg VNull).
  (* the removal writes the tombstone and calls the hook *)
  rewrite (removeListener_registered run o ev target method m t me A) in Hrem;
    [|done|by rewrite <- EA; apply actionSetFor_present
     |by unfold registered in Hreg; rewrite EA in Hreg].
  (* the registry after the tombstone *)
  assert (Hts1 : target_set h1 (VObj o) ev = ts).
  { apply target_set_set_prop. rewrite <- EA. congruence. }
  assert (Has1 : action_sets h1 ts = action_sets h ts).
  { apply entries_set_prop_other. rewrite <- EA. congruence. }
  assert (HF1 : footprint h1 (VObj o) ev = footprint h (VObj o) ev).
  { unfold footprint. rewrite Hts1, Has1. unfold h1.
    by rewrite listener_set_set_prop. }
  apply (call_hook_inv run (footprint h (VObj o) ev) h1) in Hrem as [Hag _];
    [|done|apply agree_refl].
  rewrite <- HF1 in Hag.
  apply registry_agree in Hag as (Hts2 & HF2 & Hlive2).
  apply sendEvent_inv in Hsend as (evs & Ht & rest & Hlive & _);
    [|by rewrite HF2, HF1].
  exists evs. split; [done|]. intros Hin.
  assert (Hin' : In (registered h (VObj o) ev t me)
                   (live_actions (heap m1) (target_set (heap m1) (VObj o) ev))).
  { rewrite Hlive. apply in_or_app. by left. }
  rewrite Hlive2, Hts1 in Hin'. unfold live_actions in Hin'. rewrite Has1 in Hin'.
  revert Hin'. apply tombstoned_not_live; try done.
  - unfold action_set in EA. fold ts in EA. rewrite <- EA.
    apply in_entries.
    + apply prop_in_keys. by rewrite EA.
    + apply guidFor_not_reserved.
    + by rewrite EA.
  - unfold registered. by rewrite EA.
  - apply guidFor_not_reserved.
Qed.

(* ===================================================================== *)
(** ** Creating hashes *)
(* ===================================================================== *)

Lemma length_write_in h c k x : length (write_in h c k x) = length h.
Proof.
  destruct c; unfold write_in.
  - destruct (h !! o); [|done]. by rewrite length_insert.
  - apply length_set_prop.
Qed.

Lemma read_in_write_in_same h c k x :
  cvalid h c -> read_in (write_in h c k x) c k = x.
Proof.
  unfold cvalid. intros Hv. destruct c as [o|l]; simpl in Hv.
  - unfold read_in, write_in.
    destruct (lookup_lt_is_Some_2 h o Hv) as [ob Eo]. rewrite Eo.
    rewrite list_lookup_insert_eq by done. simpl. apply alookup_aset_eq.
  - unfold read_in, write_in. apply prop_set_prop_same.
    by apply lookup_lt_is_Some_2.
Qed.

Lemma read_in_write_in_other h c k x c' k' :
  c' ≠ c \/ k' ≠ k -> read_in (write_in h c k x) c' k' = read_in h c' k'.
Proof.
  intros Hne. destruct c as [o|l], c' as [o'|l']; unfold read_in, write_in.
  - destruct (decide (o' = o)) as [->|Ho].
    + destruct Hne as [?|Hk]; [done|].
      destruct (h !! o) as [ob|] eqn:Eo; [|by rewrite Eo].
      rewrite list_lookup_insert_eq by (by eapply lookup_lt_Some). simpl.
      by apply alookup_aset_ne.
    + destruct (h !! o) as [ob|] eqn:Eo; [|done].
      by rewrite list_lookup_insert_ne.
  - unfold prop. destruct (decide (l' = o)) as [->|Ho].
    + destruct (h !! o) as [ob|] eqn:Eo; [|by rewrite Eo].
      by rewrite list_lookup_insert_eq by (by eapply lookup_lt_Some).
    + destruct (h !! o) as [ob|] eqn:Eo; [|done].
      by rewrite list_lookup_insert_ne.
  - apply meta_set_prop.
  - destruct (decide (l' = l)) as [->|Hl].
    + destruct Hne as [?|Hk]; [done|]. by apply prop_set_prop_other_key.
    + apply prop_set_prop_other. congruence.
Qed.

Lemma read_in_app h ob c k :
  cvalid h c -> read_in (h ++ [ob]) c k = read_in h c k.
Proof.
  unfold cvalid. intros Hv.
  destruct c as [o|l]; unfold read_in, prop; simpl in Hv;
    by rewrite lookup_app_l.
Qed.

Lemma read_in_app_new h ob k :
  read_in (h ++ [ob]) (PropsOf (length h)) k = alookup k (props ob).
Proof.
  unfold read_in, prop. by rewrite list_lookup_middle.
Qed.

Lemma keys_write_in_meta h o k x v :
  keys (write_in h (MetaOf o) k x) v = keys h v.
Proof.
  unfold write_in, keys. destruct v; try done.
  destruct (h !! o) as [ob|] eqn:Eo; [|done].
  destruct (decide (l = o)) as [->|Hl].
  - rewrite list_lookup_insert_eq by (by eapply lookup_lt_Some). by rewrite Eo.
  - by rewrite list_lookup_insert_ne.
Qed.

Lemma keys_app h ob l :
  l < length h -> keys (h ++ [ob]) (VObj l) = keys h (VObj l).
Proof. intros Hl. unfold keys. by rewrite lookup_app_l. Qed.

Lemma keys_app_new h ob :
  keys (h ++ [ob]) (VObj (length h)) = map fst (props ob).
Proof. unfold keys. by rewrite list_lookup_middle. Qed.

Lemma cvalid_app h ob c : cvalid h c -> cvalid (h ++ [ob]) c.
Proof. unfold cvalid. rewrite length_app. simpl. lia. Qed.

Lemma cvalid_write_in h c k x c' : cvalid h c' -> cvalid (write_in h c k x) c'.
Proof. unfold cvalid. by rewrite length_write_in. Qed.

(** One step of the walk that finds nothing and creates a hash. *)
Lemma metaPath_from_create obj c k rest last h tr :
  truthy (read_in h c k) = false ->
  metaPath_from obj true c (k :: rest) last (Machine h tr)
  = metaPath_from obj true (PropsOf (length h)) rest (VObj (length h))
      (Machine (write_in (h ++ [new_hash obj]) c k (VObj (length h))) tr).
Proof.
  intros Hf. unfold metaPath_from at 1. fold metaPath_from.
  unfold bind at 1, read. simpl. rewrite Hf. simpl.
  unfold bind at 1, alloc. simpl. unfold bind at 1, write. by simpl.
Qed.

(** From a missing entry on, the walk creates every hash of the path. *)
Lemma metaPath_from_grow obj path : forall c k last h tr,
  cvalid h c ->
  truthy (read_in h c k) = false ->
  Forall (fun k' => k' ≠ SOURCE_KEY) path ->
  metaPath_from obj true c (k :: path) last (Machine h tr)
  = (Return (VObj (length h + length path)),
     Machine (grow obj h c (k :: path)) tr).
Proof.
  induction path as [|k2 path IH]; intros c k last h tr Hv Hf Hks.
  - rewrite metaPath_from_create by done. simpl.
    by rewrite Nat.add_0_r.
  - rewrite metaPath_from_create by done.
    apply Forall_cons in Hks as [Hk2 Hks].
    rewrite IH; try done.
    + rewrite length_write_in, length_app. simpl.
      do 3 f_equal. lia.
    + unfold cvalid. rewrite length_write_in, length_app. simpl. lia.
    + rewrite read_in_write_in_other; cycle 1.
      { left. intros <-. unfold cvalid in Hv. simpl in Hv. lia. }
      rewrite read_in_app_new. simpl.
      destruct (String.eqb k2 SOURCE_KEY) eqn:E; [|done].
      by apply String.eqb_eq in E.
Qed.

Lemma write_in_app h ob c k x :
  cvalid h c -> write_in (h ++ [ob]) c k x = write_in h c k x ++ [ob].
Proof.
  unfold cvalid. intros Hv.
  destruct c as [o|l]; simpl in Hv; unfold write_in, set_prop;
    rewrite lookup_app_l by done.
  - destruct (h !! o); [|done]. by rewrite insert_app_l.
  - destruct (h !! l); [|done]. by rewrite insert_app_l.
Qed.

Lemma keys_write_in_other h c k x l :
  c ≠ PropsOf l -> keys (write_in h c k x) (VObj l) = keys h (VObj l).
Proof.
  intros Hne. destruct c as [o|l'].
  - apply keys_write_in_meta.
  - unfold write_in. apply keys_set_prop_other. congruence.
Qed.

(** What [grow] builds. *)
Lemma grow_spec obj rest : forall h c k,
  cvalid h c ->
  Forall (fun k' => k' ≠ SOURCE_KEY) rest ->
  let n := length h in
  let h' := grow obj h c (k :: rest) in
  length h' = n + S (length rest) /\
  read_in h' c k = VObj n /\
  (forall c' k', cvalid h c' -> c' ≠ c \/ k' ≠ k ->
                 read_in h' c' k' = read_in h c' k') /\
  (forall l, l < n ->
             keys h' (VObj l) = keys (write_in h c k (VObj n)) (VObj l)) /\
  fresh_chain obj h' n rest.
Proof.
  induction rest as [|k2 rest IH]; intros h c k Hv Hks n h'.
  - subst h'. simpl. fold n. rewrite write_in_app by done.
    split; [rewrite length_app, length_write_in; simpl; lia|].
    split.
    { rewrite read_in_app by (by apply cvalid_write_in).
      by apply read_in_write_in_same. }
    split.
    { intros c' k' Hv' Hne.
      rewrite read_in_app by (by apply cvalid_write_in).
      by apply read_in_write_in_other. }
    split.
    { intros l Hl. apply keys_app. by rewrite length_write_in. }
    assert (Hn : n = length (write_in h c k (VObj n)))
      by (by rewrite length_write_in).
    split.
    + change (prop ?h (VObj ?a) ?b) with (read_in h (PropsOf a) b).
      rewrite Hn at 2. by rewrite read_in_app_new.
    + rewrite Hn at 2. by rewrite keys_app_new.
  - apply Forall_cons in Hks as [Hk2 Hks].
    set (h1 := write_in (h ++ [new_hash obj]) c k (VObj n)).
    assert (Hh1 : h1 = write_in h c k (VObj n) ++ [new_hash obj])
      by (by apply write_in_app).
    assert (Hlen1 : length h1 = S n).
    { rewrite Hh1, length_app, length_write_in. simpl. lia. }
    assert (Hv1 : cvalid h1 (PropsOf n)) by (unfold cvalid; simpl; lia).
    destruct (IH h1 (PropsOf n) k2 Hv1 Hks) as (Gl & Ge & Gf & Gk & Gc).
    rewrite Hlen1 in Gl, Ge, Gk, Gc.
    change (grow obj h1 (PropsOf n) (k2 :: rest)) with h' in Gl, Ge, Gf, Gk, Gc.
    assert (Hcn : forall c', cvalid h c' -> c' ≠ PropsOf n).
    { intros c' Hc' ->. unfold cvalid in Hc'. simpl in Hc'. lia. }
    assert (Hc1 : forall c', cvalid h c' -> cvalid h1 c').
    { intros c' Hc'. unfold cvalid in *. lia. }
    split; [simpl; lia|].
    split.
    { rewrite Gf by auto. rewrite Hh1.
      rewrite read_in_app by (by apply cvalid_write_in).
      by apply read_in_write_in_same. }
    split.
    { intros c' k' Hv' Hne. rewrite Gf by auto. rewrite Hh1.
      rewrite read_in_app by (by apply cvalid_write_in).
      by apply read_in_write_in_other. }
    split.
    { intros l Hl. rewrite Gk by lia.
      rewrite keys_write_in_other by (intros [= ->]; lia).
      rewrite Hh1. apply keys_app. by rewrite length_write_in. }
    assert (Hsrc : read_in h1 (PropsOf n) SOURCE_KEY = obj).
    { rewrite Hh1.
      replace (PropsOf n) with (PropsOf (length (write_in h c k (VObj n))))
        by (by rewrite length_write_in).
      by rewrite read_in_app_new. }
    simpl. split; [|split; [|split]].
    + change (prop h' (VObj n) SOURCE_KEY) with (read_in h' (PropsOf n) SOURCE_KEY).
      rewrite Gf; [done..|]. right. congruence.
    + rewrite Gk by lia. unfold write_in, set_prop, keys.
      assert (Hl1 : h1 !! n = Some (new_hash obj)).
      { rewrite Hh1. apply list_lookup_middle. by rewrite length_write_in. }
      rewrite Hl1. rewrite list_lookup_insert_eq by lia. simpl.
      destruct (String.eqb k2 SOURCE_KEY) eqn:E; [|done].
      by apply String.eqb_eq in E.
    + done.
    + done.
Qed.

(* ===================================================================== *)
(** ** Registering what is registered already *)
(* ===================================================================== *)

Lemma addListener_existing run o ev target method x m t me a :
  truthy ev = true ->
  normalize target method = (t, me) ->
  owned (heap m) (VObj o) (listener_set (heap m) (VObj o)) ->
  owned (heap m) (VObj o) (target_set (heap m) (VObj o) ev) ->
  owned (heap m) (VObj o) (action_set (heap m) (VObj o) ev t) ->
  registered (heap m) (VObj o) ev t me = VObj a ->
  addListener run (VObj o) ev target method x m
  = call_hook run (VObj o) "didAddListener" [ev; t; me]
      (Machine (set_prop (heap m) (VObj a) "xform" x) (trace m)).
Proof.
  intros Hev Hn HL HT HA Hreg.
  destruct (owned_object _ _ _ HA) as [A EA].
  unfold addListener. rewrite Hn. simpl. rewrite Hev. simpl.
  unfold bind at 1. simpl. unfold bind at 1.
  rewrite actionSetFor_present by done. rewrite EA. simpl.
  unfold registered in Hreg. rewrite EA in Hreg.
  unfold bind at 1 2, read. simpl. rewrite Hreg. by simpl.
Qed.

Lemma registered_is_live h obj ev t me :
  truthy (registered h obj ev t me) = true ->
  truthy (action_set h obj ev t) = true ->
  In (registered h obj ev t me) (live_actions h (target_set h obj ev)).
Proof.
  intros Hr Ha. unfold live_actions. apply in_flat_map.
  exists (action_set h obj ev t). split.
  - apply in_entries; [|apply guidFor_not_reserved|done].
    apply prop_in_keys. fold (action_set h obj ev t).
    by destruct (action_set h obj ev t).
  - apply in_entries; [|apply guidFor_not_reserved|done].
    apply prop_in_keys. fold (registered h obj ev t me).
    by destruct (registered h obj ev t me).
Qed.

(* ===================================================================== *)
(** ** The walk on a registry the object owns *)
(* ===================================================================== *)

Lemma owned_valid h o v l : owned h (VObj o) v -> v = VObj l -> l < length h.
Proof.
  unfold owned, prop. intros H ->.
  destruct (h !! l) eqn:E; [by eapply lookup_lt_Some|done].
Qed.

Lemma metaPath_from_own_total o path : forall c last h tr,
  cvalid h c ->
  Forall (fun k => k ≠ SOURCE_KEY) path ->
  own_path (VObj o) h c path = true ->
  exists v h',
    metaPath_from (VObj o) true c path last (Machine h tr)
    = (Return v, Machine h' tr) /\
    (path ≠ [] -> exists l, v = VObj l /\ l < length h') /\
    length h <= length h'.
Proof.
  induction path as [|k rest IH]; intros c last h tr Hv Hks Hown.
  { exists last, h. by repeat split. }
  apply Forall_cons in Hks as [Hk Hks]. simpl in Hown.
  destruct (truthy (read_in h c k)) eqn:Et.
  - destruct (read_in h c k) as [| | | | |l|] eqn:Er; try done.
    apply andb_prop in Hown as [Ho Hown].
    unfold strict_eq in Ho. apply bool_decide_eq_true in Ho.
    assert (Hl : l < length h) by (by eapply owned_valid).
    rewrite (metaPath_from_enter _ _ _ _ _ _ _ l) by done.
    destruct (IH (PropsOf l) (VObj l) h tr Hl Hks Hown) as (v & h' & E & Hv' & Hle).
    exists v, h'. split; [done|]. split; [|done]. intros _.
    destruct rest as [|k2 rest]; [|by apply Hv'].
    unfold metaPath_from, ret in E. injection E as <- <-. by exists l.
  - rewrite metaPath_from_grow by done.
    destruct (grow_spec (VObj o) rest h c k Hv Hks) as (Gl & _).
    eexists _, _. split; [done|]. split; [|lia].
    intros _. eexists. split; [done|]. lia.
Qed.

Lemma call_hook_returns run o name args m :
  total run ->
  exists m', call_hook run (VObj o) name args m = (Return tt, m').
Proof.
  intros Hrun. unfold call_hook, bind at 1, get_prop, read. simpl.
  destruct (is_function (prop (heap m) (VObj o) name)) eqn:Ef; [|by eexists].
  destruct (prop (heap m) (VObj o) name) eqn:Ep; try done.
  unfold bind, apply_fn, invoke.
  destruct (Hrun (Apply f (VObj o) args) (heap m)) as [v Hv].
  destruct (run (Apply f (VObj o) args) (heap m)) as [r h']. simpl in Hv.
  subst r. by eexists.
Qed.

(** [removeListener] returns, whether or not the pair was registered. *)
Lemma removeListener_returns run o ev target method t me m :
  total run ->
  normalize target method = (t, me) ->
  is_Some (heap m !! o) ->
  to_key ev ≠ SOURCE_KEY ->
  own_path (VObj o) (heap m) (MetaOf o) (listener_path ev t) = true ->
  exists m', removeListener run (VObj o) ev target method m = (Return tt, m').
Proof.
  intros Hrun Hn [ob Eo] Hev Hown. unfold removeListener. rewrite Hn. simpl.
  unfold bind at 1, actionSetFor, metaPath, bind at 1, read. simpl.
  rewrite Eo. destruct m as [h tr]. simpl in *.
  destruct (metaPath_from_own_total o (listener_path ev t) (MetaOf o)
              VUndefined h tr) as (v & h' & E & Hv & _).
  { unfold cvalid. simpl. by eapply lookup_lt_Some. }
  { repeat constructor; try done. apply guidFor_not_source. }
  { done. }
  unfold listener_path in E. rewrite E.
  destruct Hv as (A & -> & HA); [done|]. simpl.
  unfold bind at 1 2, read. simpl.
  destruct (truthy (prop h' (VObj A) (guidFor me))); simpl;
    by apply call_hook_returns.
Qed.

(* ===================================================================== *)
(** ** Making sure the action set exists *)
(* ===================================================================== *)

Lemma prop_falsy h v k : truthy v = false -> prop h v k = VUndefined.
Proof. by destruct v. Qed.

Lemma alookup_not_in_keys k ps : ~ In k (map fst ps) -> alookup k ps = VUndefined.
Proof.
  induction ps as [|[k' v'] ps IH]; simpl; [done|].
  intros Hnin. destruct (String.eqb k k') eqn:E.
  - apply String.eqb_eq in E. subst. destruct Hnin. by left.
  - apply IH. intros Hin. apply Hnin. by right.
Qed.

Lemma prop_not_in_keys h v k : ~ In k (keys h v) -> prop h v k = VUndefined.
Proof.
  unfold prop, keys. destruct v; try done. destruct (h !! l); [|done].
  apply alookup_not_in_keys.
Qed.

Lemma target_set_present h obj ev L T :
  listener_set h obj = VObj L -> prop h (VObj L) (to_key ev) = VObj T ->
  target_set h obj ev = VObj T.
Proof. intros HL HT. unfold target_set. by rewrite HL, HT. Qed.

Lemma target_set_absent h obj ev :
  truthy (listener_set h obj) = false \/
  truthy (prop h (listener_set h obj) (to_key ev)) = false ->
  target_set h obj ev = VBool false.
Proof.
  unfold target_set. intros [->|H]; [done|].
  destruct (truthy (listener_set h obj)); [|done]. by rewrite H.
Qed.

(** The shapes of a registry path that the object owns. *)
Lemma own_path_cases h o ev t :
  own_path (VObj o) h (MetaOf o) (listener_path ev t) = true ->
  truthy (listener_set h (VObj o)) = false \/
  exists L,
    listener_set h (VObj o) = VObj L /\ owned h (VObj o) (VObj L) /\
    (truthy (prop h (VObj L) (to_key ev)) = false \/
     exists T,
       prop h (VObj L) (to_key ev) = VObj T /\ owned h (VObj o) (VObj T) /\
       (truthy (prop h (VObj T) (guidFor t)) = false \/
        exists A,
          prop h (VObj T) (guidFor t) = VObj A /\ owned h (VObj o) (VObj A))).
Proof.
  unfold listener_path, listener_set. cbn [own_path].
  change (read_in h (PropsOf ?l) ?k) with (prop h (VObj l) k).
  destruct (truthy (read_in h (MetaOf o) "listeners")) eqn:E1; [|by left].
  destruct (read_in h (MetaOf o) "listeners") as [| | | | |L|]; try (by intros ?).
  intros H0. right. apply andb_prop in H0 as [HoL H0].
  apply bool_decide_eq_true in HoL. exists L. split; [done|]. split; [done|].
  revert H0.
  destruct (truthy (prop h (VObj L) (to_key ev))) eqn:E2; [|by left].
  destruct (prop h (VObj L) (to_key ev)) as [| | | | |T|]; try (by intros ?).
  intros H0. right. apply andb_prop in H0 as [HoT H0].
  apply bool_decide_eq_true in HoT. exists T. split; [done|]. split; [done|].
  revert H0.
  destruct (truthy (prop h (VObj T) (guidFor t))) eqn:E3; [|by left].
  destruct (prop h (VObj T) (guidFor t)) as [| | | | |A|]; try (by intros ?).
  intros H0. right. apply andb_prop in H0 as [HoA _].
  apply bool_decide_eq_true in HoA. by exists A.
Qed.

Lemma fresh_entries_none obj h n :
  fresh_chain obj h n [] -> forall k, k ≠ SOURCE_KEY -> prop h (VObj n) k = VUndefined.
Proof.
  intros [_ Hk] k Hne. apply prop_not_in_keys. rewrite Hk.
  intros [?|[]]. congruence.
Qed.

Lemma fresh_entries_one obj h n k1 rest :
  fresh_chain obj h n (k1 :: rest) -> forall v, In v (entries h (VObj n)) -> v = VObj (S n).
Proof.
  intros (_ & Hk & Hp & _) v Hin.
  apply entries_inv in Hin as (k & Hin & Hs & <- & _).
  rewrite Hk in Hin. destruct Hin as [<-|[<-|[]]]; [done|done].
Qed.

#[local] Arguments grow : simpl never.

Lemma read_in_props h l k : read_in h (PropsOf l) k = prop h (VObj l) k.
Proof. done. Qed.

Lemma NoDup_locs3 a b c :
  NoDup (locs [VObj a; VObj b; VObj c]) -> a ≠ b /\ a ≠ c /\ b ≠ c.
Proof.
  unfold locs. simpl. intros H.
  apply NoDup_cons in H as [Ha H]. apply NoDup_cons in H as [Hb _].
  repeat split; intros ->.
  - apply Ha. apply elem_of_cons. by left.
  - apply Ha. apply elem_of_cons. right. apply elem_of_cons. by left.
  - apply Hb. apply elem_of_cons. by left.
Qed.

Lemma actionSetFor_own o ev t h tr :
  is_Some (h !! o) ->
  to_key ev ≠ SOURCE_KEY ->
  own_path (VObj o) h (MetaOf o) (listener_path ev t) = true ->
  NoDup (locs [listener_set h (VObj o); target_set h (VObj o) ev;
               action_set h (VObj o) ev t]) ->
  exists h1 L1 T1 A1,
    actionSetFor (VObj o) ev t true (Machine h tr)
    = (Return (VObj A1), Machine h1 tr) /\
    ensured h h1 o ev t L1 T1 A1.
Proof.
  intros [ob Eo] Hev Hown Hnd.
  assert (Hvo : cvalid h (MetaOf o)).
  { unfold cvalid. simpl. by eapply lookup_lt_Some. }
  pose proof (guidFor_not_source t) as Htg.
  unfold actionSetFor, metaPath, bind at 1, read. cbn beta iota.
  cbn [heap]. rewrite Eo.
  apply own_path_cases in Hown
    as [E1|(L & EL & HoL & [E2|(T & ET & HoT & [E3|(A & EA & HoA)])])].
  - (* nothing yet *)
    assert (Ets : target_set h (VObj o) ev = VBool false)
      by (apply target_set_absent; by left).
    assert (Eas : action_set h (VObj o) ev t = VUndefined)
      by (unfold action_set; by rewrite Ets).
    rewrite metaPath_from_grow; [|done|done|by repeat constructor]. simpl.
    destruct (grow_spec (VObj o) [to_key ev; guidFor t] h (MetaOf o) "listeners")
      as (Gl & Ge & Gf & Gk & Gc); [done|by repeat constructor|].
    cbn [fresh_chain length] in Gl, Gc.
    destruct Gc as (GsL & GkL & GpL & GsT & GkT & GpT & GsA & GkA).
    set (n := length h) in *.
    set (h1 := grow (VObj o) h (MetaOf o) ["listeners"; to_key ev; guidFor t]) in *.
    assert (F5 : forall mg, mg ≠ SOURCE_KEY ->
              prop h1 (VObj (S (S n))) mg
              = prop h (action_set h (VObj o) ev t) mg).
    { intros mg Hmg. rewrite Eas. rewrite (prop_falsy h _ mg) by done.
      apply prop_not_in_keys. rewrite GkA. intros [?|[]]. congruence. }
    assert (F6 : forall v, In v (entries h1 (VObj (S n))) ->
              v = VObj (S (S n)) \/ In v (action_sets h (VBool false))).
    { intros v Hin. left. apply entries_inv in Hin as (k & Hk & Hs & <- & _).
      rewrite GkT in Hk. by destruct Hk as [<-|[<-|[]]]. }
    replace (n + 2) with (S (S n)) by lia.
    exists h1, n, (S n), (S (S n)). split; [done|].
    unfold ensured, owned, listener_set. rewrite Ets.
    repeat split; try done; lia.
  - (* the listener set only *)
    pose proof (owned_valid _ _ _ _ HoL eq_refl) as HvL.
    assert (Ets : target_set h (VObj o) ev = VBool false).
    { apply target_set_absent. right. by rewrite EL. }
    assert (Eas : action_set h (VObj o) ev t = VUndefined)
      by (unfold action_set; by rewrite Ets).
    rewrite (metaPath_from_enter _ _ _ _ _ _ _ L) by done.
    rewrite metaPath_from_grow; [|done|done|by repeat constructor]. simpl.
    destruct (grow_spec (VObj o) [guidFor t] h (PropsOf L) (to_key ev))
      as (Gl & Ge & Gf & Gk & Gc); [done|by repeat constructor|].
    cbn [fresh_chain length] in Gl, Gc.
    destruct Gc as (GsT & GkT & GpT & GsA & GkA).
    set (n := length h) in *.
    set (h1 := grow (VObj o) h (PropsOf L) [to_key ev; guidFor t]) in *.
    assert (F1 : read_in h1 (MetaOf o) "listeners" = VObj L)
      by (rewrite Gf; [done..|]; by left).
    assert (F2 : read_in h1 (PropsOf L) SOURCE_KEY = VObj o)
      by (rewrite Gf; [done..|]; right; congruence).
    assert (F5 : forall mg, mg ≠ SOURCE_KEY ->
              prop h1 (VObj (S n)) mg
              = prop h (action_set h (VObj o) ev t) mg).
    { intros mg Hmg. rewrite Eas. rewrite (prop_falsy h _ mg) by done.
      apply prop_not_in_keys. rewrite GkA. intros [?|[]]. congruence. }
    assert (F6 : forall v, In v (entries h1 (VObj n)) ->
              v = VObj (S n) \/ In v (action_sets h (VBool false))).
    { intros v Hin. left. apply entries_inv in Hin as (k & Hk & Hs & <- & _).
      rewrite GkT in Hk. by destruct Hk as [<-|[<-|[]]]. }
    replace (n + 1) with (S n) by lia.
    exists h1, L, n, (S n). split; [done|].
    unfold ensured, owned, listener_set. rewrite Ets.
    repeat split; try done; lia.
  - (* listener set and target set *)
    pose proof (owned_valid _ _ _ _ HoL eq_refl) as HvL.
    pose proof (owned_valid _ _ _ _ HoT eq_refl) as HvT.
    pose proof (target_set_present _ _ _ _ _ EL ET) as Ets.
    assert (Eas : action_set h (VObj o) ev t = prop h (VObj T) (guidFor t))
      by (unfold action_set; by rewrite Ets).
    rewrite EL, Ets in Hnd.
    assert (HLT : L ≠ T).
    { rewrite Eas in Hnd. unfold locs in Hnd. simpl in Hnd.
      apply NoDup_cons in Hnd as [Hn _]. intros ->. apply Hn. by left. }
    rewrite (metaPath_from_enter _ _ _ _ _ _ _ L) by done.
    rewrite (metaPath_from_enter _ _ _ _ _ _ _ T) by done.
    rewrite metaPath_from_grow; [|done|done|constructor]. simpl.
    destruct (grow_spec (VObj o) [] h (PropsOf T) (guidFor t))
      as (Gl & Ge & Gf & Gk & Gs & Gks); [done|constructor|].
    simpl in Gl. set (n := length h) in *.
    set (h1 := grow (VObj o) h (PropsOf T) [guidFor t]) in *.
    rewrite Nat.add_0_r.
    assert (F1 : read_in h1 (MetaOf o) "listeners" = VObj L)
      by (rewrite Gf; [done..|]; by left).
    assert (F2 : read_in h1 (PropsOf L) SOURCE_KEY = VObj o)
      by (rewrite Gf; [done..|]; right; congruence).
    assert (F3 : read_in h1 (PropsOf L) (to_key ev) = VObj T)
      by (rewrite Gf; [done..|]; left; congruence).
    assert (F4 : read_in h1 (PropsOf T) SOURCE_KEY = VObj o)
      by (rewrite Gf; [done..|]; right; congruence).
    assert (F5 : forall mg, mg ≠ SOURCE_KEY ->
              prop h1 (VObj n) mg
              = prop h (action_set h (VObj o) ev t) mg).
    { intros mg Hmg. rewrite Eas. rewrite (prop_falsy h _ mg) by done.
      apply prop_not_in_keys. rewrite Gks. intros [?|[]]. congruence. }
    assert (F6 : forall v, In v (entries h1 (VObj T)) ->
              v = VObj n \/ In v (action_sets h (target_set h (VObj o) ev))).
    { intros v Hin. apply entries_inv in Hin as (k & Hk & Hs & <- & Htr).
      destruct (decide (k = guidFor t)) as [->|Hne].
      - left. by rewrite <- read_in_props, Ge.
      - right. rewrite Ets. rewrite <- read_in_props in Htr |- *.
        rewrite Gf in Htr |- * by (try done; by right).
        rewrite read_in_props in Htr |- *.
        apply in_entries; try done. apply prop_in_keys.
        by destruct (prop h (VObj T) k). }
    rewrite Ets in F6.
    exists h1, L, T, n. split; [done|].
    unfold ensured, owned, listener_set. rewrite Ets.
    repeat split; try done; lia.
  - (* everything is there *)
    pose proof (target_set_present _ _ _ _ _ EL ET) as Ets.
    assert (Eas : action_set h (VObj o) ev t = VObj A)
      by (unfold action_set; by rewrite Ets).
    rewrite EL, Ets, Eas in Hnd. apply NoDup_locs3 in Hnd.
    rewrite (metaPath_from_enter _ _ _ _ _ _ _ L) by done.
    rewrite (metaPath_from_enter _ _ _ _ _ _ _ T) by done.
    rewrite (metaPath_from_enter _ _ _ _ _ _ _ A) by done.
    exists h, L, T, A. split; [done|].
    unfold ensured. rewrite Ets, Eas. repeat split; try done; try tauto.
    all: by right.
Qed.

(* ===================================================================== *)
(** ** A new cell at the end of the heap *)
(* ===================================================================== *)

Lemma prop_app h ob l k :
  l < length h -> prop (h ++ [ob]) (VObj l) k = prop h (VObj l) k.
Proof. intros Hl. unfold prop. by rewrite lookup_app_l. Qed.

Lemma prop_app_new h ob k :
  prop (h ++ [ob]) (VObj (length h)) k = alookup k (props ob).
Proof. unfold prop. by rewrite list_lookup_middle. Qed.

Lemma entries_app h ob l :
  l < length h -> entries (h ++ [ob]) (VObj l) = entries h (VObj l).
Proof.
  intros Hl. unfold entries, entries_over. rewrite keys_app by done.
  f_equal. apply map_ext. intros k. by apply prop_app.
Qed.

Lemma listener_set_app h ob o :
  o < length h -> listener_set (h ++ [ob]) (VObj o) = listener_set h (VObj o).
Proof. intros Ho. unfold listener_set, read_in. by rewrite lookup_app_l. Qed.

Lemma keys_set_prop_absent h l k x :
  is_Some (h !! l) -> ~ In k (keys h (VObj l)) ->
  keys (set_prop h (VObj l) k x) (VObj l) = keys h (VObj l) ++ [k].
Proof.
  intros [ob Eo] Hnin. unfold keys in *.
  rewrite (lookup_set_prop_eq _ _ _ _ ob) by done. rewrite Eo in Hnin |- *.
  simpl. by apply keys_aset_absent.
Qed.

Lemma call_hook_quiet run o name args h tr :
  quiet run ->
  exists evs,
    call_hook run (VObj o) name args (Machine h tr)
    = (Return tt, Machine h (tr ++ evs)) /\
    Forall (fun e => ev_origin e = Hook) evs.
Proof.
  intros Hrun. unfold call_hook, bind at 1, get_prop, read. simpl.
  destruct (is_function (prop h (VObj o) name)) eqn:Ef; cycle 1.
  { exists []. by rewrite app_nil_r. }
  destruct (prop h (VObj o) name) eqn:Ep; try done.
  unfold bind, apply_fn, invoke. simpl.
  destruct (Hrun (Apply f (VObj o) args) h) as [v ->].
  eexists [_]. split; [done|]. by constructor.
Qed.

(** A registry with a lone entry has that entry as its one live action, or
    none when the entry is a tombstone. *)
Lemma lone_live h obj ev T A tg mg x :
  SKIP_PROPERTIES tg = false -> SKIP_PROPERTIES mg = false ->
  lone h obj ev T A tg mg x ->
  live_actions h (target_set h obj ev) = if truthy x then [x] else [].
Proof.
  intros Htg Hmg (-> & HkT & HpT & HkA & HpA).
  unfold live_actions, action_sets, entries, entries_over.
  rewrite HkT. simpl. rewrite Htg. simpl. rewrite HpT. simpl.
  rewrite HkA. simpl. rewrite Hmg. simpl. rewrite HpA.
  by destruct (truthy x).
Qed.

(* ===================================================================== *)
(** ** Registering a new action *)
(* ===================================================================== *)

Lemma listener_set_valid h o L : listener_set h (VObj o) = VObj L -> o < length h.
Proof.
  unfold listener_set, read_in. destruct (h !! o) eqn:E; [|done].
  intros _. by eapply lookup_lt_Some.
Qed.

(** The heap after the record [ob] was allocated and filed under [mg] in the
    action set the registry was made sure to have. *)
Lemma fresh_record h h1 o ev t me L1 T1 A1 ob :
  ensured h h1 o ev t L1 T1 A1 ->
  Forall (owned h (VObj o)) (action_sets h (target_set h (VObj o) ev)) ->
  let a := length h1 in
  let mg := guidFor me in
  let h2 := set_prop (h1 ++ [ob]) (VObj A1) mg (VObj a) in
  settled h2 (VObj o) ev t me a /\
  (forall k, prop h2 (VObj a) k = alookup k (props ob)) /\
  (truthy (target_set h (VObj o) ev) = false ->
   lone h2 (VObj o) ev T1 A1 (guidFor t) mg (VObj a)).
Proof.
  intros ((EL & HoL) & (ET & HoT) & (EA & HoA) & (HLT & HLA & HTA)
          & Hslot & Hsets & HkT & HkA & Hlen) Hown a mg h2.
  pose proof (owned_valid _ _ _ _ HoL eq_refl) as HvL.
  pose proof (owned_valid _ _ _ _ HoT eq_refl) as HvT.
  pose proof (owned_valid _ _ _ _ HoA eq_refl) as HvA.
  pose proof (listener_set_valid _ _ _ EL) as Hvo.
  pose proof (guidFor_not_source me) as Hmg. fold mg in Hmg.
  assert (HA2 : is_Some ((h1 ++ [ob]) !! A1)).
  { apply lookup_lt_is_Some_2. rewrite length_app. simpl. lia. }
  assert (EL2 : listener_set h2 (VObj o) = VObj L1).
  { unfold h2. by rewrite listener_set_set_prop, listener_set_app. }
  assert (Hold : forall l k, l < a -> l ≠ A1 \/ k ≠ mg ->
                 prop h2 (VObj l) k = prop h1 (VObj l) k).
  { intros l k Hl [Hne|Hne]; unfold h2.
    - rewrite prop_set_prop_other by congruence. by apply prop_app.
    - rewrite prop_set_prop_other_key by done. by apply prop_app. }
  assert (ET2 : target_set h2 (VObj o) ev = VObj T1).
  { apply (target_set_present _ _ _ L1); [done|]. rewrite Hold; auto. }
  assert (EA2 : action_set h2 (VObj o) ev t = VObj A1).
  { unfold action_set. rewrite ET2. rewrite Hold; auto. }
  assert (Hreg : prop h2 (VObj A1) mg = VObj a)
    by (by apply prop_set_prop_same).
  assert (Hents : entries h2 (VObj T1) = entries h1 (VObj T1)).
  { unfold h2. rewrite entries_set_prop_other by congruence.
    by apply entries_app. }
  split; [|split].
  - unfold settled, owned. rewrite EL2, ET2, EA2.
    split; [rewrite Hold; auto|]. split; [rewrite Hold; auto|].
    split; [rewrite Hold; auto|].
    split; [by unfold registered; rewrite EA2|].
    split.
    { apply lookup_lt_is_Some_2. unfold h2.
      rewrite length_set_prop, length_app. simpl. lia. }
    intros [[= ?]|[[= ?]|Hin]]; try lia.
    unfold action_sets in Hin. rewrite Hents in Hin.
    apply Hsets in Hin as [[= ?]|Hin]; [lia|].
    rewrite Forall_forall in Hown.
    apply list_elem_of_In, Hown in Hin.
    apply (owned_valid _ _ _ a) in Hin; [lia|done].
  - intros k. unfold h2.
    rewrite prop_set_prop_other by (intros [= ?]; lia).
    apply prop_app_new.
  - intros Hts. specialize (HkT Hts).
    assert (Has : truthy (action_set h (VObj o) ev t) = false).
    { unfold action_set. rewrite prop_falsy; done. }
    specialize (HkA Has).
    split; [done|]. split.
    { unfold h2. rewrite keys_set_prop_other by congruence. by rewrite keys_app. }
    split; [rewrite Hold; auto|]. split; [|done].
    unfold h2. rewrite keys_set_prop_absent; [|done|].
    + by rewrite keys_app, HkA.
    + rewrite keys_app, HkA by done. intros [?|[]]. congruence.
Qed.

Lemma addListener_new run o ev target method x t me h tr :
  quiet run ->
  truthy ev = true ->
  normalize target method = (t, me) ->
  tidy h o ev t me ->
  truthy (registered h (VObj o) ev t me) = false ->
  exists h1 L1 T1 A1 evs,
    ensured h h1 o ev t L1 T1 A1 /\
    addListener run (VObj o) ev target method x (Machine h tr)
    = (Return tt,
       Machine (set_prop (h1 ++ [action_record t me x]) (VObj A1) (guidFor me)
                  (VObj (length h1)))
         (tr ++ evs)) /\
    Forall (fun e => ev_origin e = Hook) evs.
Proof.
  intros Hrun Hev Hn (Ho & Hkev & Hown & Hnd & _ & _) Hreg.
  destruct (actionSetFor_own o ev t h tr Ho Hkev Hown Hnd)
    as (h1 & L1 & T1 & A1 & Eset & Hens).
  pose proof Hens as (_ & _ & _ & _ & Hslot & _).
  set (h2 := set_prop (h1 ++ [action_record t me x]) (VObj A1) (guidFor me)
               (VObj (length h1))).
  destruct (call_hook_quiet run o "didAddListener" [ev; t; me] h2 tr Hrun)
    as (evs & Ehook & Hhooks).
  exists h1, L1, T1, A1, evs. split; [done|]. split; [|done].
  unfold addListener. rewrite Hn. simpl. rewrite Hev. simpl.
  unfold bind at 1. simpl. unfold bind at 1. rewrite Eset. simpl.
  unfold bind at 1 2, read. simpl.
  rewrite Hslot by apply guidFor_not_source.
  fold (registered h (VObj o) ev t me). rewrite Hreg. simpl.
  apply Ehook.
Qed.

Lemma addListener_settled run o ev target method x t me a h tr :
  quiet run ->
  truthy ev = true ->
  normalize target method = (t, me) ->
  settled h (VObj o) ev t me a ->
  exists evs,
    addListener run (VObj o) ev target method x (Machine h tr)
    = (Return tt, Machine (set_prop h (VObj a) "xform" x) (tr ++ evs)) /\
    Forall (fun e => ev_origin e = Hook) evs.
Proof.
  intros Hrun Hev Hn (HL & HT & HA & Hreg & _).
  rewrite (addListener_existing run o ev target method x _ t me a) by done.
  by apply call_hook_quiet.
Qed.

(** Writing the transform of a settled action changes that record and
    nothing of the registry. *)
Lemma settled_xform h obj ev t me a x :
  settled h obj ev t me a ->
  let h' := set_prop h (VObj a) "xform" x in
  settled h' obj ev t me a /\
  prop h' (VObj a) "xform" = x /\
  (forall k, k ≠ "xform" -> prop h' (VObj a) k = prop h (VObj a) k) /\
  target_set h' obj ev = target_set h obj ev /\
  live_actions h' (target_set h' obj ev) = live_actions h (target_set h obj ev).
Proof.
  intros (HL & HT & HA & Hreg & Hval & Hnin) h0. subst h0.
  set (h' := set_prop h (VObj a) "xform" x).
  assert (HnL : listener_set h obj ≠ VObj a) by (intros E; apply Hnin; by left).
  assert (HnT : target_set h obj ev ≠ VObj a)
    by (intros E; apply Hnin; right; by left).
  assert (HnS : forall A, In A (action_sets h (target_set h obj ev)) -> A ≠ VObj a).
  { intros A HA' ->. apply Hnin. right. by right. }
  assert (Hin : In (action_set h obj ev t) (action_sets h (target_set h obj ev))).
  { destruct (prop_is_object _ _ _ _ Hreg) as (A & EA0 & _); [done|].
    apply in_entries; [|apply guidFor_not_reserved|].
    - apply prop_in_keys. fold (action_set h obj ev t). by rewrite EA0.
    - fold (action_set h obj ev t). by rewrite EA0. }
  assert (HnA : action_set h obj ev t ≠ VObj a) by (by apply HnS).
  assert (ETs : target_set h' obj ev = target_set h obj ev)
    by (by apply target_set_set_prop).
  pose proof (listener_set_set_prop h (VObj a) "xform" x obj) as ELs.
  fold h' in ELs.
  assert (EAs : action_sets h' (target_set h obj ev)
                = action_sets h (target_set h obj ev))
    by (by apply entries_set_prop_other).
  assert (EA : action_set h' obj ev t = action_set h obj ev t).
  { unfold action_set. rewrite ETs. by apply prop_set_prop_other. }
  split; [|split; [|split; [|split]]].
  - unfold settled, owned. rewrite ELs, ETs, EA, EAs.
    split; [by unfold h'; rewrite prop_set_prop_other|].
    split; [by unfold h'; rewrite prop_set_prop_other|].
    split; [by unfold h'; rewrite prop_set_prop_other|].
    split.
    { unfold registered. rewrite EA. unfold h'.
      by rewrite prop_set_prop_other. }
    split; [|done].
    apply lookup_lt_is_Some_2. unfold h'. rewrite length_set_prop.
    by apply lookup_lt_is_Some_1.
  - by apply prop_set_prop_same.
  - intros k Hk. by apply prop_set_prop_other_key.
  - done.
  - unfold live_actions. rewrite ETs, EAs. apply flat_map_ext_on.
    intros A HA'. apply entries_set_prop_other. by apply HnS.
Qed.

(* ===================================================================== *)
(** ** [hasListeners] *)
(* ===================================================================== *)

Lemma inhabited_app {A} (l1 l2 : list A) :
  inhabited (l1 ++ l2) = inhabited l1 || inhabited l2.
Proof. by destruct l1. Qed.

Lemma iterate_actions_probe A ks m :
  iterate_actions (fun _ (_ : unit) => ret (VBool true, tt)) A ks tt m
  = (Return (inhabited (entries_over (heap m) A ks), tt), m).
Proof.
  induction ks as [|k ks IH]; [done|].
  rewrite entries_over_cons. cbn [iterate_actions].
  destruct (SKIP_PROPERTIES k); [done|].
  unfold bind at 1, read. cbn beta iota.
  destruct (truthy (prop (heap m) A k)); [|done].
  by unfold bind, ret.
Qed.

Lemma iterate_targets_probe T ks m :
  iterate_targets (fun _ (_ : unit) => ret (VBool true, tt)) T ks tt m
  = (Return (inhabited (flat_map (entries (heap m))
                          (entries_over (heap m) T ks)), tt), m).
Proof.
  induction ks as [|k ks IH]; [done|].
  rewrite entries_over_cons. cbn [iterate_targets].
  destruct (SKIP_PROPERTIES k); [done|].
  unfold bind at 1, read. cbn beta iota.
  destruct (truthy (prop (heap m) T k)); [|done].
  unfold bind at 1, read. cbn beta iota.
  unfold bind at 1. rewrite iterate_actions_probe. cbn beta iota.
  cbn [flat_map]. rewrite inhabited_app. fold (entries (heap m) (prop (heap m) T k)).
  cbn [fst snd].
  destruct (inhabited (entries (heap m) (prop (heap m) T k))); [done|].
  by rewrite IH.
Qed.

Lemma iterateSet_probe T m :
  iterateSet T (fun _ (_ : unit) => ret (VBool true, tt)) tt m
  = (Return (inhabited (live_actions (heap m) T), tt), m).
Proof.
  unfold iterateSet. destruct (truthy T) eqn:Et; cbn [negb].
  - unfold bind at 1, read. cbn beta iota. by rewrite iterate_targets_probe.
  - unfold live_actions, action_sets.
    rewrite entries_not_object; [done|]. by destruct T.
Qed.

Lemma targetSetFor_object o ev m :
  targetSetFor (VObj o) ev m = (Return (target_set (heap m) (VObj o) ev), m).
Proof.
  unfold targetSetFor, target_set, listener_set, meta_get, bind at 1, read.
  cbn beta iota.
  destruct (truthy (read_in (heap m) (MetaOf o) "listeners")); [|done].
  cbn [negb]. unfold bind, read, ret. cbn beta iota.
  by destruct (truthy (prop (heap m) (read_in (heap m) (MetaOf o) "listeners")
                         (to_key ev))).
Qed.

(** With a live action, [hasListeners] answers [true] and writes nothing. *)
Lemma hasListeners_found o ev m :
  inhabited (live_actions (heap m) (target_set (heap m) (VObj o) ev)) = true ->
  hasListeners (VObj o) ev m = (Return true, m).
Proof.
  intros Hl. unfold hasListeners, bind at 1. rewrite targetSetFor_object.
  cbn beta iota. unfold bind at 1. rewrite iterateSet_probe. cbn beta iota.
  cbn [fst]. by rewrite Hl.
Qed.

(** Without one, it answers [false] and leaves the event cleared in a
    listener set that the object owns. *)
Lemma hasListeners_cleanup o ev h tr :
  is_Some (h !! o) ->
  to_key ev ≠ SOURCE_KEY ->
  own_path (VObj o) h (MetaOf o) ["listeners"] = true ->
  live_actions h (target_set h (VObj o) ev) = [] ->
  exists h',
    hasListeners (VObj o) ev (Machine h tr) = (Return false, Machine h' tr) /\
    blank h' o ev.
Proof.
  intros Ho Hk Hown Hl.
  assert (Hv : cvalid h (MetaOf o)) by (by apply lookup_lt_is_Some).
  unfold hasListeners, bind at 1. rewrite targetSetFor_object.
  cbn beta iota. unfold bind at 1. rewrite iterateSet_probe. cbn beta iota.
  cbn [fst heap]. rewrite Hl. cbn [inhabited].
  unfold bind at 1, metaPath, bind at 1, read. cbn beta iota. cbn [heap].
  destruct Ho as [ob Hob]. rewrite Hob. cbn beta iota.
  cbn [own_path] in Hown.
  destruct (truthy (read_in h (MetaOf o) "listeners")) eqn:Et.
  - destruct (read_in h (MetaOf o) "listeners") as [| | | | |L|] eqn:EL; try done.
    apply andb_prop in Hown as [Hown _].
    apply bool_decide_eq_true in Hown.
    rewrite (metaPath_from_enter (VObj o) true (MetaOf o) "listeners" [] VUndefined
               (Machine h tr) L) by done.
    cbn [metaPath_from]. unfold ret. cbn beta iota.
    unfold bind, put_prop, write, ret. cbn beta iota. cbn [heap trace].
    eexists. split; [done|].
    destruct (prop_is_object h (VObj L) SOURCE_KEY (VObj o) Hown) as (L' & EL' & HL);
      [done|]. injection EL' as <-.
    split.
    { apply lookup_lt_is_Some. rewrite length_set_prop.
      unfold cvalid in Hv. by simpl in Hv. }
    exists L. split; [by rewrite listener_set_set_prop|].
    split; [unfold owned; by rewrite prop_set_prop_other_key|].
    by apply prop_set_prop_same.
  - rewrite (metaPath_from_grow (VObj o) [] (MetaOf o) "listeners" VUndefined h tr)
      by done.
    destruct (grow_spec (VObj o) [] h (MetaOf o) "listeners" Hv (List.Forall_nil _))
      as (Hlen & Hread & _ & _ & Hsrc & _).
    set (h1 := grow (VObj o) h (MetaOf o) ["listeners"]) in *.
    cbn [length] in *. rewrite Nat.add_0_r.
    unfold bind, put_prop, write, ret. cbn beta iota. cbn [heap trace].
    eexists. split; [done|].
    assert (HL : is_Some (h1 !! length h)) by (apply lookup_lt_is_Some; lia).
    split.
    { apply lookup_lt_is_Some. rewrite length_set_prop.
      unfold cvalid in Hv. simpl in Hv. lia. }
    exists (length h). split; [by rewrite listener_set_set_prop|].
    split; [unfold owned; by rewrite prop_set_prop_other_key|].
    by apply prop_set_prop_same.
Qed.

(** A registry in which the event is cleared is tidy, with nothing
    registered for the event. *)
Lemma blank_tidy h o ev t me :
  to_key ev ≠ SOURCE_KEY -> blank h o ev ->
  tidy h o ev t me /\
  truthy (registered h (VObj o) ev t me) = false /\
  truthy (target_set h (VObj o) ev) = false.
Proof.
  intros Hk (Ho & L & HL & Hown & Hnull).
  assert (Hts : target_set h (VObj o) ev = VBool false).
  { apply target_set_absent. right. by rewrite HL, Hnull. }
  assert (Has : action_set h (VObj o) ev t = VUndefined)
    by (unfold action_set; by rewrite Hts).
  assert (Hreg : registered h (VObj o) ev t me = VUndefined)
    by (unfold registered; by rewrite Has).
  split; [|by rewrite Hreg, Hts].
  split; [done|]. split; [done|]. split.
  { unfold listener_path. cbn [own_path].
    change (read_in h (MetaOf o) "listeners") with (listener_set h (VObj o)).
    rewrite HL. cbn [truthy]. unfold owned in Hown. rewrite Hown.
    rewrite read_in_props, Hnull. cbn [truthy].
    unfold strict_eq. by rewrite bool_decide_eq_true_2. }
  split.
  { rewrite HL, Hts, Has. cbn. apply NoDup_singleton. }
  split; [by rewrite Hts|].
  by rewrite Hreg.
Qed.

(** A listener set that the object owns is a path of its own. *)
Lemma own_listeners h o :
  owned h (VObj o) (listener_set h (VObj o)) ->
  own_path (VObj o) h (MetaOf o) ["listeners"] = true.
Proof.
  intros Hown. cbn [own_path].
  change (read_in h (MetaOf o) "listeners") with (listener_set h (VObj o)).
  destruct (owned_object _ _ _ Hown) as [L EL]. rewrite EL in *.
  cbn [truthy]. unfold owned in Hown. rewrite Hown.
  unfold strict_eq. by rewrite bool_decide_eq_true_2.
Qed.

Lemma target_set_inv h obj ev T :
  target_set h obj ev = VObj T ->
  prop h (listener_set h obj) (to_key ev) = VObj T.
Proof.
  unfold target_set. destruct (truthy (listener_set h obj)); [|done].
  by destruct (truthy (prop h (listener_set h obj) (to_key ev))).
Qed.

(** Tombstoning the lone entry of a registry leaves a registry with a lone
    tombstone; the hashes above it are untouched. *)
Lemma lone_tombstone h o ev t me a T A :
  to_key ev ≠ SOURCE_KEY ->
  settled h (VObj o) ev t me a ->
  lone h (VObj o) ev T A (guidFor t) (guidFor me) (VObj a) ->
  let h' := set_prop h (VObj A) (guidFor me) VNull in
  lone h' (VObj o) ev T A (guidFor t) (guidFor me) VNull /\
  owned h' (VObj o) (listener_set h' (VObj o)) /\
  is_Some (h' !! o).
Proof.
  intros Hk (HoL & _ & _ & _ & _ & Hfresh) (Hts & HkT & HpT & HkA & HpA) h'.
  destruct (owned_object _ _ _ HoL) as [L EL].
  pose proof (target_set_inv _ _ _ _ Hts) as HpL. rewrite EL in HpL.
  assert (HaT : a ≠ T).
  { intros ->. apply Hfresh. right. left. by rewrite Hts. }
  assert (HTA : T ≠ A).
  { intros ->. assert (Hin : In (guidFor t) (keys h (VObj A)))
      by (rewrite HkT; right; by left).
    rewrite HkA in Hin. destruct Hin as [Hin|[Hin|[]]].
    - by apply (guidFor_not_source t).
    - rewrite <- Hin in HpT. rewrite HpT in HpA. by injection HpA as ->. }
  assert (HLA : L ≠ A).
  { intros ->. assert (Hin : In (to_key ev) (keys h (VObj A)))
      by (apply prop_in_keys; by rewrite HpL).
    rewrite HkA in Hin. destruct Hin as [Hin|[Hin|[]]]; [done|].
    rewrite <- Hin in HpL. rewrite HpL in HpA. by injection HpA as ->. }
  assert (HA : is_Some (h !! A)).
  { destruct (prop_is_object h (VObj A) _ _ HpA) as (A' & EA & ?); [done|].
    by injection EA as <-. }
  assert (Hin : In (guidFor me) (keys h (VObj A)))
    by (rewrite HkA; right; by left).
  split; [|split].
  - unfold lone, h'.
    rewrite target_set_set_prop by (rewrite EL; congruence).
    rewrite !keys_set_prop_present by done.
    rewrite prop_set_prop_other by congruence.
    by rewrite prop_set_prop_same.
  - unfold owned, h'. rewrite listener_set_set_prop.
    rewrite prop_set_prop_other_key; [done|].
    intros E. by apply (guidFor_not_source me).
  - apply lookup_lt_is_Some. unfold h'. rewrite length_set_prop.
    by apply (listener_set_valid h o L).
Qed.

(** Registering on a registry in which the event is cleared leaves a
    registry with that one entry, a fresh record. *)
Lemma addListener_blank run o ev target method x t me h tr :
  quiet run -> truthy ev = true -> to_key ev ≠ SOURCE_KEY ->
  normalize target method = (t, me) -> blank h o ev ->
  exists h2 T A a evs,
    addListener run (VObj o) ev target method x (Machine h tr)
    = (Return tt, Machine h2 (tr ++ evs)) /\
    settled h2 (VObj o) ev t me a /\
    lone h2 (VObj o) ev T A (guidFor t) (guidFor me) (VObj a) /\
    (forall k, prop h2 (VObj a) k = alookup k (props (action_record t me x))).
Proof.
  intros Hrun Hev Hk Hn Hb.
  destruct (blank_tidy h o ev t me Hk Hb) as (Htidy & Hreg & Hts).
  destruct (addListener_new run o ev target method x t me h tr)
    as (h1 & L1 & T1 & A1 & evs & Hens & E & _); try done.
  destruct Htidy as (_ & _ & _ & _ & Hown & _).
  destruct (fresh_record h h1 o ev t me L1 T1 A1 (action_record t me x) Hens Hown)
    as (Hset & Hrec & Hlone).
  eexists _, T1, A1, (length h1), evs. split; [apply E|].
  split; [done|]. split; [by apply Hlone|done].
Qed.

(** Removing the lone entry of such a registry tombstones it. *)
Lemma removeListener_lone run o ev target method t me a T A h tr :
  quiet run -> normalize target method = (t, me) ->
  settled h (VObj o) ev t me a ->
  lone h (VObj o) ev T A (guidFor t) (guidFor me) (VObj a) ->
  exists evs,
    removeListener run (VObj o) ev target method (Machine h tr)
    = (Return tt, Machine (set_prop h (VObj A) (guidFor me) VNull) (tr ++ evs)).
Proof.
  intros Hrun Hn (HoL & HoT & HoA & _) (Hts & _ & HpT & _ & HpA).
  assert (EA : action_set h (VObj o) ev t = VObj A)
    by (unfold action_set; by rewrite Hts).
  pose proof (actionSetFor_present o ev t true (Machine h tr) HoL HoT HoA) as Ea.
  cbn [heap] in Ea. rewrite EA in Ea.
  rewrite (removeListener_registered run o ev target method (Machine h tr) t me A)
    by (try done; cbn [heap]; by rewrite HpA).
  cbn [heap trace].
  destruct (call_hook_quiet run o "didRemoveListener" [ev; t; me]
              (set_prop h (VObj A) (guidFor me) VNull) tr Hrun) as (evs & E & _).
  by exists evs.
Qed.

Lemma custom_send_quiet run o rest h tr :
  quiet run ->
  exists evs,
    custom_send run (VObj o) rest (Machine h tr)
    = (Return tt, Machine h (tr ++ evs)) /\
    Forall (fun e => ev_origin e = Hook) evs.
Proof.
  intros Hrun. unfold custom_send.
  destruct (negb (strict_eq (VObj o) Ember)).
  - by apply call_hook_quiet.
  - exists []. by rewrite app_nil_r.
Qed.

(** With quiet user code, a callable action is invoked and returns. *)
Lemma invokeAction_quiet run a params h tr f :
  quiet run ->
  prop h a "method" = VFun f ->
  (truthy (prop h a "xform") = true -> is_function (prop h a "xform") = true) ->
  exists e,
    invokeAction run a params (Machine h tr)
    = (Return VUndefined, Machine h (tr ++ [e])) /\
    ev_origin e = Action a.
Proof.
  intros Hrun Hme Hx. rewrite invokeAction_planned. cbn [heap trace].
  assert (exists c, planned h a params = Some c) as [c ->].
  { unfold planned, resolved_method. rewrite Hme. cbn [is_string andb].
    destruct (truthy (prop h a "xform")) eqn:Etx.
    - specialize (Hx eq_refl). destruct (prop h a "xform"); try done.
      by eexists.
    - by eexists. }
  destruct (Hrun c h) as [v E]. rewrite E. cbn [fst snd]. by eexists.
Qed.

(** A fire on a registry with one entry, a callable action, invokes that
    action and returns; the heap has grown by the arguments object. *)
Lemma sendEvent_lone run o ev args h tr T A tg mg a f :
  quiet run ->
  SKIP_PROPERTIES tg = false -> SKIP_PROPERTIES mg = false ->
  lone h (VObj o) ev T A tg mg (VObj a) ->
  prop h (VObj a) "method" = VFun f ->
  (truthy (prop h (VObj a) "xform") = true ->
   is_function (prop h (VObj a) "xform") = true) ->
  exists evs,
    sendEvent run (VObj o) ev args (Machine h tr)
    = (Return true,
       Machine (h ++ [arguments_object (VObj o :: ev :: args)]) (tr ++ evs)) /\
    invoked evs = [VObj a].
Proof.
  intros Hrun Htg Hmg (Hts & HkT & HpT & HkA & HpA) Hme Hx.
  destruct (custom_send_quiet run o (ev :: args) h tr Hrun) as (evs1 & E1 & Hh).
  set (cell := arguments_object (VObj o :: ev :: args)).
  destruct (invokeAction_quiet run (VObj a) (VObj (length h)) (h ++ [cell])
              (tr ++ evs1) f Hrun) as (e & E2 & He).
  { unfold cell, arguments_object. by rewrite prop_blank_cell. }
  { unfold cell, arguments_object. by rewrite prop_blank_cell. }
  assert (HkT' : keys (h ++ [cell]) (VObj T) = [SOURCE_KEY; tg])
    by (unfold cell, arguments_object; by rewrite keys_blank_cell).
  assert (HpT' : prop (h ++ [cell]) (VObj T) tg = VObj A)
    by (unfold cell, arguments_object; by rewrite prop_blank_cell).
  assert (HkA' : keys (h ++ [cell]) (VObj A) = [SOURCE_KEY; mg])
    by (unfold cell, arguments_object; by rewrite keys_blank_cell).
  assert (HpA' : prop (h ++ [cell]) (VObj A) mg = VObj a)
    by (unfold cell, arguments_object; by rewrite prop_blank_cell).
  exists (evs1 ++ [e]). split.
  - unfold sendEvent, bind at 1. rewrite E1. cbn beta iota.
    unfold bind at 1. rewrite targetSetFor_object. cbn beta iota. cbn [heap].
    rewrite Hts. unfold bind at 1, alloc. cbn beta iota. cbn [heap trace].
    fold cell.
    unfold bind at 1, iterateSet. cbn [truthy negb].
    unfold bind at 1, read. cbn beta iota. cbn [heap]. rewrite HkT'.
    cbn [iterate_targets].
    change (SKIP_PROPERTIES SOURCE_KEY) with true. cbn beta iota. rewrite Htg.
    unfold bind at 1, read. cbn beta iota. cbn [heap]. rewrite HpT'.
    cbn [truthy]. unfold bind at 1, read. cbn beta iota. cbn [heap].
    rewrite HkA'. unfold bind at 1. cbn [iterate_actions].
    change (SKIP_PROPERTIES SOURCE_KEY) with true. cbn beta iota. rewrite Hmg.
    unfold bind at 1, read. cbn beta iota. cbn [heap]. rewrite HpA'.
    cbn [truthy]. unfold bind at 1 2. rewrite E2. cbn beta iota.
    unfold ret. cbn [fst snd]. by rewrite app_assoc.
  - rewrite invoked_app, invoked_hooks by done.
    unfold invoked. cbn [flat_map app]. by rewrite He.
Qed.

(* ===================================================================== *)
(** ** [suspendListener] *)
(* ===================================================================== *)

(** What [suspendListener] does for a registered action, whatever the body
    does: the body runs, with the target as receiver, on a heap where the
    action is tombstoned; the outcome of the body, value or exception, is the
    outcome of [suspendListener]; and the record is put back under its key in
    the action set that was found before the body ran.  It is registered
    again if the body left the object, its listener set and the target set
    as they were. *)
Lemma suspendListener_restores run o ev target method f t me a m r m' :
  let obj := VObj o in
  let h := heap m in
  let A := action_set h obj ev t in
  let hb := set_prop h A (guidFor me) VNull in
  normalize target method = (t, me) ->
  owned h obj (listener_set h obj) ->
  owned h obj (target_set h obj ev) ->
  owned h obj A ->
  registered h obj ev t me = VObj a ->
  A ≠ listener_set h obj ->
  A ≠ target_set h obj ev ->
  (forall c h0, length h0 <= length (snd (run c h0))) ->
  suspendListener run obj ev target method (VFun f) m = (r, m') ->
  exists h1,
    run (Apply f t []) hb = (r, h1) /\
    registered hb obj ev t me = VNull /\
    m' = Machine (set_prop h1 A (guidFor me) (VObj a))
           (trace m ++ [Event Body (Apply f t []) hb r]) /\
    prop (heap m') A (guidFor me) = VObj a /\
    (agree (locs [obj; listener_set h obj; target_set h obj ev]) hb h1 ->
     registered (heap m') obj ev t me = VObj a).
Proof.
  intros obj h A hb Hn HoL HoT HoA Hreg HAL HAT Hlen H.
  subst obj. destruct m as [h0 tr]. cbn [heap trace] in *. subst h.
  destruct (owned_object _ _ _ HoA) as [A0 EA].
  destruct (owned_object _ _ _ HoL) as [L EL].
  destruct (owned_object _ _ _ HoT) as [T ET].
  assert (HA0 : is_Some (h0 !! A0)).
  { unfold registered in Hreg. fold A in Hreg. rewrite EA in Hreg.
    destruct (prop_is_object _ _ _ _ Hreg) as (A' & E' & ?); [done|].
    by injection E' as <-. }
  unfold suspendListener in H. rewrite Hn in H. cbn [fst snd] in H.
  unfold bind at 1 in H.
  rewrite (actionSetFor_present o ev t true (Machine h0 tr)) in H by done.
  cbn [heap] in H. fold A in H.
  assert (Hreg' : prop h0 (VObj A0) (guidFor me) = VObj a)
    by (rewrite <- EA; exact Hreg).
  assert (Ehb : hb = set_prop h0 (VObj A0) (guidFor me) VNull)
    by (unfold hb; by rewrite EA).
  rewrite EA in H. cbn [truthy] in H.
  unfold bind at 1, get_prop, read in H. cbn beta iota in H. cbn [heap] in H.
  rewrite Hreg' in H.
  unfold bind at 1, put_prop, write in H. cbn beta iota in H.
  cbn [heap trace] in H. rewrite <- Ehb in H.
  unfold try_finally, method_call, invoke in H. cbn [heap trace] in H.
  destruct (run (Apply f t []) hb) as [r1 h1] eqn:Er.
  injection H as <- <-. exists h1. cbn [heap]. rewrite EA.
  assert (HA1 : is_Some (h1 !! A0)).
  { apply lookup_lt_is_Some. apply lookup_lt_is_Some in HA0.
    pose proof (Hlen (Apply f t []) hb) as Hl. rewrite Er in Hl.
    cbn [snd] in Hl. rewrite Ehb, length_set_prop in Hl. lia. }
  assert (HLA : listener_set h0 (VObj o) ≠ VObj A0) by congruence.
  assert (HTA : VObj T ≠ VObj A0) by congruence.
  assert (Etb : target_set hb (VObj o) ev = VObj T)
    by (rewrite Ehb, target_set_set_prop by done; done).
  assert (Eab : action_set hb (VObj o) ev t = VObj A0).
  { unfold action_set. rewrite Etb, Ehb, prop_set_prop_other by done.
    rewrite <- ET. exact EA. }
  split; [done|]. split.
  { unfold registered. rewrite Eab, Ehb. by apply prop_set_prop_same. }
  split; [done|]. split; [by apply prop_set_prop_same|].
  intros Hag.
  assert (Et1 : target_set h1 (VObj o) ev = VObj T).
  { rewrite <- Etb. apply (target_set_agree _ hb h1 _ _ Hag).
    rewrite Ehb, listener_set_set_prop, EL. cbn.
    intros l [<-|[<-|[]]]; [by left|right; by left]. }
  assert (El1 : listener_set h1 (VObj o) = VObj L).
  { rewrite <- EL, <- (listener_set_set_prop h0 (VObj A0) (guidFor me) VNull).
    rewrite <- Ehb. apply (listener_set_agree _ hb h1 _ Hag).
    cbn. intros l [<-|[]]. by left. }
  assert (Ea1 : prop h1 (VObj T) (guidFor t) = VObj A0).
  { rewrite <- Eab. unfold action_set. rewrite Etb.
    apply (prop_agree _ hb h1 _ _ Hag). rewrite EL, ET. cbn.
    intros l [<-|[]]. right. right. by left. }
  unfold registered, action_set.
  rewrite target_set_set_prop by (rewrite El1; congruence).
  rewrite Et1, (prop_set_prop_other h1 _ _ _ (VObj T)) by done.
  rewrite Ea1. by apply prop_set_prop_same.
Qed.

(* ===================================================================== *)
(** ** [iterateSet] with a callback that only reads *)
(* ===================================================================== *)

Lemma scan_app {S} (f : value -> S -> value * S) l1 l2 s :
  scan f (l1 ++ l2) s
  = if fst (scan f l1 s) then scan f l1 s else scan f l2 (snd (scan f l1 s)).
Proof.
  revert s. induction l1 as [|a l1 IH]; intros s; [done|].
  cbn [app scan]. destruct (strict_eq (f a s).1 (VBool true)); [done|].
  apply IH.
Qed.

Section Reader.

Context {S : Type}.
Variable callback : value -> S -> M (value * S).
Variable f : Heap -> value -> S -> value * S.
Hypothesis callback_reads :
  forall a s m, callback a s m = (Return (f (heap m) a s), m).

Lemma iterate_actions_reader A ks s m :
  iterate_actions callback A ks s m
  = (Return (scan (f (heap m)) (entries_over (heap m) A ks) s), m).
Proof.
  revert s. induction ks as [|k ks IH]; intros s; [done|].
  rewrite entries_over_cons. cbn [iterate_actions].
  destruct (SKIP_PROPERTIES k); [apply IH|].
  unfold bind at 1, read. cbn beta iota.
  destruct (truthy (prop (heap m) A k)); [|apply IH].
  unfold bind at 1. rewrite callback_reads. cbn beta iota. cbn [scan].
  destruct (strict_eq (f (heap m) (prop (heap m) A k) s).1 (VBool true));
    [done|apply IH].
Qed.

Lemma iterate_targets_reader T ks s m :
  iterate_targets callback T ks s m
  = (Return (scan (f (heap m))
               (flat_map (entries (heap m)) (entries_over (heap m) T ks)) s), m).
Proof.
  revert s. induction ks as [|k ks IH]; intros s; [done|].
  rewrite entries_over_cons. cbn [iterate_targets].
  destruct (SKIP_PROPERTIES k); [apply IH|].
  unfold bind at 1, read. cbn beta iota.
  destruct (truthy (prop (heap m) T k)); [|apply IH].
  unfold bind at 1, read. cbn beta iota.
  unfold bind at 1. rewrite iterate_actions_reader. cbn beta iota.
  cbn [flat_map]. rewrite scan_app.
  fold (entries (heap m) (prop (heap m) T k)).
  destruct (scan (f (heap m)) (entries (heap m) (prop (heap m) T k)) s)
    as [[|] s']; cbn [fst snd]; [done|apply IH].
Qed.

Lemma iterateSet_reads T s m :
  iterateSet T callback s m
  = (Return (scan (f (heap m)) (live_actions (heap m) T) s), m).
Proof.
  unfold iterateSet. destruct (truthy T) eqn:Et; cbn [negb].
  - unfold bind at 1, read. cbn beta iota. by rewrite iterate_targets_reader.
  - unfold live_actions, action_sets.
    rewrite entries_not_object; [done|]. by destruct T.
Qed.

End Reader.

(* ===================================================================== *)
(** ** [listenersFor] and [watchedEvents] *)
(* ===================================================================== *)

Lemma scan_collect {A} (g : value -> A) l acc :
  scan (fun a acc => (VUndefined, acc ++ [g a])) l acc
  = (false, acc ++ map g l).
Proof.
  revert acc. induction l as [|a l IH]; intros acc.
  - by rewrite app_nil_r.
  - cbn [scan map fst snd].
    replace (strict_eq VUndefined (VBool true)) with false by done.
    by rewrite IH, <- app_assoc.
Qed.

Lemma listenersFor_object o ev m :
  listenersFor (VObj o) ev m
  = (Return (map (pair_of (heap m))
               (live_actions (heap m) (target_set (heap m) (VObj o) ev))), m).
Proof.
  unfold listenersFor, bind at 1. rewrite targetSetFor_object. cbn beta iota.
  unfold bind at 1.
  rewrite (iterateSet_reads _
             (fun h a acc => (VUndefined, acc ++ [pair_of h a]))) by done.
  cbn beta iota. by rewrite scan_collect.
Qed.

Lemma watched_loop_filter L ks acc m :
  watched_loop L ks acc m
  = (Return (acc ++ List.filter
                      (fun k => negb (SKIP_PROPERTIES k)
                                && truthy (prop (heap m) L k)) ks), m).
Proof.
  revert acc. induction ks as [|k ks IH]; intros acc.
  - by rewrite app_nil_r.
  - cbn [watched_loop List.filter]. destruct (SKIP_PROPERTIES k); cbn [negb andb].
    + apply IH.
    + unfold bind at 1, read. cbn beta iota.
      destruct (truthy (prop (heap m) L k)); [|apply IH].
      by rewrite IH, <- app_assoc.
Qed.

Lemma watchedEvents_object o m :
  watchedEvents (VObj o) m = (Return (watched (heap m) (VObj o)), m).
Proof.
  unfold watchedEvents, watched, listener_set, meta_get, bind at 1, read.
  cbn beta iota.
  destruct (truthy (read_in (heap m) (MetaOf o) "listeners")) eqn:Et.
  - unfold bind at 1, read. cbn beta iota. by rewrite watched_loop_filter.
  - by destruct (read_in (heap m) (MetaOf o) "listeners").
Qed.

Lemma metaPath_from_cons obj writable c keyName rest last :
  metaPath_from obj writable c (keyName :: rest) last
  = (let! v := read (fun h => read_in h c keyName) in
     if negb (truthy v) then
       if negb writable then ret VUndefined
       else
         let! fresh := alloc (new_hash obj) in
         do! write (fun h => write_in h c keyName fresh) in
         match fresh with
         | VObj l => metaPath_from obj writable (PropsOf l) rest fresh
         | _ => ret VUndefined
         end
     else
       let! owner := read (fun h => prop h v SOURCE_KEY) in
       match v with
       | VObj l =>
           if strict_eq owner obj then
             metaPath_from obj writable (PropsOf l) rest v
           else if negb writable then ret VUndefined
           else
             let! inherited := read (fun h => match h !! l with
                                         | Some ob => props ob
                                         | None => []
                                         end) in
             let! fresh := alloc (Object (aset SOURCE_KEY obj inherited) []) in
             do! write (fun h => write_in h c keyName fresh) in
             match fresh with
             | VObj l' => metaPath_from obj writable (PropsOf l') rest fresh
             | _ => ret VUndefined
             end
       | _ => if negb writable then ret VUndefined else throw TypeError
       end).
Proof. reflexivity. Qed.

(** [metaPath(obj, ["listeners"], true)], when it returns, returns the
    listener set that [obj] has from then on; it calls nothing. *)
Lemma metaPath_listeners o m v m1 :
  metaPath (VObj o) ["listeners"] true m = (Return v, m1) ->
  exists L, v = VObj L /\ listener_set (heap m1) (VObj o) = VObj L /\
            is_Some (heap m1 !! L) /\ trace m1 = trace m.
Proof.
  destruct m as [h tr]. unfold metaPath, bind at 1, read. cbn beta iota.
  cbn [heap]. destruct (h !! o) as [ob|] eqn:Eo; [|done].
  assert (Hv : cvalid h (MetaOf o)) by (by eapply lookup_lt_Some).
  assert (Hv' : forall ob', cvalid (h ++ [ob']) (MetaOf o)).
  { intros ob'. unfold cvalid in *. rewrite length_app. simpl in *. lia. }
  assert (Hnew : forall ob',
             let h1 := write_in (h ++ [ob']) (MetaOf o) "listeners"
                         (VObj (length h)) in
             listener_set h1 (VObj o) = VObj (length h) /\
             is_Some (h1 !! length h)).
  { intros ob' h1. split.
    - unfold listener_set, h1. by apply read_in_write_in_same.
    - apply lookup_lt_is_Some. unfold h1.
      rewrite length_write_in, length_app. simpl. lia. }
  rewrite metaPath_from_cons. change (metaPath_from _ _ _ [] ?x) with (@ret value x).
  unfold bind at 1, read. cbn beta iota. cbn [heap].
  destruct (truthy (read_in h (MetaOf o) "listeners")) eqn:Et; cbn [negb].
  - unfold bind at 1, read. cbn beta iota. cbn [heap].
    destruct (read_in h (MetaOf o) "listeners") as [| | | | |l|] eqn:El; try done.
    destruct (strict_eq (prop h (VObj l) SOURCE_KEY) (VObj o)) eqn:Eown.
    + intros [= <- <-]. exists l. split; [done|]. split; [done|].
      split; [|done]. apply bool_decide_eq_true in Eown.
      destruct (prop_is_object h (VObj l) _ _ Eown) as (l' & E' & ?); [done|].
      by injection E' as <-.
    + unfold bind, read, alloc, write, ret. cbn beta iota. cbn [heap trace].
      intros [= <- <-]. exists (length h). split; [done|]. cbn [heap trace].
      destruct (Hnew (Object (aset SOURCE_KEY (VObj o)
                                (match h !! l with
                                 | Some ob0 => props ob0
                                 | None => []
                                 end)) [])) as [? ?].
      by repeat split.
  - unfold bind, alloc, write, ret. cbn beta iota. cbn [heap trace].
    intros [= <- <-]. exists (length h). split; [done|]. cbn [heap trace].
    destruct (Hnew (new_hash (VObj o))) as [? ?]. by repeat split.
Qed.

Lemma hasListeners_unfold o ev m :
  hasListeners (VObj o) ev m
  = if inhabited (live_actions (heap m) (target_set (heap m) (VObj o) ev))
    then (Return true, m)
    else (let! set := metaPath (VObj o) ["listeners"] true in
          do! put_prop set (to_key ev) VNull in
          ret false) m.
Proof.
  unfold hasListeners, bind at 1. rewrite targetSetFor_object.
  cbn beta iota. unfold bind at 1. rewrite iterateSet_probe. cbn beta iota.
  cbn [fst]. by destruct (inhabited _).
Qed.

(** The outcomes of [hasListeners]: [true] without a write, or [false] with
    the event cleared in the listener set of the object. *)
Lemma hasListeners_inv o ev m b m' :
  hasListeners (VObj o) ev m = (Return b, m') ->
  trace m' = trace m /\
  if b then
    m' = m /\
    inhabited (live_actions (heap m) (target_set (heap m) (VObj o) ev)) = true
  else
    live_actions (heap m) (target_set (heap m) (VObj o) ev) = [] /\
    exists L, listener_set (heap m') (VObj o) = VObj L /\
              prop (heap m') (VObj L) (to_key ev) = VNull.
Proof.
  rewrite hasListeners_unfold.
  destruct (live_actions (heap m) (target_set (heap m) (VObj o) ev))
    as [|a l] eqn:El; cbn [inhabited].
  - unfold bind at 1.
    destruct (metaPath (VObj o) ["listeners"] true m) as [[v|x] m1] eqn:Em;
      [|done].
    apply metaPath_listeners in Em as (L & -> & HL & Hs & Ht).
    unfold bind, put_prop, write, ret. cbn beta iota. intros [= <- <-].
    cbn [heap trace]. split; [done|]. split; [done|]. exists L.
    split; [by rewrite listener_set_set_prop|]. by apply prop_set_prop_same.
  - intros [= <- <-]. by repeat split.
Qed.

Lemma in_watched h obj k :
  In k (watched h obj) <->
  In k (keys h (listener_set h obj)) /\ SKIP_PROPERTIES k = false /\
  truthy (prop h (listener_set h obj) k) = true.
Proof.
  unfold watched. rewrite List.filter_In, andb_true_iff, negb_true_iff. tauto.
Qed.

Lemma truthy_in_watched h obj k :
  SKIP_PROPERTIES k = false -> truthy (prop h (listener_set h obj) k) = true ->
  In k (watched h obj).
Proof.
  intros Hk Ht. apply in_watched. split; [|done].
  apply prop_in_keys. intros E. by rewrite E in Ht.
Qed.

(** An event with a live action is a watched event, unless its name is one
    that [SKIP_PROPERTIES] holds. *)
Lemma live_watched h obj ev :
  inhabited (live_actions h (target_set h obj ev)) = true ->
  SKIP_PROPERTIES (to_key ev) = false ->
  In (to_key ev) (watched h obj).
Proof.
  intros Hl Hk. apply truthy_in_watched; [done|].
  unfold target_set in Hl.
  destruct (truthy (listener_set h obj)); [|done].
  by destruct (truthy (prop h (listener_set h obj) (to_key ev))).
Qed.

(* ===================================================================== *)
(** ** Registrations and removals seen through the read operations *)
(* ===================================================================== *)

(** What [ensured] says about the registry read back. *)
Lemma ensured_read h h1 o ev t L1 T1 A1 :
  ensured h h1 o ev t L1 T1 A1 ->
  target_set h1 (VObj o) ev = VObj T1 /\
  action_set h1 (VObj o) ev t = VObj A1 /\
  forall me, registered h1 (VObj o) ev t me = registered h (VObj o) ev t me.
Proof.
  intros ((HL & _) & (HT & _) & (HA & _) & _ & Hslot & _).
  assert (Ht : target_set h1 (VObj o) ev = VObj T1)
    by (by apply (target_set_present _ _ _ L1)).
  assert (Ha : action_set h1 (VObj o) ev t = VObj A1)
    by (unfold action_set; by rewrite Ht).
  split; [done|]. split; [done|]. intros me.
  unfold registered. rewrite Ha. apply Hslot, guidFor_not_source.
Qed.

(** [removeListener] for a pair that is not registered writes no tombstone,
    but it has made sure that the action set exists. *)
Lemma removeListener_unregistered run o ev target method t me h tr :
  quiet run -> normalize target method = (t, me) ->
  tidy h o ev t me ->
  truthy (registered h (VObj o) ev t me) = false ->
  exists h1 L1 T1 A1 evs,
    ensured h h1 o ev t L1 T1 A1 /\
    removeListener run (VObj o) ev target method (Machine h tr)
    = (Return tt, Machine h1 (tr ++ evs)).
Proof.
  intros Hrun Hn (Ho & Hk & Hown & Hnd & _) Hreg.
  destruct (actionSetFor_own o ev t h tr Ho Hk Hown Hnd)
    as (h1 & L1 & T1 & A1 & E & Hens).
  destruct (ensured_read _ _ _ _ _ _ _ _ Hens) as (_ & Ha & Hr).
  destruct (call_hook_quiet run o "didRemoveListener" [ev; t; me] h1 tr Hrun)
    as (evs & Eh & _).
  exists h1, L1, T1, A1, evs. split; [done|].
  unfold removeListener. rewrite Hn. cbn [fst snd].
  unfold bind at 1. rewrite E. cbn beta iota. cbn [truthy].
  unfold bind at 1 2, get_prop, read. cbn beta iota. cbn [heap].
  specialize (Hr me). unfold registered in Hr. rewrite Ha in Hr.
  rewrite Hr. fold (registered h (VObj o) ev t me). rewrite Hreg.
  unfold ret. cbn beta iota. exact Eh.
Qed.

(** Registering a pair that is not registered files a fresh record, which is
    live; when the event had no target set it is the one entry. *)
Lemma addListener_fresh run o ev target method x t me h tr :
  quiet run -> truthy ev = true -> normalize target method = (t, me) ->
  tidy h o ev t me ->
  truthy (registered h (VObj o) ev t me) = false ->
  exists h2 a evs,
    addListener run (VObj o) ev target method x (Machine h tr)
    = (Return tt, Machine h2 (tr ++ evs)) /\
    settled h2 (VObj o) ev t me a /\
    pair_of h2 (VObj a) = (t, me) /\
    prop h2 (VObj a) "xform" = x /\
    In (VObj a) (live_actions h2 (target_set h2 (VObj o) ev)) /\
    (truthy (target_set h (VObj o) ev) = false ->
     live_actions h2 (target_set h2 (VObj o) ev) = [VObj a]).
Proof.
  intros Hrun Hev Hn Htidy Hreg.
  destruct (addListener_new run o ev target method x t me h tr)
    as (h1 & L1 & T1 & A1 & evs & Hens & E & _); try done.
  destruct Htidy as (_ & _ & _ & _ & Hown & _).
  destruct (fresh_record h h1 o ev t me L1 T1 A1 (action_record t me x) Hens Hown)
    as (Hset & Hrec & Hlone).
  set (h2 := set_prop (h1 ++ [action_record t me x]) (VObj A1) (guidFor me)
               (VObj (length h1))) in *.
  exists h2, (length h1), evs. split; [apply E|]. split; [done|].
  split; [unfold pair_of; by rewrite !Hrec|]. split; [by rewrite Hrec|].
  pose proof Hset as (_ & _ & HoA & Hr & _).
  split.
  - pose proof (registered_is_live h2 (VObj o) ev t me) as Hin.
    rewrite Hr in Hin. apply Hin; [done|].
    by destruct (owned_object _ _ _ HoA) as [A ->].
  - intros Hts.
    by rewrite (lone_live _ _ _ _ _ _ _ _ (guidFor_not_reserved t)
                  (guidFor_not_reserved me) (Hlone Hts)).
Qed.

(* ===================================================================== *)
(** ** The hook of [sendEvent] *)
(* ===================================================================== *)

(** What [sendEvent] does after the hook: every call it makes is the
    invocation of an action. *)
Lemma iterateSet_invokes_actions run ts params :
  disciplined (fun e => exists a, ev_origin e = Action a) type_error
    (iterateSet ts
       (fun action (_ : unit) =>
          let! r := invokeAction run action params in ret (r, tt)) tt).
Proof.
  apply disciplined_iterateSet. intros a s'.
  apply disciplined_bind; [|intros r; apply disciplined_ret].
  intros m r m' H.
  apply invokeAction_inv in H as [(c & res & Hres & -> & _ & ->)|(-> & -> & _)].
  - eexists [_]. split; [done|]. split.
    + destruct res as [v|x]; simpl.
      * constructor; [by exists v|constructor].
      * right. eexists [], _. by repeat split.
    + constructor; [by exists a|constructor].
  - exists []. rewrite app_nil_r. split; [done|]. split; [|constructor].
    left. split; [constructor|done].
Qed.

Lemma sendEvent_listeners run obj ev args m r m' :
  (let! targetSet := targetSetFor obj ev in
   let! arguments := alloc (arguments_object (obj :: ev :: args)) in
   do! iterateSet targetSet
         (fun action (_ : unit) =>
            let! r := invokeAction run action arguments in ret (r, tt))
         tt in
   ret true) m = (r, m') ->
  exists evs, trace m' = trace m ++ evs /\
              Forall (fun e => exists a, ev_origin e = Action a) evs.
Proof.
  intros H.
  assert (Hd : disciplined (fun e => exists a, ev_origin e = Action a) type_error
                 (let! targetSet := targetSetFor obj ev in
                  let! arguments :=
                    alloc (arguments_object (obj :: ev :: args)) in
                  do! iterateSet targetSet
                        (fun action (_ : unit) =>
                           let! r := invokeAction run action arguments
                           in ret (r, tt)) tt in
                  ret true)).
  { apply disciplined_bind; [by apply disciplined_targetSetFor|]. intros ts.
    apply disciplined_bind; [apply disciplined_alloc|]. intros p.
    apply disciplined_bind; [apply iterateSet_invokes_actions|].
    intros _. apply disciplined_ret. }
  destruct (Hd _ _ _ H) as (evs & Ht & _ & HP). by exists evs.
Qed.

(* ===================================================================== *)
(** ** The live actions after a removal *)
(* ===================================================================== *)

Lemma filter_all {A} (P : A -> bool) l :
  (forall x, In x l -> P x = true) -> List.filter P l = l.
Proof.
  induction l as [|x l IH]; intros H; [done|]. cbn [List.filter].
  rewrite (H x) by (by left). f_equal. apply IH. intros y Hy. apply H. by right.
Qed.

Lemma filter_flat_map_comm {A B} (P : B -> bool) (f : A -> list B) l :
  List.filter P (flat_map f l) = flat_map (fun x => List.filter P (f x)) l.
Proof.
  induction l as [|x l IH]; [done|]. cbn [flat_map].
  by rewrite List.filter_app, IH.
Qed.

Lemma tombstone_filter (g g' : string -> value) mg a ks :
  g mg = a -> truthy a = true ->
  (forall k, g' k = if decide (k = mg) then VNull else g k) ->
  (forall k, In k ks -> g k = a -> k = mg) ->
  List.filter truthy (map g' ks)
  = List.filter (fun v => negb (strict_eq v a)) (List.filter truthy (map g ks)).
Proof.
  intros Hg Ha Hg' Hinj. induction ks as [|k ks IH]; [done|].
  cbn [map List.filter]. rewrite Hg'.
  rewrite IH by (intros k' Hk'; apply Hinj; by right).
  destruct (decide (k = mg)) as [->|Hne]; cbn [truthy].
  - rewrite Hg, Ha. cbn [List.filter].
    replace (strict_eq a a) with true; [done|].
    symmetry. by apply bool_decide_eq_true_2.
  - destruct (truthy (g k)) eqn:Et; [|done]. cbn [List.filter].
    replace (strict_eq (g k) a) with false; [done|].
    symmetry. apply bool_decide_eq_false_2.
    intros E. apply Hne, Hinj; [by left|done].
Qed.

(** The entries of an action set in which one entry, held nowhere else in
    the set, has been tombstoned. *)
Lemma entries_tombstone h A mg a :
  NoDup (entries h (VObj A)) ->
  prop h (VObj A) mg = a -> truthy a = true -> SKIP_PROPERTIES mg = false ->
  entries (set_prop h (VObj A) mg VNull) (VObj A)
  = List.filter (fun v => negb (strict_eq v a)) (entries h (VObj A)).
Proof.
  intros Hnd Hp Ht Hs.
  assert (Hk : In mg (keys h (VObj A))).
  { apply prop_in_keys. rewrite Hp. by destruct a. }
  assert (HA : is_Some (h !! A)).
  { apply prop_is_object in Hp as (l & [= <-] & ?); [done|by destruct a]. }
  unfold entries, entries_over in *. rewrite keys_set_prop_present by done.
  apply (tombstone_filter _ _ mg); try done.
  - intros k. destruct (decide (k = mg)) as [->|Hne].
    + by apply prop_set_prop_same.
    + by apply prop_set_prop_other_key.
  - intros k Hin Hka.
    apply (NoDup_filter_map_inj truthy (prop h (VObj A))
             (List.filter (fun k => negb (SKIP_PROPERTIES k)) (keys h (VObj A))));
      try done.
    + apply filter_In. split; [done|]. by rewrite Hs.
    + congruence.
    + by rewrite Hka.
Qed.

(** The live actions of a target set after one of them, filed in one place,
    has been tombstoned: the others, in the same order. *)
Lemma live_actions_tombstone h ts A mg a :
  NoDup (live_actions h ts) ->
  In (VObj A) (action_sets h ts) -> ts ≠ VObj A ->
  prop h (VObj A) mg = a -> truthy a = true -> SKIP_PROPERTIES mg = false ->
  live_actions (set_prop h (VObj A) mg VNull) ts
  = List.filter (fun v => negb (strict_eq v a)) (live_actions h ts).
Proof.
  intros Hnd HA Hne Hp Ht Hs. unfold live_actions at 1 2, action_sets at 1.
  rewrite entries_set_prop_other by done. fold (action_sets h ts).
  rewrite filter_flat_map_comm. apply flat_map_ext_on. intros A' HA'.
  assert (HaA : In a (entries h (VObj A))).
  { rewrite <- Hp. apply in_entries; try done; [|by rewrite Hp].
    apply prop_in_keys. rewrite Hp. by destruct a. }
  destruct (decide (A' = VObj A)) as [->|Hne'].
  - apply entries_tombstone; try done.
    by apply (NoDup_flat_map_part (entries h) (action_sets h ts)).
  - rewrite entries_set_prop_other by done. symmetry. apply filter_all.
    intros x Hx. unfold strict_eq. rewrite bool_decide_eq_false_2; [done|].
    intros ->.
    by apply (NoDup_flat_map_disjoint (entries h) (action_sets h ts) A' (VObj A) a).
Qed.

(** On a registry that the object owns, [removeListener] for a pair without
    a live entry writes nothing. *)
Lemma removeListener_absent run o ev target method t me h tr :
  quiet run -> normalize target method = (t, me) ->
  owned h (VObj o) (listener_set h (VObj o)) ->
  owned h (VObj o) (target_set h (VObj o) ev) ->
  owned h (VObj o) (action_set h (VObj o) ev t) ->
  truthy (registered h (VObj o) ev t me) = false ->
  exists evs,
    removeListener run (VObj o) ev target method (Machine h tr)
    = (Return tt, Machine h (tr ++ evs)).
Proof.
  intros Hrun Hn HoL HoT HoA Hreg.
  destruct (owned_object _ _ _ HoA) as [A EA].
  destruct (call_hook_quiet run o "didRemoveListener" [ev; t; me] h tr Hrun)
    as (evs & Eh & _).
  exists evs. unfold removeListener. rewrite Hn. cbn [fst snd].
  unfold bind at 1.
  rewrite (actionSetFor_present o ev t true (Machine h tr)) by done.
  cbn [heap]. rewrite EA. cbn beta iota. cbn [truthy].
  unfold bind at 1 2, get_prop, read. cbn beta iota. cbn [heap].
  unfold registered in Hreg. rewrite EA in Hreg. rewrite Hreg.
  unfold ret. cbn beta iota. exact Eh.
Qed.

(** [removeListener] for a registered action: the tombstone, and the
    registry read back. *)
Lemma removeListener_present run o ev target method t me h tr :
  let obj := VObj o in
  let A := action_set h obj ev t in
  let h' := set_prop h A (guidFor me) VNull in
  quiet run -> normalize target method = (t, me) ->
  owned h obj (listener_set h obj) ->
  owned h obj (target_set h obj ev) ->
  owned h obj A ->
  truthy (registered h obj ev t me) = true ->
  A ≠ listener_set h obj ->
  A ≠ target_set h obj ev ->
  (exists evs,
      removeListener run obj ev target method (Machine h tr)
      = (Return tt, Machine h' (tr ++ evs))) /\
  listener_set h' obj = listener_set h obj /\
  target_set h' obj ev = target_set h obj ev /\
  action_set h' obj ev t = A /\
  registered h' obj ev t me = VNull /\
  (forall v, owned h obj v -> owned h' obj v).
Proof.
  intros obj A h' Hrun Hn HoL HoT HoA Hreg HAL HAT. subst obj.
  destruct (owned_object _ _ _ HoA) as [A0 EA].
  assert (EA' : action_set h (VObj o) ev t = VObj A0) by exact EA.
  assert (Eh' : h' = set_prop h (VObj A0) (guidFor me) VNull)
    by (unfold h'; by rewrite EA).
  assert (HA0 : is_Some (h !! A0)).
  { unfold registered in Hreg. rewrite EA' in Hreg.
    destruct (prop_is_object h (VObj A0) (guidFor me) _ eq_refl)
      as (l & [= <-] & ?); [|done]. intros E. by rewrite E in Hreg. }
  assert (Ets : target_set h' (VObj o) ev = target_set h (VObj o) ev).
  { rewrite Eh'. apply target_set_set_prop. rewrite <- EA. congruence. }
  assert (Eas : action_set h' (VObj o) ev t = VObj A0).
  { unfold action_set. rewrite Ets, Eh', prop_set_prop_other; [done|].
    rewrite <- EA. congruence. }
  split; [|split; [|split; [|split; [|split]]]].
  - destruct (call_hook_quiet run o "didRemoveListener" [ev; t; me] h' tr Hrun)
      as (evs & Eh & _).
    exists evs.
    rewrite (removeListener_registered run o ev target method (Machine h tr)
               t me A0); cbn [heap trace].
    + by rewrite <- Eh'.
    + done.
    + rewrite (actionSetFor_present o ev t true (Machine h tr)) by done.
      cbn [heap]. by rewrite EA'.
    + unfold registered in Hreg. by rewrite EA' in Hreg.
  - rewrite Eh'. apply listener_set_set_prop.
  - done.
  - by rewrite Eas, <- EA.
  - unfold registered. rewrite Eas, Eh'. by apply prop_set_prop_same.
  - intros v Hv. unfold owned. rewrite Eh', prop_set_prop_other_key; [done|].
    intros E. by apply (guidFor_not_source me).
Qed.

(* ===================================================================== *)
(** ** Hooks and listeners that cannot be called *)
(* ===================================================================== *)

Lemma call_hook_present run o name args h tr f :
  prop h (VObj o) name = VFun f ->
  let c := Apply f (VObj o) args in
  call_hook run (VObj o) name args (Machine h tr)
  = (match fst (run c h) with Return _ => Return tt | Throw e => Throw e end,
     Machine (snd (run c h)) (tr ++ [Event Hook c h (fst (run c h))])).
Proof.
  intros Hf c. unfold call_hook, bind at 1, get_prop, read. cbn beta iota.
  cbn [heap]. rewrite Hf. cbn [is_function].
  unfold bind, apply_fn, invoke, ret. cbn [heap trace]. fold c.
  by destruct (run c h) as [[v|e] h1].
Qed.

Lemma call_hook_absent run o name args m :
  is_function (prop (heap m) (VObj o) name) = false ->
  call_hook run (VObj o) name args m = (Return tt, m).
Proof.
  intros Hf. unfold call_hook, bind at 1, get_prop, read. cbn beta iota.
  by rewrite Hf.
Qed.

(** [addListener] of a pair that is not registered comes to the hook, run
    on the heap where the record is filed. *)
Lemma addListener_then_hook run o ev target method x t me h tr :
  truthy ev = true ->
  normalize target method = (t, me) ->
  tidy h o ev t me ->
  truthy (registered h (VObj o) ev t me) = false ->
  exists h2 a,
    addListener run (VObj o) ev target method x (Machine h tr)
    = call_hook run (VObj o) "didAddListener" [ev; t; me] (Machine h2 tr) /\
    settled h2 (VObj o) ev t me a /\
    pair_of h2 (VObj a) = (t, me) /\
    prop h2 (VObj a) "xform" = x.
Proof.
  intros Hev Hn Htidy Hreg.
  pose proof Htidy as (Ho & Hkev & Hown & Hnd & Hact & _).
  destruct (actionSetFor_own o ev t h tr Ho Hkev Hown Hnd)
    as (h1 & L1 & T1 & A1 & Eset & Hens).
  pose proof Hens as (_ & _ & _ & _ & Hslot & _).
  destruct (fresh_record h h1 o ev t me L1 T1 A1 (action_record t me x) Hens Hact)
    as (Hset & Hrec & _).
  set (h2 := set_prop (h1 ++ [action_record t me x]) (VObj A1) (guidFor me)
               (VObj (length h1))) in *.
  exists h2, (length h1). split; [|split; [done|split]].
  - unfold addListener. rewrite Hn. simpl. rewrite Hev. simpl.
    unfold bind at 1. simpl. unfold bind at 1. rewrite Eset. simpl.
    unfold bind at 1 2, read. simpl.
    rewrite Hslot by apply guidFor_not_source.
    fold (registered h (VObj o) ev t me). rewrite Hreg. by simpl.
  - unfold pair_of. by rewrite !Hrec.
  - by rewrite Hrec.
Qed.

(** Registering the first listener of an event leaves a registry with that
    one entry. *)
Lemma addListener_first run o ev target method x t me h tr :
  quiet run -> truthy ev = true -> normalize target method = (t, me) ->
  tidy h o ev t me ->
  truthy (target_set h (VObj o) ev) = false ->
  exists h2 T A a evs,
    addListener run (VObj o) ev target method x (Machine h tr)
    = (Return tt, Machine h2 (tr ++ evs)) /\
    settled h2 (VObj o) ev t me a /\
    lone h2 (VObj o) ev T A (guidFor t) (guidFor me) (VObj a) /\
    (forall k, prop h2 (VObj a) k = alookup k (props (action_record t me x))).
Proof.
  intros Hrun Hev Hn Htidy Hts.
  assert (Hreg : truthy (registered h (VObj o) ev t me) = false).
  { unfold registered, action_set.
    rewrite (prop_falsy h (target_set h (VObj o) ev)) by done.
    by rewrite prop_falsy. }
  destruct (addListener_new run o ev target method x t me h tr)
    as (h1 & L1 & T1 & A1 & evs & Hens & E & _); try done.
  destruct Htidy as (_ & _ & _ & _ & Hown & _).
  destruct (fresh_record h h1 o ev t me L1 T1 A1 (action_record t me x) Hens Hown)
    as (Hset & Hrec & Hlone).
  eexists _, T1, A1, (length h1), evs. split; [apply E|].
  split; [done|]. split; [by apply Hlone|done].
Qed.

(** A fire on a registry whose one entry cannot be invoked raises, after
    the hook and without invoking anything. *)
Lemma sendEvent_lone_uncallable run o ev args h tr T A tg mg a :
  let cell := arguments_object (VObj o :: ev :: args) in
  quiet run ->
  SKIP_PROPERTIES tg = false -> SKIP_PROPERTIES mg = false ->
  lone h (VObj o) ev T A tg mg (VObj a) ->
  planned (h ++ [cell]) (VObj a) (VObj (length h)) = None ->
  exists evs,
    sendEvent run (VObj o) ev args (Machine h tr)
    = (Throw TypeError, Machine (h ++ [cell]) (tr ++ evs)) /\
    invoked evs = [].
Proof.
  intros cell Hrun Htg Hmg (Hts & HkT & HpT & HkA & HpA) Hpl.
  destruct (custom_send_quiet run o (ev :: args) h tr Hrun) as (evs1 & E1 & Hh).
  assert (HkT' : keys (h ++ [cell]) (VObj T) = [SOURCE_KEY; tg])
    by (unfold cell, arguments_object; by rewrite keys_blank_cell).
  assert (HpT' : prop (h ++ [cell]) (VObj T) tg = VObj A)
    by (unfold cell, arguments_object; by rewrite prop_blank_cell).
  assert (HkA' : keys (h ++ [cell]) (VObj A) = [SOURCE_KEY; mg])
    by (unfold cell, arguments_object; by rewrite keys_blank_cell).
  assert (HpA' : prop (h ++ [cell]) (VObj A) mg = VObj a)
    by (unfold cell, arguments_object; by rewrite prop_blank_cell).
  exists evs1. split; [|by apply invoked_hooks].
  unfold sendEvent, bind at 1. rewrite E1. cbn beta iota.
  unfold bind at 1. rewrite targetSetFor_object. cbn beta iota. cbn [heap].
  rewrite Hts. unfold bind at 1, alloc. cbn beta iota. cbn [heap trace].
  fold cell.
  unfold bind at 1, iterateSet. cbn [truthy negb].
  unfold bind at 1, read. cbn beta iota. cbn [heap]. rewrite HkT'.
  cbn [iterate_targets].
  change (SKIP_PROPERTIES SOURCE_KEY) with true. cbn beta iota. rewrite Htg.
  unfold bind at 1, read. cbn beta iota. cbn [heap]. rewrite HpT'.
  cbn [truthy]. unfold bind at 1, read. cbn beta iota. cbn [heap].
  rewrite HkA'. unfold bind at 1. cbn [iterate_actions].
  change (SKIP_PROPERTIES SOURCE_KEY) with true. cbn beta iota. rewrite Hmg.
  unfold bind at 1, read. cbn beta iota. cbn [heap]. rewrite HpA'.
  cbn [truthy]. unfold bind at 1 2.
  rewrite invokeAction_planned. cbn [heap]. by rewrite Hpl.
Qed.

(* ===================================================================== *)
(** ** Tombstone and restore *)
(* ===================================================================== *)

Lemma aset_restore k y ps :
  In k (map fst ps) -> aset k (alookup k ps) (aset k y ps) = ps.
Proof.
  induction ps as [|[k' v'] ps IH]; [done|]. cbn [map fst In aset alookup].
  intros Hin. destruct (String.eqb k k') eqn:Ek.
  - cbn [aset]. rewrite String.eqb_refl. apply String.eqb_eq in Ek. by subst.
  - cbn [aset]. rewrite Ek. f_equal. apply IH.
    destruct Hin as [->|Hin]; [|done]. by rewrite String.eqb_refl in Ek.
Qed.

(** Writing a property that exists and then writing its old value back
    gives the heap back, cell for cell. *)
Lemma set_prop_restore h l k y :
  In k (keys h (VObj l)) ->
  set_prop (set_prop h (VObj l) k y) (VObj l) k (prop h (VObj l) k) = h.
Proof.
  unfold keys, prop, set_prop at 2. intros Hin.
  destruct (h !! l) as [ob|] eqn:El; [|done].
  unfold set_prop. rewrite list_lookup_insert_eq by (by eapply lookup_lt_Some).
  cbn [props meta]. rewrite list_insert_insert_eq, aset_restore by done.
  apply list_insert_id. by destruct ob.
Qed.

(** [suspendListener] for a registered action of a registry that the object
    owns: the body, run on the heap with the tombstone, then the restore. *)
Lemma suspendListener_unfold run o ev target method callback t me a A h tr :
  normalize target method = (t, me) ->
  owned h (VObj o) (listener_set h (VObj o)) ->
  owned h (VObj o) (target_set h (VObj o) ev) ->
  owned h (VObj o) (action_set h (VObj o) ev t) ->
  action_set h (VObj o) ev t = VObj A ->
  registered h (VObj o) ev t me = VObj a ->
  suspendListener run (VObj o) ev target method callback (Machine h tr)
  = try_finally (method_call run Body callback t)
      (fun m => Machine (set_prop (heap m) (VObj A) (guidFor me) (VObj a))
                  (trace m))
      (Machine (set_prop h (VObj A) (guidFor me) VNull) tr).
Proof.
  intros Hn HoL HoT HoA EA Hreg.
  unfold suspendListener. rewrite Hn. cbn [fst snd].
  unfold bind at 1.
  rewrite (actionSetFor_present o ev t true (Machine h tr)) by done.
  cbn [heap]. rewrite EA. cbn [truthy].
  unfold bind at 1, get_prop, read. cbn beta iota. cbn [heap].
  unfold registered in Hreg. rewrite EA in Hreg. rewrite Hreg.
  by unfold bind at 1, put_prop, write.
Qed.

(* ===================================================================== *)
(** ** What a call was made with *)
(* ===================================================================== *)

Lemma planned_called_with params full e :
  well_called params e ->
  (forall a, ev_origin e = Action a -> arg_list (ev_heap e) params = full) ->
  called_with params full e.
Proof.
  intros Hw Hf a Ho. specialize (Hw a Ho). specialize (Hf a Ho).
  cbv zeta. split; [done|]. unfold planned in Hw.
  destruct (is_string _ && nullish _); [done|].
  split; intros Hx; rewrite Hx in Hw.
  - destruct (prop (ev_heap e) a "xform") as [| | | | | |g]; try done.
    injection Hw as <-. by exists g.
  - intros f Hm. rewrite Hm in Hw. injection Hw as <-. by rewrite Hf.
Qed.



(* ===================================================================== *)
(** ** The claims *)
(* ===================================================================== *)

(** C6.  When a call made by [sendEvent] raises, it is the last call of that
    fire: no further action is invoked, and [sendEvent] ends with the very
    exception the listener raised. *)
Theorem sendEvent_fail_fast run obj eventName args m r m' :
  sendEvent run obj eventName args m = (r, m') ->
  exists evs,
    trace m' = trace m ++ evs /\
    forall pre e post x,
      evs = pre ++ e :: post -> ev_result e = Throw x ->
      post = [] /\ r = Throw x.
Proof.
  intros H. apply disciplined_sendEvent in H as (evs & Ht & Hf & _).
  exists evs. split; [done|]. intros pre e post x.
  by apply (fail_fast_split type_error).
Qed.

Lemma sendEvent_fail_fast_witness :
  exists evs,
    trace (snd (sendEvent raising_run the_obj (VStr "e") [] two_listeners))
    = trace two_listeners ++ evs /\
    forall pre e post x,
      evs = pre ++ e :: post -> ev_result e = Throw x ->
      post = [] /\
      fst (sendEvent raising_run the_obj (VStr "e") [] two_listeners) = Throw x.
Proof.
  eapply (sendEvent_fail_fast raising_run the_obj (VStr "e") [] two_listeners).
  apply surjective_pairing.
Defined.

(** C9 (as amended).  [sendEvent(obj, eventName, ...args)] makes its
    invocations with one arguments object, passed by reference, and every
    invocation is made as planned on the heap of that moment.  As long as
    user code does not write to that object, it holds the full list
    [obj :: eventName :: args] at every invocation: the method of an action
    without a transform is applied to the receiver with that list, and a
    transform is called with the receiver, the method and the arguments
    object holding that list.  And the live actions are invoked: when user
    code leaves the registry alone, the actions invoked are the live actions
    in registry order, all of them when the fire returns. *)
Theorem sendEvent_passes_full_arguments run obj eventName args m r m' :
  sendEvent run obj eventName args m = (r, m') ->
  exists p evs,
    trace m' = trace m ++ evs /\
    Forall (well_called (VObj p)) evs /\
    (preserves run [p] ->
     Forall (called_with (VObj p) (obj :: eventName :: args)) evs) /\
    (preserves run (registry (heap m) obj eventName) ->
     keeps_listener_set run obj ->
     progress r (live_actions (heap m) (target_set (heap m) obj eventName))
       (invoked evs)).
Proof.
  intros H. pose proof H as H'.
  apply sendEvent_calls in H as (p & evs & Ht & Hw & Hfull).
  exists p, evs. split; [done|]. split; [done|]. split.
  - intros Hp. specialize (Hfull Hp). rewrite Forall_forall in Hw, Hfull.
    apply Forall_forall. intros e He.
    apply planned_called_with; [by apply Hw|by apply Hfull].
  - intros Hreg Hk.
    apply sendEvent_registry in H' as (evs' & Ht' & Hprog); [|done..].
    rewrite Ht in Ht'. by apply app_inv_head in Ht' as <-.
Qed.

Lemma sendEvent_passes_full_arguments_witness :
  exists p evs,
    trace (snd (sendEvent quiet_run the_obj (VStr "e") [VNum 7] with_transform))
    = trace with_transform ++ evs /\
    Forall (well_called (VObj p)) evs /\
    (preserves quiet_run [p] ->
     Forall (called_with (VObj p) [the_obj; VStr "e"; VNum 7]) evs) /\
    (preserves quiet_run (registry (heap with_transform) the_obj (VStr "e")) ->
     keeps_listener_set quiet_run the_obj ->
     progress
       (fst (sendEvent quiet_run the_obj (VStr "e") [VNum 7] with_transform))
       (live_actions (heap with_transform)
          (target_set (heap with_transform) the_obj (VStr "e")))
       (invoked evs)).
Proof.
  eapply (sendEvent_passes_full_arguments quiet_run the_obj (VStr "e") [VNum 7]
           with_transform).
  apply surjective_pairing.
Defined.

(** C9 as stated fails when a transform writes to the arguments object it
    is handed.  On [transform_first] the transform [f3] is called first and
    sets [params[2] = 99]; [sendEvent(the_obj, "e", 7)] then applies the
    method [f1] of the second action, which has no transform, to
    [(the_obj, "e", 99)] and not to the argument list of [sendEvent]. *)
Lemma later_listener_gets_rewritten_arguments :
  exists p,
    map ev_call
      (trace (snd (sendEvent scribbling_run the_obj (VStr "e") [VNum 7]
                     transform_first)))
    = [CallXform 3 the_obj (VFun 2) (VObj p);
       Apply 1 the_obj [the_obj; VStr "e"; VNum 99]] /\
    prop (heap transform_first)
      (registered (heap transform_first) the_obj (VStr "e") VNull (VFun 1))
      "xform" = VUndefined.
Proof. eexists. split; vm_compute; reflexivity. Qed.

(** C1 (as amended).  When user code does not mutate the registry of
    [(obj, eventName)] during the fire, that is, the object keeps its
    listener set and the listener set, the target set and the action sets of
    the event keep what they hold, and the fire returns, that is, no call
    raises, [sendEvent] has invoked the live actions of the registry, entry
    by entry in registry order, and nothing else: no entry is skipped, none
    is visited twice, and every action is invoked as often as the registry
    files it. *)
Theorem sendEvent_invokes_each_live_action_once run obj eventName args m b m' :
  preserves run (registry (heap m) obj eventName) ->
  keeps_listener_set run obj ->
  sendEvent run obj eventName args m = (Return b, m') ->
  exists evs,
    trace m' = trace m ++ evs /\
    invoked evs = live_actions (heap m) (target_set (heap m) obj eventName) /\
    forall a,
      count_occ value_eq_dec (invoked evs) a
      = count_occ value_eq_dec
          (live_actions (heap m) (target_set (heap m) obj eventName)) a.
Proof.
  intros Hrun Hk H.
  apply sendEvent_registry in H as (evs & Ht & rest & Hi & Hnil); [|done..].
  rewrite (Hnil b), app_nil_r in Hi by done.
  exists evs. split; [done|]. split; [done|]. intros a. by rewrite Hi.
Qed.

Lemma sendEvent_invokes_each_live_action_once_witness :
  exists evs,
    trace (snd (sendEvent quiet_run the_obj (VStr "e") [VNum 7] two_listeners))
    = trace two_listeners ++ evs /\
    invoked evs
    = live_actions (heap two_listeners)
        (target_set (heap two_listeners) the_obj (VStr "e")) /\
    forall a,
      count_occ value_eq_dec (invoked evs) a
      = count_occ value_eq_dec
          (live_actions (heap two_listeners)
             (target_set (heap two_listeners) the_obj (VStr "e"))) a.
Proof.
  apply (sendEvent_invokes_each_live_action_once quiet_run the_obj (VStr "e")
           [VNum 7] two_listeners true).
  - intros c h l _. reflexivity.
  - intros c h. reflexivity.
  - vm_compute. reflexivity.
Defined.

(** C1 as stated fails: user code that changes nothing on the heap, two live
    actions, the first raises, and the second, [VObj 6], is never invoked. *)
Lemma sendEvent_skips_after_raise :
  preserves raising_run (registry (heap two_listeners) the_obj (VStr "e")) /\
  keeps_listener_set raising_run the_obj /\
  In (VObj 6) (live_actions (heap two_listeners)
                 (target_set (heap two_listeners) the_obj (VStr "e"))) /\
  count_occ value_eq_dec
    (invoked (trace (snd (sendEvent raising_run the_obj (VStr "e") []
                            two_listeners))))
    (VObj 6) = 0.
Proof.
  split; [|split; [|split]].
  - intros c h l _. unfold raising_run.
    destruct c as [[|[|f]] this args|]; reflexivity.
  - intros c h. unfold raising_run.
    destruct c as [[|[|f]] this args|]; reflexivity.
  - vm_compute. auto.
  - vm_compute. reflexivity.
Qed.

(** C8 (as amended).  [addListener] raises [InvalidArgument] at once, before
    it touches anything, when the object or the event name is missing or
    falsy.  [removeListener] and [sendEvent] have no such check: what they
    raise by themselves is a [TypeError], any other exception is one that
    user code raised. *)
Theorem argument_checks :
  (forall run obj eventName target method xform m,
      truthy obj && truthy eventName = false ->
      exists desc,
        addListener run obj eventName target method xform m
        = (Throw (InvalidArgument desc), m)) /\
  (forall run obj eventName target method m r m',
      removeListener run obj eventName target method m = (r, m') ->
      exists evs, trace m' = trace m ++ evs /\ fail_fast type_error r evs) /\
  (forall run obj eventName args m r m',
      sendEvent run obj eventName args m = (r, m') ->
      exists evs, trace m' = trace m ++ evs /\ fail_fast type_error r evs).
Proof.
  split; [|split].
  - intros run obj eventName target method xform m Hfalsy.
    unfold addListener, bind at 1. rewrite Hfalsy. simpl. by eexists.
  - intros run obj eventName target method m r m' H.
    apply (disciplined_removeListener (fun _ => True) type_error) in H
      as (evs & Ht & Hf & _); [by exists evs|done..].
  - intros run obj eventName args m r m' H.
    apply disciplined_sendEvent in H as (evs & Ht & Hf & _). by exists evs.
Qed.

Lemma argument_checks_witness :
  (exists desc,
      addListener quiet_run VUndefined (VStr "e") (VFun 1) VUndefined VUndefined
        start
      = (Throw (InvalidArgument desc), start)) /\
  (exists evs,
      trace (snd (removeListener quiet_run the_obj VUndefined (VFun 1)
                    VUndefined one_listener))
      = trace one_listener ++ evs /\
      fail_fast type_error
        (fst (removeListener quiet_run the_obj VUndefined (VFun 1) VUndefined
                one_listener)) evs) /\
  (exists evs,
      trace (snd (sendEvent quiet_run VUndefined (VStr "e") [] one_listener))
      = trace one_listener ++ evs /\
      fail_fast type_error
        (fst (sendEvent quiet_run VUndefined (VStr "e") [] one_listener)) evs).
Proof.
  destruct argument_checks as (Hadd & Hremove & Hsend).
  split; [|split].
  - apply Hadd. reflexivity.
  - eapply Hremove. apply surjective_pairing.
  - eapply Hsend. apply surjective_pairing.
Defined.

(** C8 as stated fails for [removeListener] and [sendEvent]: without an
    event name both return, and without an object [sendEvent] raises a
    [TypeError], not [InvalidArgument]. *)
Lemma unchecked_arguments :
  fst (sendEvent quiet_run the_obj (VStr "") [] one_listener) = Return true /\
  fst (sendEvent quiet_run the_obj VUndefined [] one_listener) = Return true /\
  fst (removeListener quiet_run the_obj (VStr "") (VFun 1) VUndefined
         one_listener) = Return tt /\
  fst (removeListener quiet_run the_obj VUndefined (VFun 1) VUndefined
         one_listener) = Return tt /\
  fst (sendEvent quiet_run VUndefined (VStr "e") [] one_listener)
  = Throw TypeError.
Proof. vm_compute. auto. Qed.







(** C5.  On a registry that the object owns: once [removeListener] has run
    for a registered action, a [sendEvent] on the same object and event does
    not invoke that action, as long as user code leaves the registry alone;
    and [removeListener] returns for any pair, registered or not, when the
    hook it calls does not raise. *)
Theorem removed_listener_stays_silent :
  (forall run o eventName target method t me args m r m1 r2 m2,
      let obj := VObj o in
      let h := heap m in
      normalize target method = (t, me) ->
      owned h obj (listener_set h obj) ->
      owned h obj (target_set h obj eventName) ->
      owned h obj (action_set h obj eventName t) ->
      truthy (registered h obj eventName t me) = true ->
      action_set h obj eventName t ≠ listener_set h obj ->
      action_set h obj eventName t ≠ target_set h obj eventName ->
      NoDup (live_actions h (target_set h obj eventName)) ->
      preserves run (footprint h obj eventName) ->
      removeListener run obj eventName target method m = (r, m1) ->
      sendEvent run obj eventName args m1 = (r2, m2) ->
      exists evs,
        trace m2 = trace m1 ++ evs /\
        ~ In (registered h obj eventName t me) (invoked evs)) /\
  (forall run o eventName target method t me m,
      total run ->
      normalize target method = (t, me) ->
      is_Some (heap m !! o) ->
      to_key eventName ≠ SOURCE_KEY ->
      own_path (VObj o) (heap m) (MetaOf o) (listener_path eventName t) = true ->
      exists m',
        removeListener run (VObj o) eventName target method m = (Return tt, m')).
Proof.
  split.
  - intros. by eapply removed_is_never_invoked.
  - intros. by eapply removeListener_returns.
Qed.

Lemma removed_listener_stays_silent_witness :
  (exists evs,
      trace (snd (sendEvent quiet_run the_obj (VStr "e") []
                    (after (removeListener quiet_run the_obj (VStr "e") (VFun 1)
                              VUndefined) two_listeners)))
      = trace (after (removeListener quiet_run the_obj (VStr "e") (VFun 1)
                        VUndefined) two_listeners) ++ evs /\
      ~ In (registered (heap two_listeners) the_obj (VStr "e") VNull (VFun 1))
          (invoked evs)) /\
  (exists m',
      removeListener quiet_run the_obj (VStr "e") (VFun 9) VUndefined
        two_listeners = (Return tt, m')).
Proof.
  destruct removed_listener_stays_silent as [Hsilent Hreturns]. split.
  - eapply (Hsilent quiet_run 1 (VStr "e") (VFun 1) VUndefined VNull (VFun 1) []
              two_listeners).
    + reflexivity.
    + vm_compute. reflexivity.
    + vm_compute. reflexivity.
    + vm_compute. reflexivity.
    + vm_compute. reflexivity.
    + by vm_compute.
    + by vm_compute.
    + apply (bool_decide_unpack _). vm_compute. exact I.
    + intros c h l _. reflexivity.
    + apply surjective_pairing.
    + apply surjective_pairing.
  - apply (Hreturns quiet_run 1 (VStr "e") (VFun 9) VUndefined VNull (VFun 9)).
    + intros c h. by exists VUndefined.
    + reflexivity.
    + vm_compute. by eexists.
    + by vm_compute.
    + vm_compute. reflexivity.
Defined.

(** C4.  On a tidy registry and with hooks that change nothing, registering
    the same [(eventName, target, method)] twice, with the transforms [x1]
    and then [x2], ends with one action record [a] filed for that identity:
    the record the first registration left there, its transform now [x2].
    The second registration creates nothing: the live actions of the event
    are the same before and after it. *)
Theorem second_registration_overwrites_transform
    run o eventName target method t me x1 x2 m :
  let obj := VObj o in
  quiet run ->
  truthy eventName = true ->
  normalize target method = (t, me) ->
  tidy (heap m) o eventName t me ->
  exists m1 m2 a,
    addListener run obj eventName target method x1 m = (Return tt, m1) /\
    addListener run obj eventName target method x2 m1 = (Return tt, m2) /\
    registered (heap m1) obj eventName t me = VObj a /\
    registered (heap m2) obj eventName t me = VObj a /\
    prop (heap m2) (VObj a) "xform" = x2 /\
    In (VObj a) (live_actions (heap m2) (target_set (heap m2) obj eventName)) /\
    live_actions (heap m2) (target_set (heap m2) obj eventName)
    = live_actions (heap m1) (target_set (heap m1) obj eventName).
Proof.
  intros obj. subst obj. intros Hrun Hev Hn Htidy. destruct m as [h tr].
  simpl in Htidy.
  assert (Hfirst : exists h1 tr1 a,
             addListener run (VObj o) eventName target method x1 (Machine h tr)
             = (Return tt, Machine h1 tr1) /\
             settled h1 (VObj o) eventName t me a).
  { destruct (truthy (registered h (VObj o) eventName t me)) eqn:Hreg.
    - destruct Htidy as (_ & _ & _ & _ & _ & Hset).
      destruct (Hset Hreg) as [a Ha].
      destruct (addListener_settled run o eventName target method x1 t me a h tr)
        as (evs & E & _); try done.
      eexists _, _, a. split; [apply E|].
      by apply settled_xform.
    - destruct (addListener_new run o eventName target method x1 t me h tr)
        as (h1 & L1 & T1 & A1 & evs & Hens & E & _); try done.
      destruct Htidy as (_ & _ & _ & _ & Hown & _).
      eexists _, _, (length h1). split; [apply E|].
      by apply (fresh_record h h1 o eventName t me L1 T1 A1). }
  destruct Hfirst as (h1 & tr1 & a & E1 & Hset1).
  destruct (addListener_settled run o eventName target method x2 t me a h1 tr1)
    as (evs & E2 & _); try done.
  destruct (settled_xform h1 (VObj o) eventName t me a x2 Hset1)
    as (Hset2 & Hx & _ & Hts & Hlive).
  eexists _, _, a. split; [apply E1|]. split; [apply E2|]. simpl.
  pose proof Hset1 as (_ & _ & _ & Hreg1 & _).
  pose proof Hset2 as (_ & _ & HA2 & Hreg2 & _).
  repeat split; try done.
  assert (Hin : In (registered (set_prop h1 (VObj a) "xform" x2) (VObj o) eventName t me)
                  (live_actions (set_prop h1 (VObj a) "xform" x2)
                     (target_set (set_prop h1 (VObj a) "xform" x2) (VObj o) eventName))).
  { apply registered_is_live; [by rewrite Hreg2|].
    by destruct (owned_object _ _ _ HA2) as [A ->]. }
  by rewrite Hreg2 in Hin.
Qed.

Lemma second_registration_overwrites_transform_witness :
  exists m1 m2 a,
    addListener quiet_run the_obj (VStr "e") (VFun 1) VUndefined (VFun 3) start
    = (Return tt, m1) /\
    addListener quiet_run the_obj (VStr "e") (VFun 1) VUndefined (VFun 4) m1
    = (Return tt, m2) /\
    registered (heap m1) the_obj (VStr "e") VNull (VFun 1) = VObj a /\
    registered (heap m2) the_obj (VStr "e") VNull (VFun 1) = VObj a /\
    prop (heap m2) (VObj a) "xform" = VFun 4 /\
    In (VObj a) (live_actions (heap m2) (target_set (heap m2) the_obj (VStr "e"))) /\
    live_actions (heap m2) (target_set (heap m2) the_obj (VStr "e"))
    = live_actions (heap m1) (target_set (heap m1) the_obj (VStr "e")).
Proof.
  apply (second_registration_overwrites_transform quiet_run 1 (VStr "e")
           (VFun 1) VUndefined VNull (VFun 1) (VFun 3) (VFun 4) start).
  - intros c h. by exists VUndefined.
  - reflexivity.
  - reflexivity.
  - unfold tidy. split; [vm_compute; by eexists|].
    split; [by vm_compute|]. split; [vm_compute; reflexivity|].
    split; [apply (bool_decide_unpack _); vm_compute; exact I|].
    split; [vm_compute; constructor|].
    intros H. vm_compute in H. discriminate.
Defined.

(** C3.  A body that only asks [hasListeners] loses the suspended listener.
    On [one_listener] the single action of ["e"] is the record [VObj 5],
    filed in the action set [VObj 4], and a fire invokes it.
    [suspendListener(the_obj, "e", f1, undefined, f9)], where [f9] calls
    [hasListeners(the_obj, "e")], returns the body's result; but
    [hasListeners], finding the only action tombstoned, sets [listeners["e"]]
    to [null], and the [finally] clause puts the record back into the action
    set it captured, [VObj 4], which the registry no longer reaches.
    Afterwards nothing is registered for the listener, the event has no live
    action and a fire invokes nothing. *)
Theorem suspended_listener_lost_to_hasListeners :
  let fire m := invoked (trace (after (sendEvent probing_run the_obj (VStr "e") [])
                                  (Machine (heap m) []))) in
  registered (heap one_listener) the_obj (VStr "e") VNull (VFun 1) = VObj 5 /\
  fire one_listener = [VObj 5] /\
  fst (suspendListener probing_run the_obj (VStr "e") (VFun 1) VUndefined
         (VFun 9) one_listener) = Return VUndefined /\
  prop (heap suspended) (VObj 4) (guidFor (VFun 1)) = VObj 5 /\
  prop (heap suspended) (listener_set (heap suspended) the_obj) "e" = VNull /\
  registered (heap suspended) the_obj (VStr "e") VNull (VFun 1) = VUndefined /\
  live_actions (heap suspended) (target_set (heap suspended) the_obj (VStr "e"))
  = [] /\
  fire suspended = [].
Proof.
  vm_compute. repeat split.
Qed.

(** C7.  On an object whose listener set, if it has one, is its own, with an
    event that has no live action and hooks that change nothing:
    [hasListeners] answers [false]; after one [addListener] it answers
    [true], and writes nothing; after the [removeListener] of that listener
    it answers [false] again.  The clean-up made by the negative answers is
    not in the way of what follows: an [addListener] of a callable listener
    succeeds, the action it files is registered, and a [sendEvent] invokes
    exactly that action and returns [true]. *)
Theorem hasListeners_tracks_live_actions
    run o eventName target method xform target' method' xform' t' f args m :
  let obj := VObj o in
  quiet run ->
  truthy eventName = true ->
  to_key eventName ≠ SOURCE_KEY ->
  is_Some (heap m !! o) ->
  own_path obj (heap m) (MetaOf o) ["listeners"] = true ->
  live_actions (heap m) (target_set (heap m) obj eventName) = [] ->
  normalize target' method' = (t', VFun f) ->
  (truthy xform' = true -> is_function xform' = true) ->
  exists m1 m2 m3 m4 m5 m6 a evs,
    hasListeners obj eventName m = (Return false, m1) /\
    addListener run obj eventName target method xform m1 = (Return tt, m2) /\
    hasListeners obj eventName m2 = (Return true, m2) /\
    removeListener run obj eventName target method m2 = (Return tt, m3) /\
    hasListeners obj eventName m3 = (Return false, m4) /\
    addListener run obj eventName target' method' xform' m4 = (Return tt, m5) /\
    registered (heap m5) obj eventName t' (VFun f) = VObj a /\
    sendEvent run obj eventName args m5 = (Return true, m6) /\
    trace m6 = trace m5 ++ evs /\
    invoked evs = [VObj a].
Proof.
  intros obj. subst obj. intros Hrun Hev Hk Ho Hown Hnone Hn' Hx'.
  destruct m as [h tr]. cbn [heap] in *.
  destruct (normalize target method) as [t me] eqn:Hn.
  destruct (hasListeners_cleanup o eventName h tr Ho Hk Hown Hnone)
    as (h1 & E1 & Hb1).
  destruct (addListener_blank run o eventName target method xform t me h1 tr
              Hrun Hev Hk Hn Hb1)
    as (h2 & T & A & a & evs2 & E2 & Hset2 & Hlone2 & _).
  pose proof (lone_live _ _ _ _ _ _ _ _ (guidFor_not_reserved t)
                (guidFor_not_reserved me) Hlone2) as Hlive2.
  cbn [truthy] in Hlive2.
  destruct (removeListener_lone run o eventName target method t me a T A h2
              (tr ++ evs2) Hrun Hn Hset2 Hlone2) as (evs3 & E3).
  destruct (lone_tombstone h2 o eventName t me a T A Hk Hset2 Hlone2)
    as (Hlone3 & Hown3 & Ho3).
  set (h3 := set_prop h2 (VObj A) (guidFor me) VNull) in *.
  pose proof (lone_live _ _ _ _ _ _ _ _ (guidFor_not_reserved t)
                (guidFor_not_reserved me) Hlone3) as Hlive3.
  cbn [truthy] in Hlive3.
  destruct (hasListeners_cleanup o eventName h3 ((tr ++ evs2) ++ evs3) Ho3 Hk
              (own_listeners _ _ Hown3) Hlive3) as (h4 & E4 & Hb4).
  destruct (addListener_blank run o eventName target' method' xform' t' (VFun f)
              h4 ((tr ++ evs2) ++ evs3) Hrun Hev Hk Hn' Hb4)
    as (h5 & T' & A' & a' & evs5 & E5 & Hset5 & Hlone5 & Hrec5).
  destruct (sendEvent_lone run o eventName args h5 (((tr ++ evs2) ++ evs3) ++ evs5)
              T' A' (guidFor t') (guidFor (VFun f)) a' f Hrun
              (guidFor_not_reserved t') (guidFor_not_reserved (VFun f)) Hlone5)
    as (evs & E6 & Hinv).
  { by rewrite Hrec5. }
  { by rewrite Hrec5. }
  eexists _, _, _, _, _, _, a', evs.
  split; [apply E1|]. split; [apply E2|].
  split; [apply hasListeners_found; cbn [heap]; by rewrite Hlive2|].
  split; [apply E3|]. split; [apply E4|]. split; [apply E5|].
  split; [by destruct Hset5 as (_ & _ & _ & ? & _)|].
  split; [apply E6|]. by split.
Qed.

Lemma hasListeners_tracks_live_actions_witness :
  exists m1 m2 m3 m4 m5 m6 a evs,
    hasListeners the_obj (VStr "e") start = (Return false, m1) /\
    addListener quiet_run the_obj (VStr "e") (VFun 1) VUndefined VUndefined m1
    = (Return tt, m2) /\
    hasListeners the_obj (VStr "e") m2 = (Return true, m2) /\
    removeListener quiet_run the_obj (VStr "e") (VFun 1) VUndefined m2
    = (Return tt, m3) /\
    hasListeners the_obj (VStr "e") m3 = (Return false, m4) /\
    addListener quiet_run the_obj (VStr "e") (VFun 2) VUndefined VUndefined m4
    = (Return tt, m5) /\
    registered (heap m5) the_obj (VStr "e") VNull (VFun 2) = VObj a /\
    sendEvent quiet_run the_obj (VStr "e") [VNum 7] m5 = (Return true, m6) /\
    trace m6 = trace m5 ++ evs /\
    invoked evs = [VObj a].
Proof.
  apply (hasListeners_tracks_live_actions quiet_run 1 (VStr "e") (VFun 1)
           VUndefined VUndefined (VFun 2) VUndefined VUndefined VNull 2
           [VNum 7] start).
  - intros c h. by exists VUndefined.
  - reflexivity.
  - by vm_compute.
  - vm_compute. by eexists.
  - vm_compute. reflexivity.
  - vm_compute. reflexivity.
  - reflexivity.
  - intros H. vm_compute in H. discriminate.
Defined.

(* ===================================================================== *)
(** ** Further properties of the event system *)
(* ===================================================================== *)

(** X1.  With a callback that only reads the heap, [iterateSet] is a left
    fold over the live actions of the target set, in the order of the keys,
    that stops at the first action for which the callback answers [true];
    it returns whether it stopped, and writes nothing. *)
Theorem iterateSet_folds_live_actions {S : Type}
    (callback : value -> S -> M (value * S))
    (f : Heap -> value -> S -> value * S) targetSet s m :
  (forall a s' m', callback a s' m' = (Return (f (heap m') a s'), m')) ->
  iterateSet targetSet callback s m
  = (Return (scan (f (heap m)) (live_actions (heap m) targetSet) s), m).
Proof. intros Hcb. by apply iterateSet_reads. Qed.

Lemma iterateSet_folds_live_actions_witness :
  iterateSet (VObj 3)
    (fun a (n : nat) => ret (VBool (bool_decide (a = VObj 6)), n + 1)) 0
    two_listeners
  = (Return (scan (fun a n => (VBool (bool_decide (a = VObj 6)), n + 1))
               (live_actions (heap two_listeners) (VObj 3)) 0), two_listeners).
Proof.
  apply (iterateSet_folds_live_actions
           (fun a (n : nat) => ret (VBool (bool_decide (a = VObj 6)), n + 1))
           (fun _ a n => (VBool (bool_decide (a = VObj 6)), n + 1))).
  intros a s' m'. reflexivity.
Defined.

(** X2.  [listenersFor(obj, eventName)] returns the [(target, method)]
    pairs of the live actions of the event, one per action and in the order
    in which [sendEvent] would invoke them; it changes nothing and calls
    nothing. *)
Theorem listenersFor_lists_live_actions o eventName m :
  listenersFor (VObj o) eventName m
  = (Return (map (pair_of (heap m))
               (live_actions (heap m) (target_set (heap m) (VObj o) eventName))),
     m).
Proof. apply listenersFor_object. Qed.

(** X3.  Once [hasListeners(obj, eventName)] has answered, for an event
    whose name is not one that [SKIP_PROPERTIES] holds (neither
    [__ember_source__] nor a name that the table inherits from
    [Object.prototype], such as [toString] or [constructor], all of which
    [watchedEvents] passes over), [watchedEvents] lists the event exactly
    when the answer was [true].  So an event with a live action is watched,
    and the clean-up of a negative answer takes the event off the list. *)
Theorem hasListeners_settles_watchedEvents o eventName m b m' :
  SKIP_PROPERTIES (to_key eventName) = false ->
  hasListeners (VObj o) eventName m = (Return b, m') ->
  exists ws,
    watchedEvents (VObj o) m' = (Return ws, m') /\
    (In (to_key eventName) ws <-> b = true).
Proof.
  intros Hk H. exists (watched (heap m') (VObj o)).
  split; [apply watchedEvents_object|].
  apply hasListeners_inv in H as [_ H]. destruct b.
  - destruct H as [-> Hl]. split; [done|]. intros _. by apply live_watched.
  - destruct H as (_ & L & HL & Hp). split; [|done].
    intros Hin. apply in_watched in Hin as (_ & _ & Ht).
    by rewrite HL, Hp in Ht.
Qed.

Lemma hasListeners_settles_watchedEvents_witness :
  (exists ws,
      watchedEvents the_obj
        (snd (hasListeners the_obj (VStr "e") two_listeners))
      = (Return ws, snd (hasListeners the_obj (VStr "e") two_listeners)) /\
      (In (to_key (VStr "e")) ws <-> true = true)) /\
  (exists ws,
      watchedEvents the_obj
        (snd (hasListeners the_obj (VStr "g") two_listeners))
      = (Return ws, snd (hasListeners the_obj (VStr "g") two_listeners)) /\
      (In (to_key (VStr "g")) ws <-> false = true)).
Proof.
  split.
  - apply (hasListeners_settles_watchedEvents 1 (VStr "e") two_listeners true).
    + reflexivity.
    + vm_compute. reflexivity.
  - apply (hasListeners_settles_watchedEvents 1 (VStr "g") two_listeners false).
    + reflexivity.
    + vm_compute. reflexivity.
Defined.

(** X4.  [removeListener] looks the action set up with [writable = true]:
    for a pair that is not registered, on a tidy registry, with hooks that
    change nothing and an event whose name is not one that
    [SKIP_PROPERTIES] holds (neither [__ember_source__] nor a name that the
    table inherits from [Object.prototype]), it removes nothing and nothing
    is registered afterwards, but the hashes of the path now exist, so that
    [watchedEvents] lists the event from then on, even on an object that
    never had a listener. *)
Theorem removeListener_makes_the_event_watched
    run o eventName target method t me m :
  quiet run ->
  normalize target method = (t, me) ->
  tidy (heap m) o eventName t me ->
  SKIP_PROPERTIES (to_key eventName) = false ->
  truthy (registered (heap m) (VObj o) eventName t me) = false ->
  exists m1 ws,
    removeListener run (VObj o) eventName target method m = (Return tt, m1) /\
    truthy (registered (heap m1) (VObj o) eventName t me) = false /\
    watchedEvents (VObj o) m1 = (Return ws, m1) /\
    In (to_key eventName) ws.
Proof.
  intros Hrun Hn Htidy Hk Hreg. destruct m as [h tr]. cbn [heap] in *.
  destruct (removeListener_unregistered run o eventName target method t me h tr
              Hrun Hn Htidy Hreg) as (h1 & L1 & T1 & A1 & evs & Hens & E).
  destruct (ensured_read _ _ _ _ _ _ _ _ Hens) as (_ & _ & Hr).
  eexists _, _. split; [apply E|]. cbn [heap].
  split; [by rewrite Hr|]. split; [apply watchedEvents_object|]. cbn [heap].
  destruct Hens as ((HL & _) & (HT & _) & _).
  apply truthy_in_watched; [done|]. by rewrite HL, HT.
Qed.

Lemma removeListener_makes_the_event_watched_witness :
  exists m1 ws,
    removeListener quiet_run the_obj (VStr "e") (VFun 1) VUndefined start
    = (Return tt, m1) /\
    truthy (registered (heap m1) the_obj (VStr "e") VNull (VFun 1)) = false /\
    watchedEvents the_obj m1 = (Return ws, m1) /\
    In (to_key (VStr "e")) ws.
Proof.
  apply (removeListener_makes_the_event_watched quiet_run 1 (VStr "e") (VFun 1)
           VUndefined VNull (VFun 1) start).
  - intros c h. by exists VUndefined.
  - reflexivity.
  - unfold tidy. split; [vm_compute; by eexists|].
    split; [by vm_compute|]. split; [vm_compute; reflexivity|].
    split; [apply (bool_decide_unpack _); vm_compute; exact I|].
    split; [vm_compute; constructor|].
    intros H. vm_compute in H. discriminate.
  - reflexivity.
  - vm_compute. reflexivity.
Defined.

(** X5.  Registration read back.  After [addListener] of a pair that was not
    registered, on a tidy registry, with hooks that change nothing and an
    event whose name is not one that [SKIP_PROPERTIES] holds (neither
    [__ember_source__] nor a name that the table inherits from
    [Object.prototype]), [listenersFor] lists the pair [(target, method)] as
    normalised (the target is [null] when only a function was given),
    [hasListeners] answers [true] and [watchedEvents] lists the event; when
    the event had no target set before, the pair is the only one listed. *)
Theorem addListener_is_read_back
    run o eventName target method xform t me m :
  quiet run ->
  truthy eventName = true ->
  normalize target method = (t, me) ->
  tidy (heap m) o eventName t me ->
  SKIP_PROPERTIES (to_key eventName) = false ->
  truthy (registered (heap m) (VObj o) eventName t me) = false ->
  exists m1 ps ws,
    addListener run (VObj o) eventName target method xform m = (Return tt, m1) /\
    listenersFor (VObj o) eventName m1 = (Return ps, m1) /\
    In (t, me) ps /\
    (truthy (target_set (heap m) (VObj o) eventName) = false ->
     ps = [(t, me)]) /\
    hasListeners (VObj o) eventName m1 = (Return true, m1) /\
    watchedEvents (VObj o) m1 = (Return ws, m1) /\
    In (to_key eventName) ws.
Proof.
  intros Hrun Hev Hn Htidy Hk Hreg. destruct m as [h tr]. cbn [heap] in *.
  destruct (addListener_fresh run o eventName target method xform t me h tr
              Hrun Hev Hn Htidy Hreg)
    as (h2 & a & evs & E & _ & Hpair & _ & Hin & Hone).
  assert (Hl : inhabited (live_actions h2 (target_set h2 (VObj o) eventName))
               = true).
  { by destruct (live_actions h2 (target_set h2 (VObj o) eventName)). }
  eexists _, _, _. split; [apply E|].
  split; [apply listenersFor_object|]. cbn [heap].
  split; [rewrite <- Hpair; by apply in_map|].
  split; [intros Hts; by rewrite (Hone Hts), <- Hpair|].
  split; [by apply hasListeners_found|].
  split; [apply watchedEvents_object|]. cbn [heap].
  by apply live_watched.
Qed.

Lemma addListener_is_read_back_witness :
  exists m1 ps ws,
    addListener quiet_run the_obj (VStr "e") (VFun 2) VUndefined VUndefined
      one_listener = (Return tt, m1) /\
    listenersFor the_obj (VStr "e") m1 = (Return ps, m1) /\
    In (VNull, VFun 2) ps /\
    (truthy (target_set (heap one_listener) the_obj (VStr "e")) = false ->
     ps = [(VNull, VFun 2)]) /\
    hasListeners the_obj (VStr "e") m1 = (Return true, m1) /\
    watchedEvents the_obj m1 = (Return ws, m1) /\
    In (to_key (VStr "e")) ws.
Proof.
  apply (addListener_is_read_back quiet_run 1 (VStr "e") (VFun 2) VUndefined
           VUndefined VNull (VFun 2) one_listener).
  - intros c h. by exists VUndefined.
  - reflexivity.
  - reflexivity.
  - unfold tidy. split; [vm_compute; by eexists|].
    split; [by vm_compute|]. split; [vm_compute; reflexivity|].
    split; [apply (bool_decide_unpack _); vm_compute; exact I|].
    split; [vm_compute; repeat constructor|].
    intros H. vm_compute in H. discriminate.
  - reflexivity.
  - vm_compute. reflexivity.
Defined.

(** X6.  [sendEvent] first offers the event to the object: when the object
    is not [Ember] and has a function under [sendEvent], that function is
    called once, before any listener, with the object as receiver and
    [(eventName, ...args)] as arguments, and every later call is the
    invocation of an action; when it raises, no listener is invoked and
    [sendEvent] ends with its exception.  On [Ember] itself, or on an object
    without such a function, every call is the invocation of an action. *)
Theorem sendEvent_offers_the_event_to_the_object :
  (forall run o f eventName args h tr r m',
      VObj o ≠ Ember ->
      prop h (VObj o) "sendEvent" = VFun f ->
      sendEvent run (VObj o) eventName args (Machine h tr) = (r, m') ->
      let c := Apply f (VObj o) (eventName :: args) in
      exists evs,
        trace m' = tr ++ Event Hook c h (fst (run c h)) :: evs /\
        Forall (fun e => exists a, ev_origin e = Action a) evs /\
        forall x, fst (run c h) = Throw x -> evs = [] /\ r = Throw x) /\
  (forall run o eventName args h tr r m',
      VObj o = Ember \/ is_function (prop h (VObj o) "sendEvent") = false ->
      sendEvent run (VObj o) eventName args (Machine h tr) = (r, m') ->
      exists evs,
        trace m' = tr ++ evs /\
        Forall (fun e => exists a, ev_origin e = Action a) evs).
Proof.
  split.
  - intros run o f eventName args h tr r m' Hne Hf H c.
    unfold sendEvent, bind at 1, custom_send in H.
    unfold strict_eq in H. rewrite bool_decide_eq_false_2 in H by done.
    cbn [negb] in H.
    unfold call_hook, bind at 1, get_prop, read in H. cbn beta iota in H.
    cbn [heap] in H. rewrite Hf in H. cbn [is_function] in H.
    unfold bind at 1, apply_fn, invoke in H. cbn [heap trace] in H.
    fold c in H. destruct (run c h) as [[v|x] h1] eqn:Er; cbn [fst].
    + unfold ret in H. cbn beta iota in H.
      apply sendEvent_listeners in H as (evs & Ht & HP). cbn [trace] in Ht.
      exists evs. rewrite Ht, <- app_assoc. by repeat split.
    + injection H as <- <-. exists []. cbn [trace].
      split; [done|]. split; [constructor|]. by intros x' [= <-].
  - intros run o eventName args h tr r m' Hno H.
    unfold sendEvent, bind at 1, custom_send in H.
    assert (E : (if negb (strict_eq (VObj o) Ember)
                 then call_hook run (VObj o) "sendEvent" (eventName :: args)
                 else ret tt) (Machine h tr) = (Return tt, Machine h tr)).
    { destruct Hno as [->|Hno].
      - unfold strict_eq. by rewrite bool_decide_eq_true_2.
      - destruct (negb _); [|done].
        unfold call_hook, bind, get_prop, read. cbn beta iota. cbn [heap].
        by rewrite Hno. }
    rewrite E in H. apply sendEvent_listeners in H. exact H.
Qed.

Lemma sendEvent_offers_the_event_to_the_object_witness :
  (let c := Apply 7 the_obj [VStr "e"; VNum 1] in
   exists evs,
     trace (snd (sendEvent quiet_run the_obj (VStr "e") [VNum 1] hooked))
     = [] ++ Event Hook c (heap hooked) (fst (quiet_run c (heap hooked))) :: evs /\
     Forall (fun e => exists a, ev_origin e = Action a) evs /\
     forall x, fst (quiet_run c (heap hooked)) = Throw x ->
               evs = [] /\
               fst (sendEvent quiet_run the_obj (VStr "e") [VNum 1] hooked)
               = Throw x) /\
  (exists evs,
      trace (snd (sendEvent quiet_run the_obj (VStr "e") [VNum 1] two_listeners))
      = [] ++ evs /\
      Forall (fun e => exists a, ev_origin e = Action a) evs).
Proof.
  destruct sendEvent_offers_the_event_to_the_object as [Hhook Hplain]. split.
  - apply (Hhook quiet_run 1 7 (VStr "e") [VNum 1] (heap hooked) []).
    + discriminate.
    + vm_compute. reflexivity.
    + apply surjective_pairing.
  - apply (Hplain quiet_run 1 (VStr "e") [VNum 1] (heap two_listeners) []
             (fst (sendEvent quiet_run the_obj (VStr "e") [VNum 1] two_listeners))).
    + right. vm_compute. reflexivity.
    + apply surjective_pairing.
Defined.

(** X7.  What [suspendListener] guarantees for a registered action of a
    registry that the object owns, with user code that never drops a cell of
    the heap.  The body is called once, with the target as receiver and no
    argument, on a heap where the action is tombstoned; its outcome, value
    or exception, is the outcome of [suspendListener]; and on both exits the
    record is put back under its key in the action set found before the body
    ran.  The action is registered again whenever the body left the object,
    its listener set and the target set of the event as they were. *)
Theorem suspendListener_runs_body_and_restores
    run o eventName target method f t me a m r m' :
  let obj := VObj o in
  let h := heap m in
  let A := action_set h obj eventName t in
  let hb := set_prop h A (guidFor me) VNull in
  normalize target method = (t, me) ->
  owned h obj (listener_set h obj) ->
  owned h obj (target_set h obj eventName) ->
  owned h obj A ->
  registered h obj eventName t me = VObj a ->
  A ≠ listener_set h obj ->
  A ≠ target_set h obj eventName ->
  (forall c h0, length h0 <= length (snd (run c h0))) ->
  suspendListener run obj eventName target method (VFun f) m = (r, m') ->
  exists h1,
    run (Apply f t []) hb = (r, h1) /\
    registered hb obj eventName t me = VNull /\
    m' = Machine (set_prop h1 A (guidFor me) (VObj a))
           (trace m ++ [Event Body (Apply f t []) hb r]) /\
    prop (heap m') A (guidFor me) = VObj a /\
    (agree (locs [obj; listener_set h obj; target_set h obj eventName]) hb h1 ->
     registered (heap m') obj eventName t me = VObj a).
Proof.
  intros obj h A hb. by apply suspendListener_restores.
Qed.

Lemma suspendListener_runs_body_and_restores_witness :
  let h := heap one_listener in
  let hb := set_prop h (action_set h the_obj (VStr "e") VNull)
              (guidFor (VFun 1)) VNull in
  let m' := snd (suspendListener raising_run the_obj (VStr "e") (VFun 1)
                   VUndefined (VFun 1) one_listener) in
  exists h1,
    raising_run (Apply 1 VNull []) hb = (Throw (Thrown (VStr "boom")), h1) /\
    registered hb the_obj (VStr "e") VNull (VFun 1) = VNull /\
    m' = Machine (set_prop h1 (action_set h the_obj (VStr "e") VNull)
                    (guidFor (VFun 1)) (VObj 5))
           (trace one_listener
              ++ [Event Body (Apply 1 VNull []) hb (Throw (Thrown (VStr "boom")))]) /\
    prop (heap m') (action_set h the_obj (VStr "e") VNull) (guidFor (VFun 1))
    = VObj 5 /\
    (agree (locs [the_obj; listener_set h the_obj; target_set h the_obj (VStr "e")])
       hb h1 ->
     registered (heap m') the_obj (VStr "e") VNull (VFun 1) = VObj 5).
Proof.
  apply (suspendListener_runs_body_and_restores raising_run 1 (VStr "e") (VFun 1)
           VUndefined 1 VNull (VFun 1) 5 one_listener).
  - reflexivity.
  - vm_compute. reflexivity.
  - vm_compute. reflexivity.
  - vm_compute. reflexivity.
  - vm_compute. reflexivity.
  - by vm_compute.
  - by vm_compute.
  - intros c h0. unfold raising_run. destruct c as [[|[|g]] this args|]; simpl; lia.
  - vm_compute. reflexivity.
Defined.

(** X8.  On a registry that the object owns and in which no action is filed
    twice, with hooks that change nothing, [removeListener] of a registered
    action takes exactly that action out: the live actions of the event
    afterwards are the others, in the same order.  A second
    [removeListener] of the same pair returns and leaves the heap as it
    is. *)
Theorem removeListener_removes_exactly_one_action
    run o eventName target method t me m :
  let obj := VObj o in
  let h := heap m in
  quiet run ->
  normalize target method = (t, me) ->
  owned h obj (listener_set h obj) ->
  owned h obj (target_set h obj eventName) ->
  owned h obj (action_set h obj eventName t) ->
  truthy (registered h obj eventName t me) = true ->
  action_set h obj eventName t ≠ listener_set h obj ->
  action_set h obj eventName t ≠ target_set h obj eventName ->
  NoDup (live_actions h (target_set h obj eventName)) ->
  exists m1 m2,
    removeListener run obj eventName target method m = (Return tt, m1) /\
    live_actions (heap m1) (target_set (heap m1) obj eventName)
    = List.filter
        (fun v => negb (strict_eq v (registered h obj eventName t me)))
        (live_actions h (target_set h obj eventName)) /\
    removeListener run obj eventName target method m1 = (Return tt, m2) /\
    heap m2 = heap m1.
Proof.
  intros obj h Hrun Hn HoL HoT HoA Hreg HAL HAT Hnd. subst obj h.
  destruct m as [h tr]. cbn [heap] in *.
  destruct (removeListener_present run o eventName target method t me h tr
              Hrun Hn HoL HoT HoA Hreg HAL HAT)
    as ((evs & E1) & EL & ET & EA & ER & Hown).
  destruct (owned_object _ _ _ HoA) as [A EA0].
  set (h' := set_prop h (action_set h (VObj o) eventName t) (guidFor me) VNull)
    in *.
  destruct (removeListener_absent run o eventName target method t me h'
              (tr ++ evs) Hrun Hn) as (evs2 & E2).
  { rewrite EL. by apply Hown. }
  { rewrite ET. by apply Hown. }
  { rewrite EA. by apply Hown. }
  { by rewrite ER. }
  eexists _, _. split; [apply E1|]. cbn [heap].
  split; [|split; [apply E2|done]].
  rewrite ET. unfold h'. rewrite EA0.
  apply live_actions_tombstone; try done.
  - unfold action_set in EA0. rewrite <- EA0.
    apply in_entries; [|apply guidFor_not_reserved|by rewrite EA0].
    apply prop_in_keys. by rewrite EA0.
  - rewrite <- EA0. congruence.
  - unfold registered. by rewrite EA0.
  - apply guidFor_not_reserved.
Qed.

Lemma removeListener_removes_exactly_one_action_witness :
  exists m1 m2,
    removeListener quiet_run the_obj (VStr "e") (VFun 1) VUndefined two_listeners
    = (Return tt, m1) /\
    live_actions (heap m1) (target_set (heap m1) the_obj (VStr "e"))
    = List.filter
        (fun v => negb (strict_eq v (registered (heap two_listeners) the_obj
                                       (VStr "e") VNull (VFun 1))))
        (live_actions (heap two_listeners)
           (target_set (heap two_listeners) the_obj (VStr "e"))) /\
    removeListener quiet_run the_obj (VStr "e") (VFun 1) VUndefined m1
    = (Return tt, m2) /\
    heap m2 = heap m1.
Proof.
  apply (removeListener_removes_exactly_one_action quiet_run 1 (VStr "e")
           (VFun 1) VUndefined VNull (VFun 1) two_listeners).
  - intros c h. by exists VUndefined.
  - reflexivity.
  - vm_compute. reflexivity.
  - vm_compute. reflexivity.
  - vm_compute. reflexivity.
  - vm_compute. reflexivity.
  - by vm_compute.
  - by vm_compute.
  - apply (bool_decide_unpack _). vm_compute. exact I.
Defined.

(** X9.  [addListener] notifies the object after the registration is
    complete.  For a pair that was not registered, on a tidy registry: the
    heap [h2] that the [didAddListener] hook is looked up on and called on
    has the record filed, with the pair as normalised.  When the object has
    a function there, it is called once, with the object as receiver and
    [(eventName, target, method)] as arguments; what it returns is dropped
    and what it raises is raised by [addListener], the registration staying
    in place.  Without such a function nothing is called. *)
Theorem addListener_notifies_after_registering
    run o eventName target method xform t me m r m' :
  truthy eventName = true ->
  normalize target method = (t, me) ->
  tidy (heap m) o eventName t me ->
  truthy (registered (heap m) (VObj o) eventName t me) = false ->
  addListener run (VObj o) eventName target method xform m = (r, m') ->
  exists h2 a,
    registered h2 (VObj o) eventName t me = VObj a /\
    pair_of h2 (VObj a) = (t, me) /\
    prop h2 (VObj a) "xform" = xform /\
    (forall f, prop h2 (VObj o) "didAddListener" = VFun f ->
       let c := Apply f (VObj o) [eventName; t; me] in
       trace m' = trace m ++ [Event Hook c h2 (fst (run c h2))] /\
       heap m' = snd (run c h2) /\
       r = match fst (run c h2) with
           | Return _ => Return tt
           | Throw e => Throw e
           end) /\
    (is_function (prop h2 (VObj o) "didAddListener") = false ->
     m' = Machine h2 (trace m) /\ r = Return tt).
Proof.
  intros Hev Hn Htidy Hreg H. destruct m as [h tr]. cbn [heap trace] in *.
  destruct (addListener_then_hook run o eventName target method xform t me h tr
              Hev Hn Htidy Hreg) as (h2 & a & E & Hset & Hpair & Hx).
  rewrite E in H. exists h2, a.
  split; [by destruct Hset as (_ & _ & _ & ? & _)|].
  split; [done|]. split; [done|]. split.
  - intros f Hf.
    pose proof (call_hook_present run o "didAddListener" [eventName; t; me]
                  h2 tr f Hf) as Ec.
    cbv zeta in Ec. rewrite Ec in H. by injection H as <- <-.
  - intros Hf. rewrite call_hook_absent in H by done. by injection H as <- <-.
Qed.

Lemma addListener_notifies_after_registering_witness :
  let r := fst (addListener hook_raising_run the_obj (VStr "e") (VFun 1)
                  VUndefined VUndefined notified) in
  let m' := snd (addListener hook_raising_run the_obj (VStr "e") (VFun 1)
                   VUndefined VUndefined notified) in
  exists h2 a,
    registered h2 the_obj (VStr "e") VNull (VFun 1) = VObj a /\
    pair_of h2 (VObj a) = (VNull, VFun 1) /\
    prop h2 (VObj a) "xform" = VUndefined /\
    (forall f, prop h2 the_obj "didAddListener" = VFun f ->
       let c := Apply f the_obj [VStr "e"; VNull; VFun 1] in
       trace m' = trace notified ++ [Event Hook c h2 (fst (hook_raising_run c h2))] /\
       heap m' = snd (hook_raising_run c h2) /\
       r = match fst (hook_raising_run c h2) with
           | Return _ => Return tt
           | Throw e => Throw e
           end) /\
    (is_function (prop h2 the_obj "didAddListener") = false ->
     m' = Machine h2 (trace notified) /\ r = Return tt).
Proof.
  apply (addListener_notifies_after_registering hook_raising_run 1 (VStr "e")
           (VFun 1) VUndefined VUndefined VNull (VFun 1) notified).
  - reflexivity.
  - reflexivity.
  - unfold tidy. split; [vm_compute; by eexists|].
    split; [by vm_compute|]. split; [vm_compute; reflexivity|].
    split; [apply (bool_decide_unpack _); vm_compute; exact I|].
    split; [vm_compute; constructor|].
    intros H. vm_compute in H. discriminate.
  - vm_compute. reflexivity.
  - apply surjective_pairing.
Defined.

(** X10.  [addListener] does not look at the method.  A listener whose
    method is neither a function, nor a name, nor an object (which could hold
    an [apply] of its own), registered without a transform as the first
    listener of an event, is accepted; the next [sendEvent] raises a
    [TypeError], after the hook of the object and without having invoked
    anything. *)
Theorem uncallable_listener_fails_at_the_fire
    run o eventName target method xform t me args m :
  quiet run ->
  truthy eventName = true ->
  normalize target method = (t, me) ->
  tidy (heap m) o eventName t me ->
  truthy (target_set (heap m) (VObj o) eventName) = false ->
  is_function me = false ->
  is_string me = false ->
  is_object me = false ->
  truthy xform = false ->
  exists m1 m2 evs,
    addListener run (VObj o) eventName target method xform m = (Return tt, m1) /\
    sendEvent run (VObj o) eventName args m1 = (Throw TypeError, m2) /\
    trace m2 = trace m1 ++ evs /\
    invoked evs = [].
Proof.
  intros Hrun Hev Hn Htidy Hts Hf Hs Hob Hx. destruct m as [h tr].
  cbn [heap] in *.
  destruct (addListener_first run o eventName target method xform t me h tr
              Hrun Hev Hn Htidy Hts)
    as (h2 & T & A & a & evs1 & E1 & _ & Hlone & Hrec).
  destruct (sendEvent_lone_uncallable run o eventName args h2 (tr ++ evs1) T A
              (guidFor t) (guidFor me) a Hrun (guidFor_not_reserved t)
              (guidFor_not_reserved me) Hlone) as (evs & E2 & Hinv).
  { unfold planned, resolved_method, arguments_object.
    rewrite !prop_blank_cell, !Hrec.
    change (alookup "method" (props (action_record t me xform))) with me.
    change (alookup "xform" (props (action_record t me xform))) with xform.
    rewrite Hs, Hx. cbn [andb]. by destruct me. }
  eexists _, _, evs. split; [apply E1|]. split; [apply E2|]. by split.
Qed.

Lemma uncallable_listener_fails_at_the_fire_witness :
  exists m1 m2 evs,
    addListener quiet_run the_obj (VStr "e") (VObj 0) VUndefined VUndefined start
    = (Return tt, m1) /\
    sendEvent quiet_run the_obj (VStr "e") [VNum 1] m1 = (Throw TypeError, m2) /\
    trace m2 = trace m1 ++ evs /\
    invoked evs = [].
Proof.
  apply (uncallable_listener_fails_at_the_fire quiet_run 1 (VStr "e") (VObj 0)
           VUndefined VUndefined (VObj 0) VUndefined [VNum 1] start).
  - intros c h. by exists VUndefined.
  - reflexivity.
  - reflexivity.
  - unfold tidy. split; [vm_compute; by eexists|].
    split; [by vm_compute|]. split; [vm_compute; reflexivity|].
    split; [apply (bool_decide_unpack _); vm_compute; exact I|].
    split; [vm_compute; constructor|].
    intros H. vm_compute in H. discriminate.
  - vm_compute. reflexivity.
  - reflexivity.
  - reflexivity.
  - reflexivity.
  - reflexivity.
Defined.

(** X11.  [sendEvent] invokes in the order of the registry.  When user code
    leaves the registry of [(obj, eventName)] alone, that is, the object
    keeps its listener set and the listener set, the target set and the
    action sets of the event keep what they hold, the actions invoked by a
    fire are, in this order, an initial stretch of the live actions as
    [listenersFor] lists them (target sets in key order, then methods in key
    order): all of them when the fire returns, those up to the one whose
    call raised otherwise. *)
Theorem sendEvent_invokes_in_registry_order run obj eventName args m r m' :
  preserves run (registry (heap m) obj eventName) ->
  keeps_listener_set run obj ->
  sendEvent run obj eventName args m = (r, m') ->
  exists evs rest,
    trace m' = trace m ++ evs /\
    live_actions (heap m) (target_set (heap m) obj eventName)
    = invoked evs ++ rest /\
    (forall b, r = Return b -> rest = []).
Proof.
  intros Hrun Hk H.
  apply sendEvent_registry in H as (evs & Ht & rest & Hl & Hnil); [|done..].
  by exists evs, rest.
Qed.

Lemma sendEvent_invokes_in_registry_order_witness :
  exists evs rest,
    trace (snd (sendEvent raising_run the_obj (VStr "e") [] two_listeners))
    = trace two_listeners ++ evs /\
    live_actions (heap two_listeners)
      (target_set (heap two_listeners) the_obj (VStr "e"))
    = invoked evs ++ rest /\
    (forall b,
        fst (sendEvent raising_run the_obj (VStr "e") [] two_listeners)
        = Return b -> rest = []).
Proof.
  apply (sendEvent_invokes_in_registry_order raising_run the_obj (VStr "e") []
           two_listeners).
  - intros c h l _. unfold raising_run.
    destruct c as [[|[|f]] this args|]; reflexivity.
  - intros c h. unfold raising_run.
    destruct c as [[|[|f]] this args|]; reflexivity.
  - apply surjective_pairing.
Defined.

(** X12.  Tombstone and restore cancel out.  For a registered action of a
    registry that the object owns, when the body leaves the heap it runs on
    as it is, [suspendListener] returns or raises what the body did and
    leaves the heap exactly as it found it; with a body that [call] finds
    nothing to call for, neither a function nor an object that holds a
    function under [call], it raises a [TypeError] and leaves heap and
    trace as they were. *)
Theorem suspendListener_leaves_the_heap_as_it_was :
  (forall run o eventName target method f t me a m r,
      let obj := VObj o in
      let h := heap m in
      let hb := set_prop h (action_set h obj eventName t) (guidFor me) VNull in
      normalize target method = (t, me) ->
      owned h obj (listener_set h obj) ->
      owned h obj (target_set h obj eventName) ->
      owned h obj (action_set h obj eventName t) ->
      registered h obj eventName t me = VObj a ->
      run (Apply f t []) hb = (r, hb) ->
      suspendListener run obj eventName target method (VFun f) m
      = (r, Machine h (trace m ++ [Event Body (Apply f t []) hb r]))) /\
  (forall run o eventName target method callback t me a m,
      let obj := VObj o in
      let h := heap m in
      let hb := set_prop h (action_set h obj eventName t) (guidFor me) VNull in
      normalize target method = (t, me) ->
      owned h obj (listener_set h obj) ->
      owned h obj (target_set h obj eventName) ->
      owned h obj (action_set h obj eventName t) ->
      registered h obj eventName t me = VObj a ->
      callable hb "call" callback = false ->
      suspendListener run obj eventName target method callback m
      = (Throw TypeError, m)).
Proof.
  assert (Hback : forall h o ev t me a A,
             action_set h (VObj o) ev t = VObj A ->
             registered h (VObj o) ev t me = VObj a ->
             set_prop (set_prop h (VObj A) (guidFor me) VNull) (VObj A)
               (guidFor me) (VObj a) = h).
  { intros h o ev t me a A EA Hreg. unfold registered in Hreg.
    rewrite EA in Hreg. rewrite <- Hreg. apply set_prop_restore.
    apply prop_in_keys. by rewrite Hreg. }
  split.
  - intros run o ev target method f t me a [h tr] r obj h' hb.
    subst obj h'. cbn [heap trace] in *. intros Hn HoL HoT HoA Hreg Hbody.
    destruct (owned_object _ _ _ HoA) as [A EA].
    rewrite (suspendListener_unfold run o ev target method (VFun f) t me a A)
      by done.
    unfold hb in *. rewrite EA in *.
    unfold try_finally, method_call, invoke. cbn [heap trace]. rewrite Hbody.
    cbn [heap trace]. by rewrite (Hback h o ev t me a A).
  - intros run o ev target method callback t me a [h tr] obj h' hb.
    subst obj h'. cbn [heap] in *. intros Hn HoL HoT HoA Hreg Hcb.
    destruct (owned_object _ _ _ HoA) as [A EA].
    rewrite (suspendListener_unfold run o ev target method callback t me a A)
      by done.
    unfold hb in *. rewrite EA in *.
    unfold try_finally, method_call.
    destruct callback as [| | | | |l|]; try done;
      try (unfold throw; cbn [heap trace]; by rewrite (Hback h o ev t me a A)).
    unfold bind, read, apply_fn. cbn [heap trace]. cbn [callable] in Hcb.
    destruct (prop _ (VObj l) "call"); try done;
      unfold throw; cbn [heap trace]; by rewrite (Hback h o ev t me a A).
Qed.

Lemma suspendListener_leaves_the_heap_as_it_was_witness :
  (let h := heap one_listener in
   let hb := set_prop h (action_set h the_obj (VStr "e") VNull)
               (guidFor (VFun 1)) VNull in
   suspendListener raising_run the_obj (VStr "e") (VFun 1) VUndefined (VFun 1)
     one_listener
   = (Throw (Thrown (VStr "boom")),
      Machine h (trace one_listener
                   ++ [Event Body (Apply 1 VNull []) hb
                         (Throw (Thrown (VStr "boom")))]))) /\
  suspendListener quiet_run the_obj (VStr "e") (VFun 1) VUndefined (VNum 3)
    one_listener
  = (Throw TypeError, one_listener).
Proof.
  destruct suspendListener_leaves_the_heap_as_it_was as [Hbody Hnone]. split.
  - apply (Hbody raising_run 1 (VStr "e") (VFun 1) VUndefined 1 VNull (VFun 1) 5
             one_listener).
    + reflexivity.
    + vm_compute. reflexivity.
    + vm_compute. reflexivity.
    + vm_compute. reflexivity.
    + vm_compute. reflexivity.
    + vm_compute. reflexivity.
  - apply (Hnone quiet_run 1 (VStr "e") (VFun 1) VUndefined (VNum 3) VNull
             (VFun 1) 5 one_listener).
    + reflexivity.
    + vm_compute. reflexivity.
    + vm_compute. reflexivity.
    + vm_compute. reflexivity.
    + vm_compute. reflexivity.
    + reflexivity.
Defined.

(** X13.  A removal after the capture does not reach the closure of
    [deferEvent].  When a registered action is captured by [deferEvent] and
    its listener is removed afterwards, the closure, when it returns, has
    invoked the action all the same: it walks its own list of records and
    never looks at the tombstone that [removeListener] left in the
    registry. *)
Theorem deferred_call_ignores_later_removal
    run o eventName args target method t me m d m0 r1 m1 u m2 :
  let obj := VObj o in
  let h := heap m in
  normalize target method = (t, me) ->
  truthy (registered h obj eventName t me) = true ->
  deferEvent obj eventName args m = (Return d, m0) ->
  removeListener run obj eventName target method m0 = (r1, m1) ->
  run_deferred run d m1 = (Return u, m2) ->
  exists evs,
    trace m2 = trace m1 ++ evs /\
    In (registered h obj eventName t me) (invoked evs).
Proof.
  intros obj h Hn Hreg Hd _ Hc. subst obj h.
  apply deferEvent_inv in Hd as [[? _]|[Hd _]]; [done|]. injection Hd as ->.
  apply (run_deferred_inv run [] (heap m1)) in Hc as (evs & Ht & _ & _ & Hp);
    [|apply preserves_nothing|apply agree_refl].
  cbn [d_actions] in Hp. destruct Hp as (rest & Hlive & Hnil).
  rewrite (Hnil u), app_nil_r in Hlive by done.
  exists evs. split; [done|]. rewrite <- Hlive.
  apply registered_is_live; [done|].
  unfold registered in Hreg.
  destruct (action_set (heap m) (VObj o) eventName t); try done;
    by rewrite prop_falsy in Hreg.
Qed.

Lemma deferred_call_ignores_later_removal_witness :
  let m1 := after (removeListener quiet_run the_obj (VStr "e") (VFun 1)
                     VUndefined) after_capture_e in
  exists evs,
    trace (snd (run_deferred quiet_run captured_e m1)) = trace m1 ++ evs /\
    In (registered (heap one_listener) the_obj (VStr "e") VNull (VFun 1))
      (invoked evs).
Proof.
  apply (deferred_call_ignores_later_removal quiet_run 1 (VStr "e")
           [VNum 1; VNum 2] (VFun 1) VUndefined VNull (VFun 1) one_listener
           captured_e after_capture_e (Return tt)
           (after (removeListener quiet_run the_obj (VStr "e") (VFun 1)
                     VUndefined) after_capture_e)
           VUndefined
           (snd (run_deferred quiet_run captured_e
                   (after (removeListener quiet_run the_obj (VStr "e") (VFun 1)
                             VUndefined) after_capture_e)))).
  - reflexivity.
  - vm_compute. reflexivity.
  - vm_compute. reflexivity.
  - vm_compute. reflexivity.
  - vm_compute. reflexivity.
Defined.
